(** * Arraigo ETL: signal aggregation and scoring core

    A shallow embedding of [scripts/arraigo_etl.py] and the proofs of the
    properties its specification states.

    Conventions of the embedding.
    - A Python [str] is a list of Unicode code points ([list N]).
    - [str.isspace], [str.lower] and the regular-expression class [\w] read
      the Unicode Character Database of the interpreter.  Their tables are
      embedded in full, as CPython 3.11 has them (version 14.0.0 of the
      database), with the two rules of [str.lower] that are not tables:
      U+0130 lower-cases to two code points, and the capital sigma to its
      final form at the end of a word.
    - What the program calls outside of its own file ([requests], [PyPDF2],
      [BeautifulSoup], [pyodbc], [os.environ], the system clock) is a
      parameter of the run: a function that gives the value of the call or
      the exception it raises.
    - The relational store reached through the [pyodbc] cursor is a record
      of four tables, as the cursor sees them inside the open transaction.
      A call of the driver may raise; when it does, the effects of the
      statements executed before it stay in the open transaction. *)

From Stdlib Require Import ZArith NArith List String Ascii Bool Lia.
From stdpp Require Import gmap strings list.

Local Open Scope N_scope.

(* ===================================================================== *)
(** * Text helpers *)
(* ===================================================================== *)

Module Text.

(** A Python string, as a sequence of code points. *)
Abbreviation str := (list N).

(** The bytes of a literal of the source file (which is UTF-8 encoded). *)
Fixpoint bytes_of (s : string) : list N :=
  match s with
  | EmptyString => []
  | String a s' => N_of_ascii a :: bytes_of s'
  end.

(** UTF-8 decoding of a well-formed byte sequence. *)
Fixpoint utf8_decode (bs : list N) : str :=
  match bs with
  | [] => []
  | b :: r =>
      if b <? 0x80 then b :: utf8_decode r
      else if b <? 0xE0 then
        match r with
        | b1 :: r' => ((b - 0xC0) * 64 + (b1 - 0x80)) :: utf8_decode r'
        | _ => []
        end
      else if b <? 0xF0 then
        match r with
        | b1 :: b2 :: r' =>
            ((b - 0xE0) * 4096 + (b1 - 0x80) * 64 + (b2 - 0x80)) :: utf8_decode r'
        | _ => []
        end
      else
        match r with
        | b1 :: b2 :: b3 :: r' =>
            ((b - 0xF0) * 262144 + (b1 - 0x80) * 4096 + (b2 - 0x80) * 64
             + (b3 - 0x80)) :: utf8_decode r'
        | _ => []
        end
  end.

(** A string literal of the source, as code points. *)
Definition U (s : string) : str := utf8_decode (bytes_of s).

(** [str.isspace] for one code point (also the class [\s] of [re]). *)
Definition isspace (c : N) : bool :=
  ((0x09 <=? c) && (c <=? 0x0D)) || ((0x1C <=? c) && (c <=? 0x20))
  || (c =? 0x85) || (c =? 0xA0) || (c =? 0x1680)
  || ((0x2000 <=? c) && (c <=? 0x200A))
  || (c =? 0x2028) || (c =? 0x2029) || (c =? 0x202F) || (c =? 0x205F)
  || (c =? 0x3000).

(** ** Tables of the Python runtime

    [str.lower], [str.isalnum] and the class [\w] of [re] read the Unicode
    Character Database compiled into the interpreter.  The tables below
    are those of version 14.0.0 of the database (CPython 3.11), each a
    list of ranges [(first, last)] sorted by [first]. *)

Fixpoint in_ranges (c : N) (rs : list (N * N)) : bool :=
  match rs with
  | [] => false
  | (first, last) :: rs' =>
      if c <? first then false
      else if c <=? last then true
      else in_ranges c rs'
  end.

(** The code points for which [str.isalnum] holds. *)
Definition ALNUM : list (N * N) :=
  [ (0x0030, 0x0039); (0x0041, 0x005A); (0x0061, 0x007A); (0x00AA, 0x00AA); (0x00B2, 0x00B3);
    (0x00B5, 0x00B5); (0x00B9, 0x00BA); (0x00BC, 0x00BE); (0x00C0, 0x00D6); (0x00D8, 0x00F6);
    (0x00F8, 0x02C1); (0x02C6, 0x02D1); (0x02E0, 0x02E4); (0x02EC, 0x02EC); (0x02EE, 0x02EE);
    (0x0370, 0x0374); (0x0376, 0x0377); (0x037A, 0x037D); (0x037F, 0x037F); (0x0386, 0x0386);
    (0x0388, 0x038A); (0x038C, 0x038C); (0x038E, 0x03A1); (0x03A3, 0x03F5); (0x03F7, 0x0481);
    (0x048A, 0x052F); (0x0531, 0x0556); (0x0559, 0x0559); (0x0560, 0x0588); (0x05D0, 0x05EA);
    (0x05EF, 0x05F2); (0x0620, 0x064A); (0x0660, 0x0669); (0x066E, 0x066F); (0x0671, 0x06D3);
    (0x06D5, 0x06D5); (0x06E5, 0x06E6); (0x06EE, 0x06FC); (0x06FF, 0x06FF); (0x0710, 0x0710);
    (0x0712, 0x072F); (0x074D, 0x07A5); (0x07B1, 0x07B1); (0x07C0, 0x07EA); (0x07F4, 0x07F5);
    (0x07FA, 0x07FA); (0x0800, 0x0815); (0x081A, 0x081A); (0x0824, 0x0824); (0x0828, 0x0828);
    (0x0840, 0x0858); (0x0860, 0x086A); (0x0870, 0x0887); (0x0889, 0x088E); (0x08A0, 0x08C9);
    (0x0904, 0x0939); (0x093D, 0x093D); (0x0950, 0x0950); (0x0958, 0x0961); (0x0966, 0x096F);
    (0x0971, 0x0980); (0x0985, 0x098C); (0x098F, 0x0990); (0x0993, 0x09A8); (0x09AA, 0x09B0);
    (0x09B2, 0x09B2); (0x09B6, 0x09B9); (0x09BD, 0x09BD); (0x09CE, 0x09CE); (0x09DC, 0x09DD);
    (0x09DF, 0x09E1); (0x09E6, 0x09F1); (0x09F4, 0x09F9); (0x09FC, 0x09FC); (0x0A05, 0x0A0A);
    (0x0A0F, 0x0A10); (0x0A13, 0x0A28); (0x0A2A, 0x0A30); (0x0A32, 0x0A33); (0x0A35, 0x0A36);
    (0x0A38, 0x0A39); (0x0A59, 0x0A5C); (0x0A5E, 0x0A5E); (0x0A66, 0x0A6F); (0x0A72, 0x0A74);
    (0x0A85, 0x0A8D); (0x0A8F, 0x0A91); (0x0A93, 0x0AA8); (0x0AAA, 0x0AB0); (0x0AB2, 0x0AB3);
    (0x0AB5, 0x0AB9); (0x0ABD, 0x0ABD); (0x0AD0, 0x0AD0); (0x0AE0, 0x0AE1); (0x0AE6, 0x0AEF);
    (0x0AF9, 0x0AF9); (0x0B05, 0x0B0C); (0x0B0F, 0x0B10); (0x0B13, 0x0B28); (0x0B2A, 0x0B30);
    (0x0B32, 0x0B33); (0x0B35, 0x0B39); (0x0B3D, 0x0B3D); (0x0B5C, 0x0B5D); (0x0B5F, 0x0B61);
    (0x0B66, 0x0B6F); (0x0B71, 0x0B77); (0x0B83, 0x0B83); (0x0B85, 0x0B8A); (0x0B8E, 0x0B90);
    (0x0B92, 0x0B95); (0x0B99, 0x0B9A); (0x0B9C, 0x0B9C); (0x0B9E, 0x0B9F); (0x0BA3, 0x0BA4);
    (0x0BA8, 0x0BAA); (0x0BAE, 0x0BB9); (0x0BD0, 0x0BD0); (0x0BE6, 0x0BF2); (0x0C05, 0x0C0C);
    (0x0C0E, 0x0C10); (0x0C12, 0x0C28); (0x0C2A, 0x0C39); (0x0C3D, 0x0C3D); (0x0C58, 0x0C5A);
    (0x0C5D, 0x0C5D); (0x0C60, 0x0C61); (0x0C66, 0x0C6F); (0x0C78, 0x0C7E); (0x0C80, 0x0C80);
    (0x0C85, 0x0C8C); (0x0C8E, 0x0C90); (0x0C92, 0x0CA8); (0x0CAA, 0x0CB3); (0x0CB5, 0x0CB9);
    (0x0CBD, 0x0CBD); (0x0CDD, 0x0CDE); (0x0CE0, 0x0CE1); (0x0CE6, 0x0CEF); (0x0CF1, 0x0CF2);
    (0x0D04, 0x0D0C); (0x0D0E, 0x0D10); (0x0D12, 0x0D3A); (0x0D3D, 0x0D3D); (0x0D4E, 0x0D4E);
    (0x0D54, 0x0D56); (0x0D58, 0x0D61); (0x0D66, 0x0D78); (0x0D7A, 0x0D7F); (0x0D85, 0x0D96);
    (0x0D9A, 0x0DB1); (0x0DB3, 0x0DBB); (0x0DBD, 0x0DBD); (0x0DC0, 0x0DC6); (0x0DE6, 0x0DEF);
    (0x0E01, 0x0E30); (0x0E32, 0x0E33); (0x0E40, 0x0E46); (0x0E50, 0x0E59); (0x0E81, 0x0E82);
    (0x0E84, 0x0E84); (0x0E86, 0x0E8A); (0x0E8C, 0x0EA3); (0x0EA5, 0x0EA5); (0x0EA7, 0x0EB0);
    (0x0EB2, 0x0EB3); (0x0EBD, 0x0EBD); (0x0EC0, 0x0EC4); (0x0EC6, 0x0EC6); (0x0ED0, 0x0ED9);
    (0x0EDC, 0x0EDF); (0x0F00, 0x0F00); (0x0F20, 0x0F33); (0x0F40, 0x0F47); (0x0F49, 0x0F6C);
    (0x0F88, 0x0F8C); (0x1000, 0x102A); (0x103F, 0x1049); (0x1050, 0x1055); (0x105A, 0x105D);
    (0x1061, 0x1061); (0x1065, 0x1066); (0x106E, 0x1070); (0x1075, 0x1081); (0x108E, 0x108E);
    (0x1090, 0x1099); (0x10A0, 0x10C5); (0x10C7, 0x10C7); (0x10CD, 0x10CD); (0x10D0, 0x10FA);
    (0x10FC, 0x1248); (0x124A, 0x124D); (0x1250, 0x1256); (0x1258, 0x1258); (0x125A, 0x125D);
    (0x1260, 0x1288); (0x128A, 0x128D); (0x1290, 0x12B0); (0x12B2, 0x12B5); (0x12B8, 0x12BE);
    (0x12C0, 0x12C0); (0x12C2, 0x12C5); (0x12C8, 0x12D6); (0x12D8, 0x1310); (0x1312, 0x1315);
    (0x1318, 0x135A); (0x1369, 0x137C); (0x1380, 0x138F); (0x13A0, 0x13F5); (0x13F8, 0x13FD);
    (0x1401, 0x166C); (0x166F, 0x167F); (0x1681, 0x169A); (0x16A0, 0x16EA); (0x16EE, 0x16F8);
    (0x1700, 0x1711); (0x171F, 0x1731); (0x1740, 0x1751); (0x1760, 0x176C); (0x176E, 0x1770);
    (0x1780, 0x17B3); (0x17D7, 0x17D7); (0x17DC, 0x17DC); (0x17E0, 0x17E9); (0x17F0, 0x17F9);
    (0x1810, 0x1819); (0x1820, 0x1878); (0x1880, 0x1884); (0x1887, 0x18A8); (0x18AA, 0x18AA);
    (0x18B0, 0x18F5); (0x1900, 0x191E); (0x1946, 0x196D); (0x1970, 0x1974); (0x1980, 0x19AB);
    (0x19B0, 0x19C9); (0x19D0, 0x19DA); (0x1A00, 0x1A16); (0x1A20, 0x1A54); (0x1A80, 0x1A89);
    (0x1A90, 0x1A99); (0x1AA7, 0x1AA7); (0x1B05, 0x1B33); (0x1B45, 0x1B4C); (0x1B50, 0x1B59);
    (0x1B83, 0x1BA0); (0x1BAE, 0x1BE5); (0x1C00, 0x1C23); (0x1C40, 0x1C49); (0x1C4D, 0x1C7D);
    (0x1C80, 0x1C88); (0x1C90, 0x1CBA); (0x1CBD, 0x1CBF); (0x1CE9, 0x1CEC); (0x1CEE, 0x1CF3);
    (0x1CF5, 0x1CF6); (0x1CFA, 0x1CFA); (0x1D00, 0x1DBF); (0x1E00, 0x1F15); (0x1F18, 0x1F1D);
    (0x1F20, 0x1F45); (0x1F48, 0x1F4D); (0x1F50, 0x1F57); (0x1F59, 0x1F59); (0x1F5B, 0x1F5B);
    (0x1F5D, 0x1F5D); (0x1F5F, 0x1F7D); (0x1F80, 0x1FB4); (0x1FB6, 0x1FBC); (0x1FBE, 0x1FBE);
    (0x1FC2, 0x1FC4); (0x1FC6, 0x1FCC); (0x1FD0, 0x1FD3); (0x1FD6, 0x1FDB); (0x1FE0, 0x1FEC);
    (0x1FF2, 0x1FF4); (0x1FF6, 0x1FFC); (0x2070, 0x2071); (0x2074, 0x2079); (0x207F, 0x2089);
    (0x2090, 0x209C); (0x2102, 0x2102); (0x2107, 0x2107); (0x210A, 0x2113); (0x2115, 0x2115);
    (0x2119, 0x211D); (0x2124, 0x2124); (0x2126, 0x2126); (0x2128, 0x2128); (0x212A, 0x212D);
    (0x212F, 0x2139); (0x213C, 0x213F); (0x2145, 0x2149); (0x214E, 0x214E); (0x2150, 0x2189);
    (0x2460, 0x249B); (0x24EA, 0x24FF); (0x2776, 0x2793); (0x2C00, 0x2CE4); (0x2CEB, 0x2CEE);
    (0x2CF2, 0x2CF3); (0x2CFD, 0x2CFD); (0x2D00, 0x2D25); (0x2D27, 0x2D27); (0x2D2D, 0x2D2D);
    (0x2D30, 0x2D67); (0x2D6F, 0x2D6F); (0x2D80, 0x2D96); (0x2DA0, 0x2DA6); (0x2DA8, 0x2DAE);
    (0x2DB0, 0x2DB6); (0x2DB8, 0x2DBE); (0x2DC0, 0x2DC6); (0x2DC8, 0x2DCE); (0x2DD0, 0x2DD6);
    (0x2DD8, 0x2DDE); (0x2E2F, 0x2E2F); (0x3005, 0x3007); (0x3021, 0x3029); (0x3031, 0x3035);
    (0x3038, 0x303C); (0x3041, 0x3096); (0x309D, 0x309F); (0x30A1, 0x30FA); (0x30FC, 0x30FF);
    (0x3105, 0x312F); (0x3131, 0x318E); (0x3192, 0x3195); (0x31A0, 0x31BF); (0x31F0, 0x31FF);
    (0x3220, 0x3229); (0x3248, 0x324F); (0x3251, 0x325F); (0x3280, 0x3289); (0x32B1, 0x32BF);
    (0x3400, 0x4DBF); (0x4E00, 0xA48C); (0xA4D0, 0xA4FD); (0xA500, 0xA60C); (0xA610, 0xA62B);
    (0xA640, 0xA66E); (0xA67F, 0xA69D); (0xA6A0, 0xA6EF); (0xA717, 0xA71F); (0xA722, 0xA788);
    (0xA78B, 0xA7CA); (0xA7D0, 0xA7D1); (0xA7D3, 0xA7D3); (0xA7D5, 0xA7D9); (0xA7F2, 0xA801);
    (0xA803, 0xA805); (0xA807, 0xA80A); (0xA80C, 0xA822); (0xA830, 0xA835); (0xA840, 0xA873);
    (0xA882, 0xA8B3); (0xA8D0, 0xA8D9); (0xA8F2, 0xA8F7); (0xA8FB, 0xA8FB); (0xA8FD, 0xA8FE);
    (0xA900, 0xA925); (0xA930, 0xA946); (0xA960, 0xA97C); (0xA984, 0xA9B2); (0xA9CF, 0xA9D9);
    (0xA9E0, 0xA9E4); (0xA9E6, 0xA9FE); (0xAA00, 0xAA28); (0xAA40, 0xAA42); (0xAA44, 0xAA4B);
    (0xAA50, 0xAA59); (0xAA60, 0xAA76); (0xAA7A, 0xAA7A); (0xAA7E, 0xAAAF); (0xAAB1, 0xAAB1);
    (0xAAB5, 0xAAB6); (0xAAB9, 0xAABD); (0xAAC0, 0xAAC0); (0xAAC2, 0xAAC2); (0xAADB, 0xAADD);
    (0xAAE0, 0xAAEA); (0xAAF2, 0xAAF4); (0xAB01, 0xAB06); (0xAB09, 0xAB0E); (0xAB11, 0xAB16);
    (0xAB20, 0xAB26); (0xAB28, 0xAB2E); (0xAB30, 0xAB5A); (0xAB5C, 0xAB69); (0xAB70, 0xABE2);
    (0xABF0, 0xABF9); (0xAC00, 0xD7A3); (0xD7B0, 0xD7C6); (0xD7CB, 0xD7FB); (0xF900, 0xFA6D);
    (0xFA70, 0xFAD9); (0xFB00, 0xFB06); (0xFB13, 0xFB17); (0xFB1D, 0xFB1D); (0xFB1F, 0xFB28);
    (0xFB2A, 0xFB36); (0xFB38, 0xFB3C); (0xFB3E, 0xFB3E); (0xFB40, 0xFB41); (0xFB43, 0xFB44);
    (0xFB46, 0xFBB1); (0xFBD3, 0xFD3D); (0xFD50, 0xFD8F); (0xFD92, 0xFDC7); (0xFDF0, 0xFDFB);
    (0xFE70, 0xFE74); (0xFE76, 0xFEFC); (0xFF10, 0xFF19); (0xFF21, 0xFF3A); (0xFF41, 0xFF5A);
    (0xFF66, 0xFFBE); (0xFFC2, 0xFFC7); (0xFFCA, 0xFFCF); (0xFFD2, 0xFFD7); (0xFFDA, 0xFFDC);
    (0x10000, 0x1000B); (0x1000D, 0x10026); (0x10028, 0x1003A); (0x1003C, 0x1003D); (0x1003F, 0x1004D);
    (0x10050, 0x1005D); (0x10080, 0x100FA); (0x10107, 0x10133); (0x10140, 0x10178); (0x1018A, 0x1018B);
    (0x10280, 0x1029C); (0x102A0, 0x102D0); (0x102E1, 0x102FB); (0x10300, 0x10323); (0x1032D, 0x1034A);
    (0x10350, 0x10375); (0x10380, 0x1039D); (0x103A0, 0x103C3); (0x103C8, 0x103CF); (0x103D1, 0x103D5);
    (0x10400, 0x1049D); (0x104A0, 0x104A9); (0x104B0, 0x104D3); (0x104D8, 0x104FB); (0x10500, 0x10527);
    (0x10530, 0x10563); (0x10570, 0x1057A); (0x1057C, 0x1058A); (0x1058C, 0x10592); (0x10594, 0x10595);
    (0x10597, 0x105A1); (0x105A3, 0x105B1); (0x105B3, 0x105B9); (0x105BB, 0x105BC); (0x10600, 0x10736);
    (0x10740, 0x10755); (0x10760, 0x10767); (0x10780, 0x10785); (0x10787, 0x107B0); (0x107B2, 0x107BA);
    (0x10800, 0x10805); (0x10808, 0x10808); (0x1080A, 0x10835); (0x10837, 0x10838); (0x1083C, 0x1083C);
    (0x1083F, 0x10855); (0x10858, 0x10876); (0x10879, 0x1089E); (0x108A7, 0x108AF); (0x108E0, 0x108F2);
    (0x108F4, 0x108F5); (0x108FB, 0x1091B); (0x10920, 0x10939); (0x10980, 0x109B7); (0x109BC, 0x109CF);
    (0x109D2, 0x10A00); (0x10A10, 0x10A13); (0x10A15, 0x10A17); (0x10A19, 0x10A35); (0x10A40, 0x10A48);
    (0x10A60, 0x10A7E); (0x10A80, 0x10A9F); (0x10AC0, 0x10AC7); (0x10AC9, 0x10AE4); (0x10AEB, 0x10AEF);
    (0x10B00, 0x10B35); (0x10B40, 0x10B55); (0x10B58, 0x10B72); (0x10B78, 0x10B91); (0x10BA9, 0x10BAF);
    (0x10C00, 0x10C48); (0x10C80, 0x10CB2); (0x10CC0, 0x10CF2); (0x10CFA, 0x10D23); (0x10D30, 0x10D39);
    (0x10E60, 0x10E7E); (0x10E80, 0x10EA9); (0x10EB0, 0x10EB1); (0x10F00, 0x10F27); (0x10F30, 0x10F45);
    (0x10F51, 0x10F54); (0x10F70, 0x10F81); (0x10FB0, 0x10FCB); (0x10FE0, 0x10FF6); (0x11003, 0x11037);
    (0x11052, 0x1106F); (0x11071, 0x11072); (0x11075, 0x11075); (0x11083, 0x110AF); (0x110D0, 0x110E8);
    (0x110F0, 0x110F9); (0x11103, 0x11126); (0x11136, 0x1113F); (0x11144, 0x11144); (0x11147, 0x11147);
    (0x11150, 0x11172); (0x11176, 0x11176); (0x11183, 0x111B2); (0x111C1, 0x111C4); (0x111D0, 0x111DA);
    (0x111DC, 0x111DC); (0x111E1, 0x111F4); (0x11200, 0x11211); (0x11213, 0x1122B); (0x11280, 0x11286);
    (0x11288, 0x11288); (0x1128A, 0x1128D); (0x1128F, 0x1129D); (0x1129F, 0x112A8); (0x112B0, 0x112DE);
    (0x112F0, 0x112F9); (0x11305, 0x1130C); (0x1130F, 0x11310); (0x11313, 0x11328); (0x1132A, 0x11330);
    (0x11332, 0x11333); (0x11335, 0x11339); (0x1133D, 0x1133D); (0x11350, 0x11350); (0x1135D, 0x11361);
    (0x11400, 0x11434); (0x11447, 0x1144A); (0x11450, 0x11459); (0x1145F, 0x11461); (0x11480, 0x114AF);
    (0x114C4, 0x114C5); (0x114C7, 0x114C7); (0x114D0, 0x114D9); (0x11580, 0x115AE); (0x115D8, 0x115DB);
    (0x11600, 0x1162F); (0x11644, 0x11644); (0x11650, 0x11659); (0x11680, 0x116AA); (0x116B8, 0x116B8);
    (0x116C0, 0x116C9); (0x11700, 0x1171A); (0x11730, 0x1173B); (0x11740, 0x11746); (0x11800, 0x1182B);
    (0x118A0, 0x118F2); (0x118FF, 0x11906); (0x11909, 0x11909); (0x1190C, 0x11913); (0x11915, 0x11916);
    (0x11918, 0x1192F); (0x1193F, 0x1193F); (0x11941, 0x11941); (0x11950, 0x11959); (0x119A0, 0x119A7);
    (0x119AA, 0x119D0); (0x119E1, 0x119E1); (0x119E3, 0x119E3); (0x11A00, 0x11A00); (0x11A0B, 0x11A32);
    (0x11A3A, 0x11A3A); (0x11A50, 0x11A50); (0x11A5C, 0x11A89); (0x11A9D, 0x11A9D); (0x11AB0, 0x11AF8);
    (0x11C00, 0x11C08); (0x11C0A, 0x11C2E); (0x11C40, 0x11C40); (0x11C50, 0x11C6C); (0x11C72, 0x11C8F);
    (0x11D00, 0x11D06); (0x11D08, 0x11D09); (0x11D0B, 0x11D30); (0x11D46, 0x11D46); (0x11D50, 0x11D59);
    (0x11D60, 0x11D65); (0x11D67, 0x11D68); (0x11D6A, 0x11D89); (0x11D98, 0x11D98); (0x11DA0, 0x11DA9);
    (0x11EE0, 0x11EF2); (0x11FB0, 0x11FB0); (0x11FC0, 0x11FD4); (0x12000, 0x12399); (0x12400, 0x1246E);
    (0x12480, 0x12543); (0x12F90, 0x12FF0); (0x13000, 0x1342E); (0x14400, 0x14646); (0x16800, 0x16A38);
    (0x16A40, 0x16A5E); (0x16A60, 0x16A69); (0x16A70, 0x16ABE); (0x16AC0, 0x16AC9); (0x16AD0, 0x16AED);
    (0x16B00, 0x16B2F); (0x16B40, 0x16B43); (0x16B50, 0x16B59); (0x16B5B, 0x16B61); (0x16B63, 0x16B77);
    (0x16B7D, 0x16B8F); (0x16E40, 0x16E96); (0x16F00, 0x16F4A); (0x16F50, 0x16F50); (0x16F93, 0x16F9F);
    (0x16FE0, 0x16FE1); (0x16FE3, 0x16FE3); (0x17000, 0x187F7); (0x18800, 0x18CD5); (0x18D00, 0x18D08);
    (0x1AFF0, 0x1AFF3); (0x1AFF5, 0x1AFFB); (0x1AFFD, 0x1AFFE); (0x1B000, 0x1B122); (0x1B150, 0x1B152);
    (0x1B164, 0x1B167); (0x1B170, 0x1B2FB); (0x1BC00, 0x1BC6A); (0x1BC70, 0x1BC7C); (0x1BC80, 0x1BC88);
    (0x1BC90, 0x1BC99); (0x1D2E0, 0x1D2F3); (0x1D360, 0x1D378); (0x1D400, 0x1D454); (0x1D456, 0x1D49C);
    (0x1D49E, 0x1D49F); (0x1D4A2, 0x1D4A2); (0x1D4A5, 0x1D4A6); (0x1D4A9, 0x1D4AC); (0x1D4AE, 0x1D4B9);
    (0x1D4BB, 0x1D4BB); (0x1D4BD, 0x1D4C3); (0x1D4C5, 0x1D505); (0x1D507, 0x1D50A); (0x1D50D, 0x1D514);
    (0x1D516, 0x1D51C); (0x1D51E, 0x1D539); (0x1D53B, 0x1D53E); (0x1D540, 0x1D544); (0x1D546, 0x1D546);
    (0x1D54A, 0x1D550); (0x1D552, 0x1D6A5); (0x1D6A8, 0x1D6C0); (0x1D6C2, 0x1D6DA); (0x1D6DC, 0x1D6FA);
    (0x1D6FC, 0x1D714); (0x1D716, 0x1D734); (0x1D736, 0x1D74E); (0x1D750, 0x1D76E); (0x1D770, 0x1D788);
    (0x1D78A, 0x1D7A8); (0x1D7AA, 0x1D7C2); (0x1D7C4, 0x1D7CB); (0x1D7CE, 0x1D7FF); (0x1DF00, 0x1DF1E);
    (0x1E100, 0x1E12C); (0x1E137, 0x1E13D); (0x1E140, 0x1E149); (0x1E14E, 0x1E14E); (0x1E290, 0x1E2AD);
    (0x1E2C0, 0x1E2EB); (0x1E2F0, 0x1E2F9); (0x1E7E0, 0x1E7E6); (0x1E7E8, 0x1E7EB); (0x1E7ED, 0x1E7EE);
    (0x1E7F0, 0x1E7FE); (0x1E800, 0x1E8C4); (0x1E8C7, 0x1E8CF); (0x1E900, 0x1E943); (0x1E94B, 0x1E94B);
    (0x1E950, 0x1E959); (0x1EC71, 0x1ECAB); (0x1ECAD, 0x1ECAF); (0x1ECB1, 0x1ECB4); (0x1ED01, 0x1ED2D);
    (0x1ED2F, 0x1ED3D); (0x1EE00, 0x1EE03); (0x1EE05, 0x1EE1F); (0x1EE21, 0x1EE22); (0x1EE24, 0x1EE24);
    (0x1EE27, 0x1EE27); (0x1EE29, 0x1EE32); (0x1EE34, 0x1EE37); (0x1EE39, 0x1EE39); (0x1EE3B, 0x1EE3B);
    (0x1EE42, 0x1EE42); (0x1EE47, 0x1EE47); (0x1EE49, 0x1EE49); (0x1EE4B, 0x1EE4B); (0x1EE4D, 0x1EE4F);
    (0x1EE51, 0x1EE52); (0x1EE54, 0x1EE54); (0x1EE57, 0x1EE57); (0x1EE59, 0x1EE59); (0x1EE5B, 0x1EE5B);
    (0x1EE5D, 0x1EE5D); (0x1EE5F, 0x1EE5F); (0x1EE61, 0x1EE62); (0x1EE64, 0x1EE64); (0x1EE67, 0x1EE6A);
    (0x1EE6C, 0x1EE72); (0x1EE74, 0x1EE77); (0x1EE79, 0x1EE7C); (0x1EE7E, 0x1EE7E); (0x1EE80, 0x1EE89);
    (0x1EE8B, 0x1EE9B); (0x1EEA1, 0x1EEA3); (0x1EEA5, 0x1EEA9); (0x1EEAB, 0x1EEBB); (0x1F100, 0x1F10C);
    (0x1FBF0, 0x1FBF9); (0x20000, 0x2A6DF); (0x2A700, 0x2B738); (0x2B740, 0x2B81D); (0x2B820, 0x2CEA1);
    (0x2CEB0, 0x2EBE0); (0x2F800, 0x2FA1D); (0x30000, 0x3134A) ].

(** The code points with the property Cased. *)
Definition CASED : list (N * N) :=
  [ (0x0041, 0x005A); (0x0061, 0x007A); (0x00AA, 0x00AA); (0x00B5, 0x00B5); (0x00BA, 0x00BA);
    (0x00C0, 0x00D6); (0x00D8, 0x00F6); (0x00F8, 0x01BA); (0x01BC, 0x01BF); (0x01C4, 0x0293);
    (0x0295, 0x02B8); (0x02C0, 0x02C1); (0x02E0, 0x02E4); (0x0345, 0x0345); (0x0370, 0x0373);
    (0x0376, 0x0377); (0x037A, 0x037D); (0x037F, 0x037F); (0x0386, 0x0386); (0x0388, 0x038A);
    (0x038C, 0x038C); (0x038E, 0x03A1); (0x03A3, 0x03F5); (0x03F7, 0x0481); (0x048A, 0x052F);
    (0x0531, 0x0556); (0x0560, 0x0588); (0x10A0, 0x10C5); (0x10C7, 0x10C7); (0x10CD, 0x10CD);
    (0x10D0, 0x10FA); (0x10FD, 0x10FF); (0x13A0, 0x13F5); (0x13F8, 0x13FD); (0x1C80, 0x1C88);
    (0x1C90, 0x1CBA); (0x1CBD, 0x1CBF); (0x1D00, 0x1DBF); (0x1E00, 0x1F15); (0x1F18, 0x1F1D);
    (0x1F20, 0x1F45); (0x1F48, 0x1F4D); (0x1F50, 0x1F57); (0x1F59, 0x1F59); (0x1F5B, 0x1F5B);
    (0x1F5D, 0x1F5D); (0x1F5F, 0x1F7D); (0x1F80, 0x1FB4); (0x1FB6, 0x1FBC); (0x1FBE, 0x1FBE);
    (0x1FC2, 0x1FC4); (0x1FC6, 0x1FCC); (0x1FD0, 0x1FD3); (0x1FD6, 0x1FDB); (0x1FE0, 0x1FEC);
    (0x1FF2, 0x1FF4); (0x1FF6, 0x1FFC); (0x2071, 0x2071); (0x207F, 0x207F); (0x2090, 0x209C);
    (0x2102, 0x2102); (0x2107, 0x2107); (0x210A, 0x2113); (0x2115, 0x2115); (0x2119, 0x211D);
    (0x2124, 0x2124); (0x2126, 0x2126); (0x2128, 0x2128); (0x212A, 0x212D); (0x212F, 0x2134);
    (0x2139, 0x2139); (0x213C, 0x213F); (0x2145, 0x2149); (0x214E, 0x214E); (0x2160, 0x217F);
    (0x2183, 0x2184); (0x24B6, 0x24E9); (0x2C00, 0x2CE4); (0x2CEB, 0x2CEE); (0x2CF2, 0x2CF3);
    (0x2D00, 0x2D25); (0x2D27, 0x2D27); (0x2D2D, 0x2D2D); (0xA640, 0xA66D); (0xA680, 0xA69D);
    (0xA722, 0xA787); (0xA78B, 0xA78E); (0xA790, 0xA7CA); (0xA7D0, 0xA7D1); (0xA7D3, 0xA7D3);
    (0xA7D5, 0xA7D9); (0xA7F5, 0xA7F6); (0xA7F8, 0xA7FA); (0xAB30, 0xAB5A); (0xAB5C, 0xAB68);
    (0xAB70, 0xABBF); (0xFB00, 0xFB06); (0xFB13, 0xFB17); (0xFF21, 0xFF3A); (0xFF41, 0xFF5A);
    (0x10400, 0x1044F); (0x104B0, 0x104D3); (0x104D8, 0x104FB); (0x10570, 0x1057A); (0x1057C, 0x1058A);
    (0x1058C, 0x10592); (0x10594, 0x10595); (0x10597, 0x105A1); (0x105A3, 0x105B1); (0x105B3, 0x105B9);
    (0x105BB, 0x105BC); (0x10780, 0x10780); (0x10783, 0x10785); (0x10787, 0x107B0); (0x107B2, 0x107BA);
    (0x10C80, 0x10CB2); (0x10CC0, 0x10CF2); (0x118A0, 0x118DF); (0x16E40, 0x16E7F); (0x1D400, 0x1D454);
    (0x1D456, 0x1D49C); (0x1D49E, 0x1D49F); (0x1D4A2, 0x1D4A2); (0x1D4A5, 0x1D4A6); (0x1D4A9, 0x1D4AC);
    (0x1D4AE, 0x1D4B9); (0x1D4BB, 0x1D4BB); (0x1D4BD, 0x1D4C3); (0x1D4C5, 0x1D505); (0x1D507, 0x1D50A);
    (0x1D50D, 0x1D514); (0x1D516, 0x1D51C); (0x1D51E, 0x1D539); (0x1D53B, 0x1D53E); (0x1D540, 0x1D544);
    (0x1D546, 0x1D546); (0x1D54A, 0x1D550); (0x1D552, 0x1D6A5); (0x1D6A8, 0x1D6C0); (0x1D6C2, 0x1D6DA);
    (0x1D6DC, 0x1D6FA); (0x1D6FC, 0x1D714); (0x1D716, 0x1D734); (0x1D736, 0x1D74E); (0x1D750, 0x1D76E);
    (0x1D770, 0x1D788); (0x1D78A, 0x1D7A8); (0x1D7AA, 0x1D7C2); (0x1D7C4, 0x1D7CB); (0x1DF00, 0x1DF09);
    (0x1DF0B, 0x1DF1E); (0x1E900, 0x1E943); (0x1F130, 0x1F149); (0x1F150, 0x1F169); (0x1F170, 0x1F189) ].

(** The code points with the property Case_Ignorable. *)
Definition CASE_IGNORABLE : list (N * N) :=
  [ (0x0027, 0x0027); (0x002E, 0x002E); (0x003A, 0x003A); (0x005E, 0x005E); (0x0060, 0x0060);
    (0x00A8, 0x00A8); (0x00AD, 0x00AD); (0x00AF, 0x00AF); (0x00B4, 0x00B4); (0x00B7, 0x00B8);
    (0x02B0, 0x036F); (0x0374, 0x0375); (0x037A, 0x037A); (0x0384, 0x0385); (0x0387, 0x0387);
    (0x0483, 0x0489); (0x0559, 0x0559); (0x055F, 0x055F); (0x0591, 0x05BD); (0x05BF, 0x05BF);
    (0x05C1, 0x05C2); (0x05C4, 0x05C5); (0x05C7, 0x05C7); (0x05F4, 0x05F4); (0x0600, 0x0605);
    (0x0610, 0x061A); (0x061C, 0x061C); (0x0640, 0x0640); (0x064B, 0x065F); (0x0670, 0x0670);
    (0x06D6, 0x06DD); (0x06DF, 0x06E8); (0x06EA, 0x06ED); (0x070F, 0x070F); (0x0711, 0x0711);
    (0x0730, 0x074A); (0x07A6, 0x07B0); (0x07EB, 0x07F5); (0x07FA, 0x07FA); (0x07FD, 0x07FD);
    (0x0816, 0x082D); (0x0859, 0x085B); (0x0888, 0x0888); (0x0890, 0x0891); (0x0898, 0x089F);
    (0x08C9, 0x0902); (0x093A, 0x093A); (0x093C, 0x093C); (0x0941, 0x0948); (0x094D, 0x094D);
    (0x0951, 0x0957); (0x0962, 0x0963); (0x0971, 0x0971); (0x0981, 0x0981); (0x09BC, 0x09BC);
    (0x09C1, 0x09C4); (0x09CD, 0x09CD); (0x09E2, 0x09E3); (0x09FE, 0x09FE); (0x0A01, 0x0A02);
    (0x0A3C, 0x0A3C); (0x0A41, 0x0A42); (0x0A47, 0x0A48); (0x0A4B, 0x0A4D); (0x0A51, 0x0A51);
    (0x0A70, 0x0A71); (0x0A75, 0x0A75); (0x0A81, 0x0A82); (0x0ABC, 0x0ABC); (0x0AC1, 0x0AC5);
    (0x0AC7, 0x0AC8); (0x0ACD, 0x0ACD); (0x0AE2, 0x0AE3); (0x0AFA, 0x0AFF); (0x0B01, 0x0B01);
    (0x0B3C, 0x0B3C); (0x0B3F, 0x0B3F); (0x0B41, 0x0B44); (0x0B4D, 0x0B4D); (0x0B55, 0x0B56);
    (0x0B62, 0x0B63); (0x0B82, 0x0B82); (0x0BC0, 0x0BC0); (0x0BCD, 0x0BCD); (0x0C00, 0x0C00);
    (0x0C04, 0x0C04); (0x0C3C, 0x0C3C); (0x0C3E, 0x0C40); (0x0C46, 0x0C48); (0x0C4A, 0x0C4D);
    (0x0C55, 0x0C56); (0x0C62, 0x0C63); (0x0C81, 0x0C81); (0x0CBC, 0x0CBC); (0x0CBF, 0x0CBF);
    (0x0CC6, 0x0CC6); (0x0CCC, 0x0CCD); (0x0CE2, 0x0CE3); (0x0D00, 0x0D01); (0x0D3B, 0x0D3C);
    (0x0D41, 0x0D44); (0x0D4D, 0x0D4D); (0x0D62, 0x0D63); (0x0D81, 0x0D81); (0x0DCA, 0x0DCA);
    (0x0DD2, 0x0DD4); (0x0DD6, 0x0DD6); (0x0E31, 0x0E31); (0x0E34, 0x0E3A); (0x0E46, 0x0E4E);
    (0x0EB1, 0x0EB1); (0x0EB4, 0x0EBC); (0x0EC6, 0x0EC6); (0x0EC8, 0x0ECD); (0x0F18, 0x0F19);
    (0x0F35, 0x0F35); (0x0F37, 0x0F37); (0x0F39, 0x0F39); (0x0F71, 0x0F7E); (0x0F80, 0x0F84);
    (0x0F86, 0x0F87); (0x0F8D, 0x0F97); (0x0F99, 0x0FBC); (0x0FC6, 0x0FC6); (0x102D, 0x1030);
    (0x1032, 0x1037); (0x1039, 0x103A); (0x103D, 0x103E); (0x1058, 0x1059); (0x105E, 0x1060);
    (0x1071, 0x1074); (0x1082, 0x1082); (0x1085, 0x1086); (0x108D, 0x108D); (0x109D, 0x109D);
    (0x10FC, 0x10FC); (0x135D, 0x135F); (0x1712, 0x1714); (0x1732, 0x1733); (0x1752, 0x1753);
    (0x1772, 0x1773); (0x17B4, 0x17B5); (0x17B7, 0x17BD); (0x17C6, 0x17C6); (0x17C9, 0x17D3);
    (0x17D7, 0x17D7); (0x17DD, 0x17DD); (0x180B, 0x180F); (0x1843, 0x1843); (0x1885, 0x1886);
    (0x18A9, 0x18A9); (0x1920, 0x1922); (0x1927, 0x1928); (0x1932, 0x1932); (0x1939, 0x193B);
    (0x1A17, 0x1A18); (0x1A1B, 0x1A1B); (0x1A56, 0x1A56); (0x1A58, 0x1A5E); (0x1A60, 0x1A60);
    (0x1A62, 0x1A62); (0x1A65, 0x1A6C); (0x1A73, 0x1A7C); (0x1A7F, 0x1A7F); (0x1AA7, 0x1AA7);
    (0x1AB0, 0x1ACE); (0x1B00, 0x1B03); (0x1B34, 0x1B34); (0x1B36, 0x1B3A); (0x1B3C, 0x1B3C);
    (0x1B42, 0x1B42); (0x1B6B, 0x1B73); (0x1B80, 0x1B81); (0x1BA2, 0x1BA5); (0x1BA8, 0x1BA9);
    (0x1BAB, 0x1BAD); (0x1BE6, 0x1BE6); (0x1BE8, 0x1BE9); (0x1BED, 0x1BED); (0x1BEF, 0x1BF1);
    (0x1C2C, 0x1C33); (0x1C36, 0x1C37); (0x1C78, 0x1C7D); (0x1CD0, 0x1CD2); (0x1CD4, 0x1CE0);
    (0x1CE2, 0x1CE8); (0x1CED, 0x1CED); (0x1CF4, 0x1CF4); (0x1CF8, 0x1CF9); (0x1D2C, 0x1D6A);
    (0x1D78, 0x1D78); (0x1D9B, 0x1DFF); (0x1FBD, 0x1FBD); (0x1FBF, 0x1FC1); (0x1FCD, 0x1FCF);
    (0x1FDD, 0x1FDF); (0x1FED, 0x1FEF); (0x1FFD, 0x1FFE); (0x200B, 0x200F); (0x2018, 0x2019);
    (0x2024, 0x2024); (0x2027, 0x2027); (0x202A, 0x202E); (0x2060, 0x2064); (0x2066, 0x206F);
    (0x2071, 0x2071); (0x207F, 0x207F); (0x2090, 0x209C); (0x20D0, 0x20F0); (0x2C7C, 0x2C7D);
    (0x2CEF, 0x2CF1); (0x2D6F, 0x2D6F); (0x2D7F, 0x2D7F); (0x2DE0, 0x2DFF); (0x2E2F, 0x2E2F);
    (0x3005, 0x3005); (0x302A, 0x302D); (0x3031, 0x3035); (0x303B, 0x303B); (0x3099, 0x309E);
    (0x30FC, 0x30FE); (0xA015, 0xA015); (0xA4F8, 0xA4FD); (0xA60C, 0xA60C); (0xA66F, 0xA672);
    (0xA674, 0xA67D); (0xA67F, 0xA67F); (0xA69C, 0xA69F); (0xA6F0, 0xA6F1); (0xA700, 0xA721);
    (0xA770, 0xA770); (0xA788, 0xA78A); (0xA7F2, 0xA7F4); (0xA7F8, 0xA7F9); (0xA802, 0xA802);
    (0xA806, 0xA806); (0xA80B, 0xA80B); (0xA825, 0xA826); (0xA82C, 0xA82C); (0xA8C4, 0xA8C5);
    (0xA8E0, 0xA8F1); (0xA8FF, 0xA8FF); (0xA926, 0xA92D); (0xA947, 0xA951); (0xA980, 0xA982);
    (0xA9B3, 0xA9B3); (0xA9B6, 0xA9B9); (0xA9BC, 0xA9BD); (0xA9CF, 0xA9CF); (0xA9E5, 0xA9E6);
    (0xAA29, 0xAA2E); (0xAA31, 0xAA32); (0xAA35, 0xAA36); (0xAA43, 0xAA43); (0xAA4C, 0xAA4C);
    (0xAA70, 0xAA70); (0xAA7C, 0xAA7C); (0xAAB0, 0xAAB0); (0xAAB2, 0xAAB4); (0xAAB7, 0xAAB8);
    (0xAABE, 0xAABF); (0xAAC1, 0xAAC1); (0xAADD, 0xAADD); (0xAAEC, 0xAAED); (0xAAF3, 0xAAF4);
    (0xAAF6, 0xAAF6); (0xAB5B, 0xAB5F); (0xAB69, 0xAB6B); (0xABE5, 0xABE5); (0xABE8, 0xABE8);
    (0xABED, 0xABED); (0xFB1E, 0xFB1E); (0xFBB2, 0xFBC2); (0xFE00, 0xFE0F); (0xFE13, 0xFE13);
    (0xFE20, 0xFE2F); (0xFE52, 0xFE52); (0xFE55, 0xFE55); (0xFEFF, 0xFEFF); (0xFF07, 0xFF07);
    (0xFF0E, 0xFF0E); (0xFF1A, 0xFF1A); (0xFF3E, 0xFF3E); (0xFF40, 0xFF40); (0xFF70, 0xFF70);
    (0xFF9E, 0xFF9F); (0xFFE3, 0xFFE3); (0xFFF9, 0xFFFB); (0x101FD, 0x101FD); (0x102E0, 0x102E0);
    (0x10376, 0x1037A); (0x10780, 0x10785); (0x10787, 0x107B0); (0x107B2, 0x107BA); (0x10A01, 0x10A03);
    (0x10A05, 0x10A06); (0x10A0C, 0x10A0F); (0x10A38, 0x10A3A); (0x10A3F, 0x10A3F); (0x10AE5, 0x10AE6);
    (0x10D24, 0x10D27); (0x10EAB, 0x10EAC); (0x10F46, 0x10F50); (0x10F82, 0x10F85); (0x11001, 0x11001);
    (0x11038, 0x11046); (0x11070, 0x11070); (0x11073, 0x11074); (0x1107F, 0x11081); (0x110B3, 0x110B6);
    (0x110B9, 0x110BA); (0x110BD, 0x110BD); (0x110C2, 0x110C2); (0x110CD, 0x110CD); (0x11100, 0x11102);
    (0x11127, 0x1112B); (0x1112D, 0x11134); (0x11173, 0x11173); (0x11180, 0x11181); (0x111B6, 0x111BE);
    (0x111C9, 0x111CC); (0x111CF, 0x111CF); (0x1122F, 0x11231); (0x11234, 0x11234); (0x11236, 0x11237);
    (0x1123E, 0x1123E); (0x112DF, 0x112DF); (0x112E3, 0x112EA); (0x11300, 0x11301); (0x1133B, 0x1133C);
    (0x11340, 0x11340); (0x11366, 0x1136C); (0x11370, 0x11374); (0x11438, 0x1143F); (0x11442, 0x11444);
    (0x11446, 0x11446); (0x1145E, 0x1145E); (0x114B3, 0x114B8); (0x114BA, 0x114BA); (0x114BF, 0x114C0);
    (0x114C2, 0x114C3); (0x115B2, 0x115B5); (0x115BC, 0x115BD); (0x115BF, 0x115C0); (0x115DC, 0x115DD);
    (0x11633, 0x1163A); (0x1163D, 0x1163D); (0x1163F, 0x11640); (0x116AB, 0x116AB); (0x116AD, 0x116AD);
    (0x116B0, 0x116B5); (0x116B7, 0x116B7); (0x1171D, 0x1171F); (0x11722, 0x11725); (0x11727, 0x1172B);
    (0x1182F, 0x11837); (0x11839, 0x1183A); (0x1193B, 0x1193C); (0x1193E, 0x1193E); (0x11943, 0x11943);
    (0x119D4, 0x119D7); (0x119DA, 0x119DB); (0x119E0, 0x119E0); (0x11A01, 0x11A0A); (0x11A33, 0x11A38);
    (0x11A3B, 0x11A3E); (0x11A47, 0x11A47); (0x11A51, 0x11A56); (0x11A59, 0x11A5B); (0x11A8A, 0x11A96);
    (0x11A98, 0x11A99); (0x11C30, 0x11C36); (0x11C38, 0x11C3D); (0x11C3F, 0x11C3F); (0x11C92, 0x11CA7);
    (0x11CAA, 0x11CB0); (0x11CB2, 0x11CB3); (0x11CB5, 0x11CB6); (0x11D31, 0x11D36); (0x11D3A, 0x11D3A);
    (0x11D3C, 0x11D3D); (0x11D3F, 0x11D45); (0x11D47, 0x11D47); (0x11D90, 0x11D91); (0x11D95, 0x11D95);
    (0x11D97, 0x11D97); (0x11EF3, 0x11EF4); (0x13430, 0x13438); (0x16AF0, 0x16AF4); (0x16B30, 0x16B36);
    (0x16B40, 0x16B43); (0x16F4F, 0x16F4F); (0x16F8F, 0x16F9F); (0x16FE0, 0x16FE1); (0x16FE3, 0x16FE4);
    (0x1AFF0, 0x1AFF3); (0x1AFF5, 0x1AFFB); (0x1AFFD, 0x1AFFE); (0x1BC9D, 0x1BC9E); (0x1BCA0, 0x1BCA3);
    (0x1CF00, 0x1CF2D); (0x1CF30, 0x1CF46); (0x1D167, 0x1D169); (0x1D173, 0x1D182); (0x1D185, 0x1D18B);
    (0x1D1AA, 0x1D1AD); (0x1D242, 0x1D244); (0x1DA00, 0x1DA36); (0x1DA3B, 0x1DA6C); (0x1DA75, 0x1DA75);
    (0x1DA84, 0x1DA84); (0x1DA9B, 0x1DA9F); (0x1DAA1, 0x1DAAF); (0x1E000, 0x1E006); (0x1E008, 0x1E018);
    (0x1E01B, 0x1E021); (0x1E023, 0x1E024); (0x1E026, 0x1E02A); (0x1E130, 0x1E13D); (0x1E2AE, 0x1E2AE);
    (0x1E2EC, 0x1E2EF); (0x1E8D0, 0x1E8D6); (0x1E944, 0x1E94B); (0x1F3FB, 0x1F3FF); (0xE0001, 0xE0001);
    (0xE0020, 0xE007F); (0xE0100, 0xE01EF) ].

(** The lower-case mappings of one code point to one code point, as runs
    [(first, last, step, target)]: the code points [first],
    [first + step], ... up to [last] map to [target], [target + step],
    ... *)
Definition LOWER_RUNS : list (N * N * N * N) :=
  [ (0x0041, 0x005A, 1, 0x0061); (0x00C0, 0x00D6, 1, 0x00E0); (0x00D8, 0x00DE, 1, 0x00F8);
    (0x0100, 0x012E, 2, 0x0101); (0x0132, 0x0136, 2, 0x0133); (0x0139, 0x0147, 2, 0x013A);
    (0x014A, 0x0176, 2, 0x014B); (0x0178, 0x0178, 1, 0x00FF); (0x0179, 0x017D, 2, 0x017A);
    (0x0181, 0x0181, 1, 0x0253); (0x0182, 0x0184, 2, 0x0183); (0x0186, 0x0186, 1, 0x0254);
    (0x0187, 0x0187, 1, 0x0188); (0x0189, 0x018A, 1, 0x0256); (0x018B, 0x018B, 1, 0x018C);
    (0x018E, 0x018E, 1, 0x01DD); (0x018F, 0x018F, 1, 0x0259); (0x0190, 0x0190, 1, 0x025B);
    (0x0191, 0x0191, 1, 0x0192); (0x0193, 0x0193, 1, 0x0260); (0x0194, 0x0194, 1, 0x0263);
    (0x0196, 0x0196, 1, 0x0269); (0x0197, 0x0197, 1, 0x0268); (0x0198, 0x0198, 1, 0x0199);
    (0x019C, 0x019C, 1, 0x026F); (0x019D, 0x019D, 1, 0x0272); (0x019F, 0x019F, 1, 0x0275);
    (0x01A0, 0x01A4, 2, 0x01A1); (0x01A6, 0x01A6, 1, 0x0280); (0x01A7, 0x01A7, 1, 0x01A8);
    (0x01A9, 0x01A9, 1, 0x0283); (0x01AC, 0x01AC, 1, 0x01AD); (0x01AE, 0x01AE, 1, 0x0288);
    (0x01AF, 0x01AF, 1, 0x01B0); (0x01B1, 0x01B2, 1, 0x028A); (0x01B3, 0x01B5, 2, 0x01B4);
    (0x01B7, 0x01B7, 1, 0x0292); (0x01B8, 0x01B8, 1, 0x01B9); (0x01BC, 0x01BC, 1, 0x01BD);
    (0x01C4, 0x01C4, 1, 0x01C6); (0x01C5, 0x01C5, 1, 0x01C6); (0x01C7, 0x01C7, 1, 0x01C9);
    (0x01C8, 0x01C8, 1, 0x01C9); (0x01CA, 0x01CA, 1, 0x01CC); (0x01CB, 0x01DB, 2, 0x01CC);
    (0x01DE, 0x01EE, 2, 0x01DF); (0x01F1, 0x01F1, 1, 0x01F3); (0x01F2, 0x01F4, 2, 0x01F3);
    (0x01F6, 0x01F6, 1, 0x0195); (0x01F7, 0x01F7, 1, 0x01BF); (0x01F8, 0x021E, 2, 0x01F9);
    (0x0220, 0x0220, 1, 0x019E); (0x0222, 0x0232, 2, 0x0223); (0x023A, 0x023A, 1, 0x2C65);
    (0x023B, 0x023B, 1, 0x023C); (0x023D, 0x023D, 1, 0x019A); (0x023E, 0x023E, 1, 0x2C66);
    (0x0241, 0x0241, 1, 0x0242); (0x0243, 0x0243, 1, 0x0180); (0x0244, 0x0244, 1, 0x0289);
    (0x0245, 0x0245, 1, 0x028C); (0x0246, 0x024E, 2, 0x0247); (0x0370, 0x0372, 2, 0x0371);
    (0x0376, 0x0376, 1, 0x0377); (0x037F, 0x037F, 1, 0x03F3); (0x0386, 0x0386, 1, 0x03AC);
    (0x0388, 0x038A, 1, 0x03AD); (0x038C, 0x038C, 1, 0x03CC); (0x038E, 0x038F, 1, 0x03CD);
    (0x0391, 0x03A1, 1, 0x03B1); (0x03A3, 0x03AB, 1, 0x03C3); (0x03CF, 0x03CF, 1, 0x03D7);
    (0x03D8, 0x03EE, 2, 0x03D9); (0x03F4, 0x03F4, 1, 0x03B8); (0x03F7, 0x03F7, 1, 0x03F8);
    (0x03F9, 0x03F9, 1, 0x03F2); (0x03FA, 0x03FA, 1, 0x03FB); (0x03FD, 0x03FF, 1, 0x037B);
    (0x0400, 0x040F, 1, 0x0450); (0x0410, 0x042F, 1, 0x0430); (0x0460, 0x0480, 2, 0x0461);
    (0x048A, 0x04BE, 2, 0x048B); (0x04C0, 0x04C0, 1, 0x04CF); (0x04C1, 0x04CD, 2, 0x04C2);
    (0x04D0, 0x052E, 2, 0x04D1); (0x0531, 0x0556, 1, 0x0561); (0x10A0, 0x10C5, 1, 0x2D00);
    (0x10C7, 0x10C7, 1, 0x2D27); (0x10CD, 0x10CD, 1, 0x2D2D); (0x13A0, 0x13EF, 1, 0xAB70);
    (0x13F0, 0x13F5, 1, 0x13F8); (0x1C90, 0x1CBA, 1, 0x10D0); (0x1CBD, 0x1CBF, 1, 0x10FD);
    (0x1E00, 0x1E94, 2, 0x1E01); (0x1E9E, 0x1E9E, 1, 0x00DF); (0x1EA0, 0x1EFE, 2, 0x1EA1);
    (0x1F08, 0x1F0F, 1, 0x1F00); (0x1F18, 0x1F1D, 1, 0x1F10); (0x1F28, 0x1F2F, 1, 0x1F20);
    (0x1F38, 0x1F3F, 1, 0x1F30); (0x1F48, 0x1F4D, 1, 0x1F40); (0x1F59, 0x1F5F, 2, 0x1F51);
    (0x1F68, 0x1F6F, 1, 0x1F60); (0x1F88, 0x1F8F, 1, 0x1F80); (0x1F98, 0x1F9F, 1, 0x1F90);
    (0x1FA8, 0x1FAF, 1, 0x1FA0); (0x1FB8, 0x1FB9, 1, 0x1FB0); (0x1FBA, 0x1FBB, 1, 0x1F70);
    (0x1FBC, 0x1FBC, 1, 0x1FB3); (0x1FC8, 0x1FCB, 1, 0x1F72); (0x1FCC, 0x1FCC, 1, 0x1FC3);
    (0x1FD8, 0x1FD9, 1, 0x1FD0); (0x1FDA, 0x1FDB, 1, 0x1F76); (0x1FE8, 0x1FE9, 1, 0x1FE0);
    (0x1FEA, 0x1FEB, 1, 0x1F7A); (0x1FEC, 0x1FEC, 1, 0x1FE5); (0x1FF8, 0x1FF9, 1, 0x1F78);
    (0x1FFA, 0x1FFB, 1, 0x1F7C); (0x1FFC, 0x1FFC, 1, 0x1FF3); (0x2126, 0x2126, 1, 0x03C9);
    (0x212A, 0x212A, 1, 0x006B); (0x212B, 0x212B, 1, 0x00E5); (0x2132, 0x2132, 1, 0x214E);
    (0x2160, 0x216F, 1, 0x2170); (0x2183, 0x2183, 1, 0x2184); (0x24B6, 0x24CF, 1, 0x24D0);
    (0x2C00, 0x2C2F, 1, 0x2C30); (0x2C60, 0x2C60, 1, 0x2C61); (0x2C62, 0x2C62, 1, 0x026B);
    (0x2C63, 0x2C63, 1, 0x1D7D); (0x2C64, 0x2C64, 1, 0x027D); (0x2C67, 0x2C6B, 2, 0x2C68);
    (0x2C6D, 0x2C6D, 1, 0x0251); (0x2C6E, 0x2C6E, 1, 0x0271); (0x2C6F, 0x2C6F, 1, 0x0250);
    (0x2C70, 0x2C70, 1, 0x0252); (0x2C72, 0x2C72, 1, 0x2C73); (0x2C75, 0x2C75, 1, 0x2C76);
    (0x2C7E, 0x2C7F, 1, 0x023F); (0x2C80, 0x2CE2, 2, 0x2C81); (0x2CEB, 0x2CED, 2, 0x2CEC);
    (0x2CF2, 0x2CF2, 1, 0x2CF3); (0xA640, 0xA66C, 2, 0xA641); (0xA680, 0xA69A, 2, 0xA681);
    (0xA722, 0xA72E, 2, 0xA723); (0xA732, 0xA76E, 2, 0xA733); (0xA779, 0xA77B, 2, 0xA77A);
    (0xA77D, 0xA77D, 1, 0x1D79); (0xA77E, 0xA786, 2, 0xA77F); (0xA78B, 0xA78B, 1, 0xA78C);
    (0xA78D, 0xA78D, 1, 0x0265); (0xA790, 0xA792, 2, 0xA791); (0xA796, 0xA7A8, 2, 0xA797);
    (0xA7AA, 0xA7AA, 1, 0x0266); (0xA7AB, 0xA7AB, 1, 0x025C); (0xA7AC, 0xA7AC, 1, 0x0261);
    (0xA7AD, 0xA7AD, 1, 0x026C); (0xA7AE, 0xA7AE, 1, 0x026A); (0xA7B0, 0xA7B0, 1, 0x029E);
    (0xA7B1, 0xA7B1, 1, 0x0287); (0xA7B2, 0xA7B2, 1, 0x029D); (0xA7B3, 0xA7B3, 1, 0xAB53);
    (0xA7B4, 0xA7C2, 2, 0xA7B5); (0xA7C4, 0xA7C4, 1, 0xA794); (0xA7C5, 0xA7C5, 1, 0x0282);
    (0xA7C6, 0xA7C6, 1, 0x1D8E); (0xA7C7, 0xA7C9, 2, 0xA7C8); (0xA7D0, 0xA7D0, 1, 0xA7D1);
    (0xA7D6, 0xA7D8, 2, 0xA7D7); (0xA7F5, 0xA7F5, 1, 0xA7F6); (0xFF21, 0xFF3A, 1, 0xFF41);
    (0x10400, 0x10427, 1, 0x10428); (0x104B0, 0x104D3, 1, 0x104D8); (0x10570, 0x1057A, 1, 0x10597);
    (0x1057C, 0x1058A, 1, 0x105A3); (0x1058C, 0x10592, 1, 0x105B3); (0x10594, 0x10595, 1, 0x105BB);
    (0x10C80, 0x10CB2, 1, 0x10CC0); (0x118A0, 0x118BF, 1, 0x118C0); (0x16E40, 0x16E5F, 1, 0x16E60);
    (0x1E900, 0x1E921, 1, 0x1E922) ].

(** The pairs [(c, lower-case of c)] of the runs, in increasing order of
    [c]. *)
Fixpoint expand_run (n : nat) (c step target : N) : list (N * N) :=
  match n with
  | O => []
  | Datatypes.S n' => (c, target) :: expand_run n' (c + step) step (target + step)
  end.

Definition run_pairs (r : N * N * N * N) : list (N * N) :=
  let '(first, last, step, target) := r in
  expand_run (N.to_nat ((last - first) / step + 1)) first step target.

Definition LOWER_PAIRS : list (N * N) :=
  Eval vm_compute in flat_map run_pairs LOWER_RUNS.

(** Look [c] up in a table of pairs sorted by their first component. *)
Fixpoint assoc (c : N) (l : list (N * N)) : option N :=
  match l with
  | [] => None
  | (k, v) :: l' =>
      if c <? k then None else if c =? k then Some v else assoc c l'
  end.

(** The lower-case mapping of one code point to one code point; a code
    point without mapping is its own lower case. *)
Definition to_lower (c : N) : N :=
  match assoc c LOWER_PAIRS with Some d => d | None => c end.

(** The full lower-case mapping: U+0130 is the one code point whose lower
    case has two code points. *)
Definition to_lower_full (c : N) : str :=
  if c =? 0x130 then [0x69; 0x307] else [to_lower c].

Definition cased (c : N) : bool := in_ranges c CASED.

Definition case_ignorable (c : N) : bool := in_ranges c CASE_IGNORABLE.

(** What follows a capital sigma, for the final form: after the
    case-ignorable code points, the end of the text or a code point that
    is not cased. *)
Fixpoint sigma_end (s : str) : bool :=
  match s with
  | [] => true
  | c :: s' => if case_ignorable c then sigma_end s' else negb (cased c)
  end.

(** The lower case of the code point [c] of a text.  [after_cased] tells
    that the last code point before [c] that is not case-ignorable exists
    and is cased, [at_end] is [sigma_end] of what follows [c]: between
    the two, the capital sigma U+03A3 becomes the final sigma U+03C2; it
    becomes U+03C3 elsewhere. *)
Definition lower_one (after_cased at_end : bool) (c : N) : str :=
  if c =? 0x3A3 then [if after_cased && at_end then 0x3C2 else 0x3C3]
  else to_lower_full c.

(** [s.lower()], from a position on. *)
Fixpoint lower_from (after_cased : bool) (s : str) : str :=
  match s with
  | [] => []
  | c :: s' =>
      lower_one after_cased (sigma_end s') c
      ++ lower_from (if case_ignorable c then after_cased else cased c) s'
  end.

(** [s.lower()] *)
Definition lower (s : str) : str := lower_from false s.

(** The class [\w] of [re] on [str] patterns: alphanumeric or underscore. *)
Definition isword (c : N) : bool := in_ranges c ALNUM || (c =? 0x5F).

(** A code point that [lower] leaves as it is, wherever it stands. *)
Definition is_lowered (c : N) : bool :=
  negb (c =? 0x3A3) && negb (c =? 0x130) && (to_lower c =? c).

(** [s.lstrip()], [s.rstrip()], [s.strip()] *)
Fixpoint lstrip (s : str) : str :=
  match s with
  | [] => []
  | c :: s' => if isspace c then lstrip s' else s
  end.

Definition rstrip (s : str) : str := rev (lstrip (rev s)).

Definition strip (s : str) : str := rstrip (lstrip s).

(** [re.sub(r"\s+", " ", s)]: the scan replaces each maximal run of
    whitespace by one space; [in_run] tells that the previous code point
    belonged to the run being replaced. *)
Fixpoint sub_ws_from (in_run : bool) (s : str) : str :=
  match s with
  | [] => []
  | c :: s' =>
      if isspace c
      then (if in_run then sub_ws_from true s' else 0x20 :: sub_ws_from true s')
      else c :: sub_ws_from false s'
  end.

Definition sub_ws (s : str) : str := sub_ws_from false s.

(** [x or y] on strings: the empty string is falsy. *)
Definition str_or (x y : str) : str :=
  match x with [] => y | _ => x end.

(** [x or ""] where [x] may be [None]. *)
Definition or_empty (x : option str) : str :=
  match x with Some s => s | None => [] end.

(** [norm_text], lines 64-67. *)
Definition norm_text (s : option str) : str :=
  let s1 := lower (strip (or_empty s)) in
  sub_ws s1.

(** ** The word view of a text, used to state what [norm_text] computes *)

(** [cons_nonempty w ws]: put the word [w] in front unless it is empty. *)
Definition cons_nonempty (w : str) (ws : list str) : list str :=
  match w with [] => ws | _ => w :: ws end.

(** The code points before the first whitespace, and the words after it. *)
Fixpoint word_rest (s : str) : str * list str :=
  match s with
  | [] => ([], [])
  | c :: s' =>
      let '(w, ws) := word_rest s' in
      if isspace c then ([], cons_nonempty w ws) else (c :: w, ws)
  end.

(** The maximal whitespace-free pieces of a text, in order ([s.split()]). *)
Definition words (s : str) : list str :=
  let '(w, ws) := word_rest s in cons_nonempty w ws.

Definition starts_ws (s : str) : bool :=
  match s with c :: _ => isspace c | [] => false end.

Fixpoint ends_ws (s : str) : bool :=
  match s with
  | [] => false
  | [c] => isspace c
  | _ :: s' => ends_ws s'
  end.

(** A word: not empty, no whitespace inside. *)
Definition is_word (w : str) : Prop :=
  w <> [] /\ forallb (fun c => negb (isspace c)) w = true.

(** [" ".join(ws)] *)
Fixpoint unwords (ws : list str) : str :=
  match ws with
  | [] => []
  | [w] => w
  | w :: ws' => w ++ 0x20 :: unwords ws'
  end.

(** [s.encode("utf-8")]: a lone surrogate raises [UnicodeEncodeError]
    ([None] here); code points above U+10FFFF do not exist in a [str]. *)
Definition utf8_char (c : N) : option (list N) :=
  if c <? 0x80 then Some [c]
  else if c <? 0x800 then Some [0xC0 + c / 64; 0x80 + c mod 64]
  else if (0xD800 <=? c) && (c <=? 0xDFFF) then None
  else if c <? 0x10000 then
    Some [0xE0 + c / 4096; 0x80 + (c / 64) mod 64; 0x80 + c mod 64]
  else if c <? 0x110000 then
    Some [0xF0 + c / 262144; 0x80 + (c / 4096) mod 64;
          0x80 + (c / 64) mod 64; 0x80 + c mod 64]
  else None.

Fixpoint utf8_encode (s : str) : option (list N) :=
  match s with
  | [] => Some []
  | c :: s' =>
      match utf8_char c, utf8_encode s' with
      | Some bs, Some r => Some (bs ++ r)
      | _, _ => None
      end
  end.

End Text.

(* ===================================================================== *)
(** * Regular expressions of the keyword lists *)
(* ===================================================================== *)

Module Re.
Import Text.

(** The patterns of the source use three constructs only: a literal code
    point, a bracketed set of code points, and the assertion [\b]. *)
Inductive atom :=
| Chr (c : N)
| Cls (cs : list N)
| WordB.

Abbreviation regex := (list atom).

(** [re.compile] for this fragment.  [cls] is [Some acc] while the scan is
    inside brackets, [acc] holding the members read so far (reversed). *)
Fixpoint compile_from (cls : option (list N)) (s : str) : regex :=
  match s with
  | [] => []
  | c :: s' =>
      match cls with
      | Some acc =>
          if c =? 0x5D then Cls (rev acc) :: compile_from None s'
          else compile_from (Some (c :: acc)) s'
      | None =>
          if c =? 0x5B then compile_from (Some []) s'
          else if c =? 0x5C then
            match s' with
            | c1 :: s'' =>
                if c1 =? 0x62 then WordB :: compile_from None s''
                else Chr c1 :: compile_from None s''
            | [] => []
            end
          else Chr c :: compile_from None s'
      end
  end.

Definition compile (pattern : string) : regex := compile_from None (U pattern).

Definition isword_opt (c : option N) : bool :=
  match c with Some x => isword x | None => false end.

(** [\b]: exactly one of the two neighbours is a word character; the start
    and the end of the text count as non-word. *)
Definition at_boundary (prev next : option N) : bool :=
  xorb (isword_opt prev) (isword_opt next).

(** Does the pattern match at the current position?  [prev] is the code
    point before the position, [s] the text from the position on. *)
Fixpoint match_here (p : regex) (prev : option N) (s : str) : bool :=
  match p with
  | [] => true
  | WordB :: p' => at_boundary prev (head s) && match_here p' prev s
  | Chr c :: p' =>
      match s with
      | x :: s' => (x =? c) && match_here p' (Some x) s'
      | [] => false
      end
  | Cls cs :: p' =>
      match s with
      | x :: s' => existsb (N.eqb x) cs && match_here p' (Some x) s'
      | [] => false
      end
  end.

(** [re.search]: try every position, left to right, the end included. *)
Fixpoint search_from (p : regex) (prev : option N) (s : str) : bool :=
  match_here p prev s
  || match s with
     | x :: s' => search_from p (Some x) s'
     | [] => false
     end.

(** Truth value of [re.search(p, t)]. *)
Definition search (p : regex) (t : str) : bool := search_from p None t.

(** ** Declarative meaning of a match *)

(** [matches p prev mid post]: [p] matches exactly the code points [mid],
    with [prev] just before them and the text [post] just after. *)
Inductive matches : regex -> option N -> str -> str -> Prop :=
| matches_nil prev post :
    matches [] prev [] post
| matches_chr c p prev mid post :
    matches p (Some c) mid post ->
    matches (Chr c :: p) prev (c :: mid) post
| matches_cls cs x p prev mid post :
    In x cs ->
    matches p (Some x) mid post ->
    matches (Cls cs :: p) prev (x :: mid) post
| matches_wordb p prev mid post :
    at_boundary prev (head (mid ++ post)) = true ->
    matches p prev mid post ->
    matches (WordB :: p) prev mid post.

(** The pattern matches somewhere in the text. *)
Definition occurs (p : regex) (t : str) : Prop :=
  exists pre mid post, t = pre ++ mid ++ post /\ matches p (last pre) mid post.

(** The code point just before a position reached after reading [pre],
    when [prev] was the one before [pre]. *)
Definition left_of (prev : option N) (pre : str) : option N :=
  match last pre with Some c => Some c | None => prev end.

(** The strings that the atoms of a pattern spell, the assertions left
    aside: one string per choice in each bracketed set. *)
Fixpoint spellings (p : regex) : list str :=
  match p with
  | [] => [[]]
  | Chr c :: p' => map (cons c) (spellings p')
  | Cls cs :: p' => flat_map (fun x => map (cons x) (spellings p')) cs
  | WordB :: p' => spellings p'
  end.

End Re.

(* ===================================================================== *)
(** * Keyword classes and the signal detector *)
(* ===================================================================== *)

Import Text.

Definition KEYWORDS_POS : list Re.regex := Eval vm_compute in map Re.compile [
    "\bcesi[oó]n\b";
    "\bcesi[oó]n de empresa\b";
    "\btraspaso\b";
    "\btransmisi[oó]n\b";
    "\bjubilaci[oó]n\b";
    "\brelevo generacional\b";
    "\bunidad productiva\b"
  ]%string.

Definition KEYWORDS_GOV : list Re.regex := Eval vm_compute in map Re.compile [
    "\bconvocatoria de junta\b";
    "\bjunta general\b";
    "\bcambio accionario\b"
  ]%string.

Definition KEYWORDS_NEG : list Re.regex := Eval vm_compute in map Re.compile [
    "\bdisoluci[oó]n\b";
    "\bliquidaci[oó]n\b";
    "\bconcurso\b";
    "\binsolvenc"
  ]%string.

(** The dictionary [{"pos": .., "gov": .., "neg": ..}]. *)
Record sigs := mkSigs { pos : bool; gov : bool; neg : bool }.

(** [detect_signals], lines 73-78. *)
Definition detect_signals (text : option str) : sigs :=
  let t := norm_text text in
  {| pos := existsb (fun p => Re.search p t) KEYWORDS_POS;
     gov := existsb (fun p => Re.search p t) KEYWORDS_GOV;
     neg := existsb (fun p => Re.search p t) KEYWORDS_NEG |}.

(** ** What a flag says of a text *)

(** The text [t] contains [k] as whole words: no word character stands
    just before [k], and none just after it. *)
Definition whole_word (k t : str) : Prop :=
  exists pre post,
    t = pre ++ k ++ post
    /\ Re.isword_opt (last pre) = false
    /\ Re.isword_opt (head post) = false.

(** The text [t] contains [k] at the start of a word. *)
Definition word_start (k t : str) : Prop :=
  exists pre post, t = pre ++ k ++ post /\ Re.isword_opt (last pre) = false.

(* ===================================================================== *)
(** * MD5 ([hashlib.md5], RFC 1321) *)
(* ===================================================================== *)

Module MD5.

Definition w32 (x : N) : N := x mod 2 ^ 32.

Definition not32 (x : N) : N := N.lxor x 0xFFFFFFFF.

Definition rotl (x n : N) : N :=
  w32 (N.lor (N.shiftl x n) (N.shiftr x (32 - n))).

(** Per-round shift amounts. *)
Definition S : list N :=
  [7; 12; 17; 22; 7; 12; 17; 22; 7; 12; 17; 22; 7; 12; 17; 22;
   5; 9; 14; 20; 5; 9; 14; 20; 5; 9; 14; 20; 5; 9; 14; 20;
   4; 11; 16; 23; 4; 11; 16; 23; 4; 11; 16; 23; 4; 11; 16; 23;
   6; 10; 15; 21; 6; 10; 15; 21; 6; 10; 15; 21; 6; 10; 15; 21].

(** [K[i] = floor(2^32 * abs(sin(i + 1)))]. *)
Definition K : list N :=
  [0xd76aa478; 0xe8c7b756; 0x242070db; 0xc1bdceee;
   0xf57c0faf; 0x4787c62a; 0xa8304613; 0xfd469501;
   0x698098d8; 0x8b44f7af; 0xffff5bb1; 0x895cd7be;
   0x6b901122; 0xfd987193; 0xa679438e; 0x49b40821;
   0xf61e2562; 0xc040b340; 0x265e5a51; 0xe9b6c7aa;
   0xd62f105d; 0x02441453; 0xd8a1e681; 0xe7d3fbc8;
   0x21e1cde6; 0xc33707d6; 0xf4d50d87; 0x455a14ed;
   0xa9e3e905; 0xfcefa3f8; 0x676f02d9; 0x8d2a4c8a;
   0xfffa3942; 0x8771f681; 0x6d9d6122; 0xfde5380c;
   0xa4beea44; 0x4bdecfa9; 0xf6bb4b60; 0xbebfbc70;
   0x289b7ec6; 0xeaa127fa; 0xd4ef3085; 0x04881d05;
   0xd9d4d039; 0xe6db99e5; 0x1fa27cf8; 0xc4ac5665;
   0xf4292244; 0x432aff97; 0xab9423a7; 0xfc93a039;
   0x655b59c3; 0x8f0ccc92; 0xffeff47d; 0x85845dd1;
   0x6fa87e4f; 0xfe2ce6e0; 0xa3014314; 0x4e0811a1;
   0xf7537e82; 0xbd3af235; 0x2ad7d2bb; 0xeb86d391].

Record state := mkState { sa : N; sb : N; sc : N; sd : N }.

Definition init : state :=
  {| sa := 0x67452301; sb := 0xefcdab89; sc := 0x98badcfe; sd := 0x10325476 |}.

(** Little-endian value of a byte list. *)
Fixpoint le (bs : list N) : N :=
  match bs with
  | [] => 0
  | b :: r => b + 256 * le r
  end.

(** The [n] low bytes of [x], least significant first. *)
Fixpoint le_bytes (n : nat) (x : N) : list N :=
  match n with
  | O => []
  | Datatypes.S n' => x mod 256 :: le_bytes n' (x / 256)
  end.

(** Cut a byte list into pieces of [k] bytes; [fuel] bounds the pieces. *)
Fixpoint chunks (fuel : nat) (k : nat) (bs : list N) : list (list N) :=
  match fuel with
  | O => []
  | Datatypes.S fuel' =>
      match bs with
      | [] => []
      | _ => take k bs :: chunks fuel' k (drop k bs)
      end
  end.

(** One of the 64 operations on the block whose 16 words are [m]. *)
Definition step (m : list N) (st : state) (i : nat) : state :=
  let '(mkState a b c d) := st in
  let j := N.of_nat i in
  let '(f, g) :=
    if j <? 16 then (N.lor (N.land b c) (N.land (not32 b) d), j)
    else if j <? 32 then
      (N.lor (N.land d b) (N.land (not32 d) c), (5 * j + 1) mod 16)
    else if j <? 48 then (N.lxor b (N.lxor c d), (3 * j + 5) mod 16)
    else (N.lxor c (N.lor b (not32 d)), (7 * j) mod 16) in
  let f' := w32 (f + a + nth i K 0 + nth (N.to_nat g) m 0) in
  {| sa := d; sd := c; sc := b; sb := w32 (b + rotl f' (nth i S 0)) |}.

Definition block (st : state) (bs : list N) : state :=
  let m := map le (chunks 16 4 bs) in
  let st' := fold_left (step m) (seq 0 64) st in
  {| sa := w32 (sa st + sa st'); sb := w32 (sb st + sb st');
     sc := w32 (sc st + sc st'); sd := w32 (sd st + sd st') |}.

(** Message padding: a one bit, zeros up to 56 mod 64, the bit length. *)
Definition pad (msg : list N) : list N :=
  let n := N.of_nat (length msg) in
  let zeros := N.to_nat ((64 + 55 - n mod 64) mod 64) in
  msg ++ 0x80 :: repeat 0 zeros ++ le_bytes 8 ((8 * n) mod 2 ^ 64).

Definition digest (msg : list N) : list N :=
  let p := pad msg in
  let st := fold_left block (chunks (length p) 64 p) init in
  le_bytes 4 (sa st) ++ le_bytes 4 (sb st) ++ le_bytes 4 (sc st)
  ++ le_bytes 4 (sd st).

Definition hex_digit (n : N) : N := if n <? 10 then 0x30 + n else 0x57 + n.

(** [hashlib.md5(msg).hexdigest()]: 32 lower-case hexadecimal digits. *)
Definition hexdigest (msg : list N) : Text.str :=
  flat_map (fun b => [hex_digit (b / 16); hex_digit (b mod 16)]) (digest msg).

End MD5.

(* ===================================================================== *)
(** * Exceptions, entity key *)
(* ===================================================================== *)

(** The exceptions a run can raise: a failed download ([requests]), an
    unreadable document ([PdfReader], [r.json()]), a failed call of the
    database driver ([pyodbc]), a string that cannot be encoded, a run
    date that cannot be parsed, a missing environment variable, a value
    of the summary without the method or the shape the code expects. *)
Inductive exn :=
| FetchError
| ParseError
| DbError
| UnicodeEncodeError
| ValueError
| KeyError
| AttributeError
| TypeError.

Inductive result (A : Type) :=
| Ok (a : A)
| Raise (e : exn).

Arguments Ok {A} a.
Arguments Raise {A} e.

(** The string that [make_company_key] hashes. *)
Definition key_base (name province ccaa : option str) : str :=
  norm_text name ++ U "|" ++ norm_text province ++ U "|" ++ norm_text ccaa.

(** [make_company_key], lines 69-71. *)
Definition make_company_key (name province ccaa : option str) : result str :=
  let base := key_base name province ccaa in
  match utf8_encode base with
  | Some bs => Ok (MD5.hexdigest bs)
  | None => Raise UnicodeEncodeError
  end.

(** The separator of the hashed string. *)
Definition SEP : N := 0x7C.

Definition sep_free (s : str) : Prop :=
  forallb (fun c => negb (c =? SEP)) s = true.

(* ===================================================================== *)
(** * The store *)
(* ===================================================================== *)

Record date := mkDate { year : N; month : N; day : N }.

(** Row of [companies], without its key.  The identity column
    [company_id] and the timestamps are never read by the program. *)
Record company := mkCompany {
  name : str;
  province : str;
  ccaa : str
}.

(** The dictionary [ev] passed to [insert_event]. *)
Record ev := mkEv {
  ev_source : str;
  source_ref : option str;
  event_date : date;
  event_type : str;
  title : str;
  url : str;
  raw_excerpt : str;
  ev_company_key : str
}.

(** Row of [events]: the identity [event_id] and the inserted values. *)
Record event_row := mkEventRow {
  row_event_id : Z;
  row_ev : ev
}.

(** The dictionary [sig] passed to [insert_signal]; also the row of
    [signals] (its identity column is never read). *)
Record signal := mkSignal {
  sig_company_key : str;
  signal_date : date;
  signal_kind : str;
  weight : Z;
  sig_source : str;
  event_id : option Z;
  notes : str
}.

(** Row of [scores], without its key. *)
Record score_row := mkScore {
  score : Z;
  band : str;
  score_version : str
}.

(** The four tables.  [companies] and [scores] have a unique key
    ([company_key]); [events] and [signals] only grow.  [next_event_id] is
    the next value of the identity column of [events]. *)
Record db := mkDb {
  companies : gmap str company;
  events : list event_row;
  next_event_id : Z;
  signals : list signal;
  scores : gmap str score_row
}.

(** The schema as [ensure_schema] creates it: identity seeded at 1. *)
Definition empty_db : db :=
  {| companies := ∅; events := []; next_event_id := 1; signals := [];
     scores := ∅ |}.

(** ** Statements as functions on the tables *)

(** The [MERGE] of [upsert_company], lines 187-196: both branches leave
    the row [(name, province, ccaa)] under [ckey]. *)
Definition upsert_company_db (ckey name province ccaa : str) (d : db) : db :=
  {| companies := <[ckey := mkCompany name province ccaa]> (companies d);
     events := events d; next_event_id := next_event_id d;
     signals := signals d; scores := scores d |}.

(** The [INSERT ... OUTPUT INSERTED.event_id] of [insert_event]. *)
Definition insert_event_db (e : ev) (d : db) : Z * db :=
  (next_event_id d,
   {| companies := companies d;
      events := events d ++ [mkEventRow (next_event_id d) e];
      next_event_id := (next_event_id d + 1)%Z;
      signals := signals d; scores := scores d |}).

(** The [INSERT] of [insert_signal]. *)
Definition insert_signal_db (s : signal) (d : db) : db :=
  {| companies := companies d; events := events d;
     next_event_id := next_event_id d;
     signals := signals d ++ [s]; scores := scores d |}.

(** ** The aggregation query of [recompute_scores], lines 229-266 *)

(** [agg]: [SELECT company_key, SUM(weight) ... GROUP BY company_key].
    The sum is taken in Z; the range of the SQL type [INT] is a property
    of the engine and is not part of this model. *)
Fixpoint agg (sigs : list signal) : gmap str Z :=
  match sigs with
  | [] => ∅
  | s :: r =>
      let m := agg r in
      <[sig_company_key s := (weight s + default 0 (m !! sig_company_key s))%Z]> m
  end.

(** [norm]: the first [CASE]. *)
Definition norm_score (raw_score : Z) : Z :=
  if (raw_score <? 0)%Z then 0%Z
  else if (raw_score >? 100)%Z then 100%Z
  else raw_score.

(** [banded]: the second [CASE]. *)
Definition band_of (score : Z) : str :=
  if (score >=? 75)%Z then U "Hot"
  else if (score >=? 60)%Z then U "Warm"
  else if (score >=? 45)%Z then U "Watchlist"
  else U "Cold".

Definition banded (version : str) (sigs : list signal) : gmap str score_row :=
  (fun raw => let sc := norm_score raw in mkScore sc (band_of sc) version)
    <$> agg sigs.

(** The [MERGE] into [scores]: a key of the source relation is updated
    when matched and inserted when not; other rows are left as they are. *)
Definition merge_scores (src tgt : gmap str score_row) : gmap str score_row :=
  merge (fun s t => match s with Some r => Some r | None => t end) src tgt.

Definition recompute_scores_db (version : str) (d : db) : db :=
  {| companies := companies d; events := events d;
     next_event_id := next_event_id d; signals := signals d;
     scores := merge_scores (banded version (signals d)) (scores d) |}.

(** Default of the parameter [version]. *)
Definition DEFAULT_VERSION : str := U "v0_rules_2026_02".

(** ** What the aggregation is meant to compute *)

(** The company [k] owns at least one signal. *)
Definition owns_signal (k : str) (sigs : list signal) : bool :=
  existsb (fun s => bool_decide (sig_company_key s = k)) sigs.

(** The sum of the weights of the signals of company [k]. *)
Fixpoint raw_score (k : str) (sigs : list signal) : Z :=
  match sigs with
  | [] => 0%Z
  | s :: r =>
      if bool_decide (sig_company_key s = k) then (weight s + raw_score k r)%Z
      else raw_score k r
  end.

(** The statements the program sends to the store after [ensure_schema]. *)
Inductive statement :=
| UpsertCompany (ckey name province ccaa : str)
| InsertEvent (e : ev)
| InsertSignal (s : signal)
| RecomputeScores (version : str).

Definition run_statement (st : statement) (d : db) : db :=
  match st with
  | UpsertCompany ckey name province ccaa =>
      upsert_company_db ckey name province ccaa d
  | InsertEvent e => snd (insert_event_db e d)
  | InsertSignal s => insert_signal_db s d
  | RecomputeScores version => recompute_scores_db version d
  end.

(** The contents the tables can have: what a sequence of statements of the
    program makes of the empty schema. *)
Inductive reachable : db -> Prop :=
| reachable_empty : reachable empty_db
| reachable_step st d : reachable d -> reachable (run_statement st d).

(** Every score row belongs to a company that owns a signal. *)
Definition scores_owned (d : db) : Prop :=
  forall k, is_Some (scores d !! k) -> owns_signal k (signals d) = true.

(* ===================================================================== *)
(** * The ingestion pipelines *)
(* ===================================================================== *)

(** One item of the BORME summary ([it.get(..)] may give [None]). *)
Record borme_item := mkItem {
  titulo : option str;
  identificador : option str;
  url_pdf : option str
}.

(** The answer of the BORME API, [r.json()], as lines 283-284 read it.
    They follow the path "data", "items" with [get] and read the field
    "url_pdf" of every item with [get].  [Malformed e]: a value on the
    path is of a type on which the code raises [e] (the document or its
    "data" has no [get], "items" cannot be iterated).  [NoItems]: "data"
    or "items" is missing, or "items" is falsy.  [Items l]: "items" is
    the list [l], [None] standing for an element that has no [get].  The
    fields of an item are strings or are missing. *)
Inductive sumario :=
| Malformed (e : exn)
| NoItems
| Items (l : list (option borme_item)).

(** One listing returned by [scrape_listings_basic]. *)
Record listing := mkListing { li_title : str; li_url : str }.

(** One entry of [REGIONAL_SOURCES]. *)
Record regional_source := mkSource {
  src_source : str;
  src_ccaa : str;
  list_url : str
}.

Definition REGIONAL_SOURCES : list regional_source :=
  [ mkSource (U "RelevoAragon") (U "Aragón") (U "https://relevoaragon.com/");
    mkSource (U "RELEVACyL") (U "Castilla y León")
      (U "https://empresas.jcyl.es/web/es/economia-social-autonomos/novedad-programa-relevacyl.html");
    mkSource (U "RelevoCantabria") (U "Cantabria")
      (U "https://relevocantabria.com/") ].

(** Lines printed by the two runs. *)
Inductive log_line :=
| LogBormeHeader (run_date : str) (items pdf_items : nat) (cap : Z)
| LogBormeError (ident : option str) (e : exn)
| LogBormeDone (processed : nat)
| LogRegSource (source ccaa : str) (listings : nat)
| LogRegError (source : str) (e : exn)
| LogRegDone (inserted : nat).

(** What the program acts on: the tables as the cursor sees them inside
    the open transaction, the number of external calls made so far (HTTP
    requests and SQL statements), and the lines printed. *)
Record world := mkWorld {
  store : db;
  clock : nat;
  stdout : list log_line
}.

Definition tick (w : world) : world :=
  {| store := store w; clock := Datatypes.S (clock w); stdout := stdout w |}.

Definition set_store (d : db) (w : world) : world :=
  {| store := d; clock := clock w; stdout := stdout w |}.

Definition print (l : log_line) (w : world) : world :=
  {| store := store w; clock := clock w; stdout := stdout w ++ [l] |}.

(** Computations that read and change the world and may raise. *)
Definition M (A : Type) : Type := world -> result A * world.

Definition ret {A} (a : A) : M A := fun w => (Ok a, w).

Definition bind {A B} (m : M A) (k : A -> M B) : M B :=
  fun w =>
    match m w with
    | (Ok a, w') => k a w'
    | (Raise e, w') => (Raise e, w')
    end.

Definition lift {A} (r : result A) : M A := fun w => (r, w).

Definition when (b : bool) (m : M unit) : M unit :=
  if b then m else ret tt.

Notation "'let*' x := m 'in' k" := (bind m (fun x => k))
  (at level 10, x name, m at level 100, k at level 200).

(** Result of the body of the BORME loop when it does not raise:
    [Skipped] is the [continue] of line 304. *)
Inductive outcome := Processed | Skipped.

(** [l[:cap]] *)
Definition slice_to {A} (cap : Z) (l : list A) : list A :=
  if (0 <=? cap)%Z then take (Z.to_nat cap) l
  else take (length l - Z.to_nat (- cap)) l.

Definition truthy (x : option str) : bool :=
  match x with Some (_ :: _) => true | _ => false end.

(** [sumario.get("data", {}).get("items", []) or []], line 283. *)
Definition sumario_items (s : sumario) : result (list (option borme_item)) :=
  match s with
  | Malformed e => Raise e
  | NoItems => Ok []
  | Items l => Ok l
  end.

(** [[it for it in items if it.get("url_pdf")]], line 284: the first
    element without [get] raises. *)
Fixpoint select_pdf_items (items : list (option borme_item))
    : result (list borme_item) :=
  match items with
  | [] => Ok []
  | None :: _ => Raise AttributeError
  | Some it :: rest =>
      match select_pdf_items rest with
      | Ok l => Ok (if truthy (url_pdf it) then it :: l else l)
      | Raise e => Raise e
      end
  end.

(** The address that [fetch_borme_sumario] requests, lines 24 and 273. *)
Definition BORME_API (yyyymmdd : str) : str :=
  U "https://boe.es/datosabiertos/api/borme/sumario/" ++ yyyymmdd.

(** The connection string of [sql_conn], lines 101-110. *)
Definition conn_str (server db user pwd : str) : str :=
  U "Driver={ODBC Driver 18 for SQL Server};"
  ++ U "Server=tcp:" ++ server ++ U ",1433;"
  ++ U "Database=" ++ db ++ U ";"
  ++ U "Uid=" ++ user ++ U ";"
  ++ U "Pwd=" ++ pwd ++ U ";"
  ++ U "Encrypt=yes;"
  ++ U "TrustServerCertificate=no;"
  ++ U "Connection Timeout=30;".

Section Pipeline.

(** What the runs call and this development does not look into.
    [pdf_text_from_url] (lines 80-89) and [scrape_listings_basic] (lines
    372-398) download and parse with [requests], [PyPDF2] and
    [BeautifulSoup]: each stands here for the whole function, returning
    its value or the exception it raises.  [db_raises] tells which calls
    of the cursor and of the connection the driver rejects,
    [strptime_date] is [datetime.strptime(.., "%Y%m%d").date()], and the
    next two are the readings of the system clock.  [http_get_json] is
    the request of [fetch_borme_sumario] with [raise_for_status] and
    [r.json()], [environ] is [os.environ], and [connect_raises] tells
    whether [pyodbc.connect] raises for a connection string.  The [nat]
    argument is the clock at the moment of the call, so that two calls
    with the same arguments may behave differently. *)
Variable pdf_text_from_url : nat -> str -> result str.
Variable scrape_listings_basic : nat -> str -> nat -> result (list listing).
Variable db_raises : nat -> bool.
Variable strptime_date : str -> result date.
Variable utc_today_yyyymmdd : str.
Variable today : date.
Variable http_get_json : nat -> str -> result sumario.
Variable environ : str -> option str.
Variable connect_raises : nat -> str -> bool.

(** [cur.execute(..)]: the statement either raises or takes effect. *)
Definition execute {A} (stmt : db -> A * db) : M A :=
  fun w =>
    if db_raises (clock w) then (Raise DbError, tick w)
    else let '(a, d) := stmt (store w) in (Ok a, tick (set_store d w)).

Definition upsert_company (ckey name province ccaa : str) : M unit :=
  execute (fun d => (tt, upsert_company_db ckey name province ccaa d)).

Definition insert_event (e : ev) : M Z := execute (insert_event_db e).

Definition insert_signal (s : signal) : M unit :=
  execute (fun d => (tt, insert_signal_db s d)).

Definition recompute_scores (version : str) : M unit :=
  execute (fun d => (tt, recompute_scores_db version d)).

(** A call of the driver that changes no row: [conn.cursor()],
    [conn.commit()], [conn.close()], and each statement of
    [ensure_schema] (which creates the schema and the tables that do not
    exist yet). *)
Definition driver_call : M unit := execute (fun d => (tt, d)).

(** [ensure_schema], lines 113-185: five statements. *)
Definition ensure_schema : M unit :=
  let* _ := driver_call in
  let* _ := driver_call in
  let* _ := driver_call in
  let* _ := driver_call in
  driver_call.

(** [os.environ[k]] *)
Definition getenv (k : string) : result str :=
  match environ (U k) with Some v => Ok v | None => Raise KeyError end.

(** [sql_conn], lines 95-111. *)
Definition sql_conn : M unit :=
  let* server := lift (getenv "AZURE_SQL_SERVER") in
  let* db := lift (getenv "AZURE_SQL_DB") in
  let* user := lift (getenv "AZURE_SQL_USER") in
  let* pwd := lift (getenv "AZURE_SQL_PASSWORD") in
  fun w =>
    if connect_raises (clock w) (conn_str server db user pwd)
    then (Raise DbError, tick w)
    else (Ok tt, tick w).

(** Lines 288-290 and 403-405: connect, open a cursor, ensure the
    schema. *)
Definition open_store : M unit :=
  let* _ := sql_conn in
  let* _ := driver_call in
  ensure_schema.

(** Lines 363-365 and 449-451: recompute the scores, commit, close. *)
Definition close_store : M unit :=
  let* _ := recompute_scores DEFAULT_VERSION in
  let* _ := driver_call in
  driver_call.

(** [print(..)] *)
Definition say (l : log_line) : M unit := fun w => (Ok tt, print l w).

(** [fetch_borme_sumario], lines 272-276. *)
Definition fetch_borme_sumario (yyyymmdd : str) : M sumario :=
  fun w => (http_get_json (clock w) (BORME_API yyyymmdd), tick w).

(** The download of line 299. *)
Definition fetch_pdf (url_pdf : option str) : M str :=
  fun w =>
    match url_pdf with
    | Some url => (pdf_text_from_url (clock w) url, tick w)
    | None => (Raise FetchError, w)
    end.

(** Body of the [try] of [etl_borme], lines 295-358. *)
Definition borme_record (run_date : str) (it : borme_item) : M outcome :=
  let title := or_empty (titulo it) in
  let ident := or_empty (identificador it) in
  let url_pdf := url_pdf it in
  let* text := fetch_pdf url_pdf in
  let sigs := detect_signals (Some text) in
  if negb (pos sigs || gov sigs || neg sigs) then ret Skipped
  else
    let company_name := strip (str_or (take 220 title) (U "Empresa (BORME)")) in
    let province := [] in
    let ccaa := [] in
    let* ckey := lift (make_company_key (Some company_name) (Some province) (Some ccaa)) in
    let* _ := upsert_company ckey company_name province ccaa in
    let excerpt := if truthy (Some text) then take 1200 text else [] in
    let* d := lift (strptime_date run_date) in
    let ev := {| ev_source := U "BORME";
                 source_ref := Some ident;
                 event_date := d;
                 event_type := U "borme_pdf";
                 title := take 500 title;
                 url := or_empty url_pdf;
                 raw_excerpt := excerpt;
                 ev_company_key := ckey |} in
    let* event_id := insert_event ev in
    let* _ := when (pos sigs) (insert_signal
      {| sig_company_key := ckey;
         signal_date := event_date ev;
         signal_kind := U "explicit_or_text_relevo";
         weight := 40;
         sig_source := U "BORME";
         event_id := Some event_id;
         notes := U "Keywords positivas (traspaso/cesión/jubilación/relevo)." |}) in
    let* _ := when (gov sigs) (insert_signal
      {| sig_company_key := ckey;
         signal_date := event_date ev;
         signal_kind := U "junta_o_cambio";
         weight := 15;
         sig_source := U "BORME";
         event_id := Some event_id;
         notes := U "Keywords de junta/cambio accionario." |}) in
    let* _ := when (neg sigs) (insert_signal
      {| sig_company_key := ckey;
         signal_date := event_date ev;
         signal_kind := U "negativa_distressed";
         weight := -50;
         sig_source := U "BORME";
         event_id := Some event_id;
         notes := U "Keywords negativas (disolución/concurso/liquidación)." |}) in
    ret Processed.

(** The loop of lines 292-361, with its [try] / [except]. *)
Fixpoint borme_loop (run_date : str) (items : list borme_item)
    (processed : nat) (w : world) : nat * world :=
  match items with
  | [] => (processed, w)
  | it :: rest =>
      match borme_record run_date it w with
      | (Ok Processed, w') => borme_loop run_date rest (Datatypes.S processed) w'
      | (Ok Skipped, w') => borme_loop run_date rest processed w'
      | (Raise e, w') =>
          borme_loop run_date rest processed
            (print (LogBormeError (identificador it) e) w')
      end
  end.

(** [etl_borme], lines 278-366.  Only the loop has a [try]: what raises
    before it or after it ends the run. *)
Definition etl_borme (run_date : str) (cap : Z) : M unit :=
  let run_date := str_or run_date utc_today_yyyymmdd in
  let* sumario := fetch_borme_sumario run_date in
  let* items := lift (sumario_items sumario) in
  let* pdf_items := lift (select_pdf_items items) in
  let* _ := say (LogBormeHeader run_date (length items) (length pdf_items) cap) in
  let* _ := open_store in
  let* processed :=
    (fun w => let '(n, w') := borme_loop run_date (slice_to cap pdf_items) 0 w in
              (Ok n, w')) in
  let* _ := close_store in
  say (LogBormeDone processed).

(** Body of the inner loop of [etl_regional], lines 418-443. *)
Definition regional_record (source ccaa : str) (li : listing) : M unit :=
  let name := str_or (li_title li) (U "Negocio en traspaso") in
  let province := [] in
  let* ckey := lift (make_company_key (Some name) (Some province) (Some ccaa)) in
  let* _ := upsert_company ckey name province ccaa in
  let ev := {| ev_source := source;
               source_ref := None;
               event_date := today;
               event_type := U "listing";
               title := take 500 name;
               url := li_url li;
               raw_excerpt :=
                 U "Listing detectado (heurístico) en " ++ source ++ U " ("
                 ++ ccaa ++ U ").";
               ev_company_key := ckey |} in
  let* event_id := insert_event ev in
  insert_signal
    {| sig_company_key := ckey;
       signal_date := today;
       signal_kind := U "explicit_listing";
       weight := 40;
       sig_source := source;
       event_id := Some event_id;
       notes := U "Señal explícita: listing/bolsa (heurístico)." |}.

(** The inner loop, lines 417-444.  It has no [try] of its own: the first
    record that raises ends it, and the count reached so far is kept. *)
Fixpoint regional_listings (source ccaa : str) (listings : list listing)
    (inserted : nat) (w : world) : result unit * nat * world :=
  match listings with
  | [] => (Ok tt, inserted, w)
  | li :: rest =>
      match regional_record source ccaa li w with
      | (Ok _, w') => regional_listings source ccaa rest (Datatypes.S inserted) w'
      | (Raise e, w') => (Raise e, inserted, w')
      end
  end.

(** The outer loop, lines 408-447: one [try] / [except] per source. *)
Fixpoint regional_loop (srcs : list regional_source) (inserted : nat)
    (w : world) : nat * world :=
  match srcs with
  | [] => (inserted, w)
  | src :: rest =>
      let source := src_source src in
      let ccaa := src_ccaa src in
      match scrape_listings_basic (clock w) (list_url src) 25 with
      | Raise e =>
          regional_loop rest inserted (print (LogRegError source e) (tick w))
      | Ok listings =>
          let w1 := print (LogRegSource source ccaa (length listings)) (tick w) in
          match regional_listings source ccaa listings inserted w1 with
          | (Ok _, n, w2) => regional_loop rest n w2
          | (Raise e, n, w2) =>
              regional_loop rest n (print (LogRegError source e) w2)
          end
      end
  end.

(** [etl_regional], lines 400-452.  Only the loop has a [try]. *)
Definition etl_regional : M unit :=
  let* _ := open_store in
  let* inserted :=
    (fun w => let '(n, w') := regional_loop REGIONAL_SOURCES 0 w in
              (Ok n, w')) in
  let* _ := close_store in
  say (LogRegDone inserted).

End Pipeline.

(** ** Notions used to state the properties of the pipelines *)

Definition ALL_KEYWORDS : list Re.regex :=
  KEYWORDS_POS ++ KEYWORDS_GOV ++ KEYWORDS_NEG.

(** The display name of a listing, line 418. *)
Definition listing_name (li : listing) : str :=
  str_or (li_title li) (U "Negocio en traspaso").

(** [triple P m Q]: from a world that satisfies [P], the computation [m]
    ends, with a value or with an exception, in a world that satisfies
    [Q] of that ending. *)
Definition triple {A} (P : world -> Prop) (m : M A)
    (Q : result A -> world -> Prop) : Prop :=
  forall w, P w -> Q (fst (m w)) (snd (m w)).

(** The signal row [s] belongs to the event row [row]. *)
Definition consistent (row : event_row) (s : signal) : Prop :=
  event_id s = Some (row_event_id row)
  /\ sig_company_key s = ev_company_key (row_ev row)
  /\ signal_date s = event_date (row_ev row).

(** Since [w0], no event and no signal was inserted. *)
Definition no_event_yet (w0 w : world) : Prop :=
  events (store w) = events (store w0)
  /\ signals (store w) = signals (store w0)
  /\ next_event_id (store w) = next_event_id (store w0).

(** Since [w0], the event [row] was inserted, with the identity the insert
    returned, and then signals that all belong to it. *)
Definition event_inserted (w0 : world) (row : event_row) (w : world) : Prop :=
  row_event_id row = next_event_id (store w0)
  /\ events (store w) = events (store w0) ++ [row]
  /\ exists sigs, signals (store w) = signals (store w0) ++ sigs
                  /\ Forall (consistent row) sigs.

Definition record_effect (w0 w : world) : Prop :=
  no_event_yet w0 w \/ exists row, event_inserted w0 row w.

(** A property of the world is [stable] when the three things a run does
    to the world keep it: counting an external call, printing a line, and
    running one of the four statements. *)
Definition stable (I : world -> Prop) : Prop :=
  (forall w, I w -> I (tick w))
  /\ (forall w l, I w -> I (print l w))
  /\ (forall w st, I w -> I (set_store (run_statement st (store w)) w)).

(** ** Concrete collaborators and inputs, for the examples *)

Definition no_faults : nat -> bool := fun _ => false.

Definition serve_text (text : str) : nat -> str -> result str :=
  fun _ _ => Ok text.

Definition parse_20260203 : str -> result date :=
  fun _ => Ok (mkDate 2026 2 3).

Definition date_20260203 : date := mkDate 2026 2 3.

Definition world0 : world := {| store := empty_db; clock := 0; stdout := [] |}.

Definition item_acme : borme_item :=
  {| titulo := Some (U "ACME SL");
     identificador := Some (U "BORME-A-2026-23-08");
     url_pdf := Some (U "https://www.boe.es/borme/dias/2026/02/03/pdfs/BORME-A-2026-23-08.pdf") |}.

Definition text_noise : str :=
  U "Nombramiento de administrador único. Cambio de domicilio social.".

Definition text_cesion : str :=
  U "Anuncio de cesión de empresa por jubilación del titular.".






Definition li_jaca : listing :=
  {| li_title := U "Traspaso panadería en Jaca";
     li_url := U "https://relevoaragon.com/oferta/panaderia-jaca" |}.

Definition li_bar : listing :=
  {| li_title := U "Oportunidad: bar en Teruel";
     li_url := U "https://relevoaragon.com/oferta/bar-teruel" |}.






Definition world_listed : world :=
  print (LogRegSource (U "RelevoAragon") (U "Aragón") 2) (tick world0).

Definition sample_signal (k : str) (wt : Z) : signal :=
  {| sig_company_key := k; signal_date := date_20260203;
     signal_kind := U "junta_o_cambio"; weight := wt;
     sig_source := U "BORME"; event_id := None; notes := [] |}.

(** Three companies whose weights sum to -10, 50 and 130, and a fourth
    one without signals. *)
Definition db_three_companies : db :=
  fold_left (fun d st => run_statement st d)
    ([UpsertCompany (U "k0") (U "sin senales") [] []]
     ++ map (fun wt => InsertSignal (sample_signal (U "k1") wt)) [40; -50]%Z
     ++ map (fun wt => InsertSignal (sample_signal (U "k2") wt))
          [40; 40; 40; 15; 15; -50; -50]%Z
     ++ map (fun wt => InsertSignal (sample_signal (U "k3") wt))
          [40; 15; 15; 15; 15; 15; 15]%Z)
    empty_db.

(* ===================================================================== *)
(** * The listing scraper *)
(* ===================================================================== *)

(** One element [<a href=..>] of a page, as the loop of lines 380-387
    reads it: [a.get_text(" ", strip=True)] and [a.get("href")]. *)
Record anchor := mkAnchor { a_text : str; a_href : option str }.

(** [s.startswith(p)] *)
Fixpoint startswith (p s : str) : bool :=
  match p, s with
  | [], _ => true
  | c :: p', x :: s' => (x =? c) && startswith p' s'
  | _ :: _, [] => false
  end.

(** [k in s] *)
Fixpoint contains (k s : str) : bool :=
  startswith k s
  || match s with
     | [] => false
     | _ :: s' => contains k s'
     end.

(** [s.rstrip("/")] *)
Fixpoint lstrip_slash (s : str) : str :=
  match s with
  | [] => []
  | c :: s' => if c =? 0x2F then lstrip_slash s' else s
  end.

Definition rstrip_slash (s : str) : str := rev (lstrip_slash (rev s)).

(** The words of line 383. *)
Definition LISTING_WORDS : list str :=
  map U ["oferta"; "oportunidad"; "negocio"; "traspaso"; "relevo"; "comprar";
         "vender"]%string.

(** The first loop of [scrape_listings_basic], lines 379-387. *)
Definition page_links (url : str) (anchors : list anchor) : list listing :=
  flat_map
    (fun a =>
       let txt := lower (a_text a) in
       let href := or_empty (a_href a) in
       if existsb (fun k => contains k txt) LISTING_WORDS then
         let href :=
           if startswith (U "/") href then rstrip_slash url ++ href
           else href in
         if startswith (U "http") href
         then [ {| li_title := take 300 (a_text a); li_url := href |} ]
         else []
       else [])
    anchors.

(** The second loop, lines 389-397: skip an address already seen, append,
    and stop as soon as [out] has [max_items] elements. *)
Fixpoint dedupe_loop (max_items : Z) (links : list listing)
    (seen : gset str) (out : list listing) : list listing :=
  match links with
  | [] => out
  | l :: rest =>
      if bool_decide (li_url l ∈ seen) then dedupe_loop max_items rest seen out
      else
        let seen := seen ∪ {[li_url l]} in
        let out := out ++ [l] in
        if (Z.of_nat (length out) >=? max_items)%Z then out
        else dedupe_loop max_items rest seen out
  end.

(** [scrape_listings_basic], lines 372-398, from the parsed page on: the
    download and [BeautifulSoup] give the anchors or raise. *)
Definition listings_of_page (page : result (list anchor)) (url : str)
    (max_items : Z) : result (list listing) :=
  match page with
  | Raise e => Raise e
  | Ok anchors => Ok (dedupe_loop max_items (page_links url anchors) ∅ [])
  end.

(** [l] is the first of the links [links] that has its address. *)
Definition first_with_url (links : list listing) (l : listing) : Prop :=
  exists pre post,
    links = pre ++ l :: post /\ ~ In (li_url l) (map li_url pre).

(** The anchors of a page of the first site: two offers, one of them
    linked twice, and a link that is no offer. *)
Definition page_aragon : list anchor :=
  [ mkAnchor (U "Traspaso panadería en Jaca")
      (Some (U "/oferta/panaderia-jaca"));
    mkAnchor (U "Contacto") (Some (U "/contacto"));
    mkAnchor (U "Oportunidad: bar en Teruel")
      (Some (U "https://relevoaragon.com/oferta/bar-teruel"));
    mkAnchor (U "Ver el TRASPASO") (Some (U "/oferta/panaderia-jaca")) ].


(** The display name of a document, line 307. *)
Definition borme_company_name (it : borme_item) : str :=
  strip (str_or (take 220 (or_empty (titulo it))) (U "Empresa (BORME)")).

(** The signal rows of lines 327-356 for the flags [s]. *)
Definition borme_signals (s : sigs) (ckey : str) (d : date) (id : Z)
    : list signal :=
  (if pos s then
     [ {| sig_company_key := ckey; signal_date := d;
          signal_kind := U "explicit_or_text_relevo"; weight := 40;
          sig_source := U "BORME"; event_id := Some id;
          notes := U "Keywords positivas (traspaso/cesión/jubilación/relevo)." |} ]
   else [])
  ++ (if gov s then
        [ {| sig_company_key := ckey; signal_date := d;
             signal_kind := U "junta_o_cambio"; weight := 15;
             sig_source := U "BORME"; event_id := Some id;
             notes := U "Keywords de junta/cambio accionario." |} ]
      else [])
  ++ (if neg s then
        [ {| sig_company_key := ckey; signal_date := d;
             signal_kind := U "negativa_distressed"; weight := -50;
             sig_source := U "BORME"; event_id := Some id;
             notes := U "Keywords negativas (disolución/concurso/liquidación)." |} ]
      else []).

(** The event row and the signal row of a listing, lines 423-443. *)
Definition listing_event (today : date) (source ccaa : str) (li : listing)
    (ckey : str) : ev :=
  {| ev_source := source;
     source_ref := None;
     event_date := today;
     event_type := U "listing";
     title := take 500 (listing_name li);
     url := li_url li;
     raw_excerpt :=
       U "Listing detectado (heurístico) en " ++ source ++ U " ("
       ++ ccaa ++ U ").";
     ev_company_key := ckey |}.

Definition listing_signal (today : date) (source ckey : str) (id : Z)
    : signal :=
  {| sig_company_key := ckey;
     signal_date := today;
     signal_kind := U "explicit_listing";
     weight := 40;
     sig_source := source;
     event_id := Some id;
     notes := U "Señal explícita: listing/bolsa (heurístico)." |}.

(** The tables after the three statements of a listing. *)
Definition db_after_listing (today : date) (source ccaa : str) (li : listing)
    (ckey : str) (d : db) : db :=
  insert_signal_db (listing_signal today source ckey (next_event_id d))
    (snd (insert_event_db (listing_event today source ccaa li ckey)
            (upsert_company_db ckey (listing_name li) [] ccaa d))).

(** ** Text of a document, format of a key *)

(** A lower-case hexadecimal digit. *)
Definition is_hex (c : N) : Prop :=
  (0x30 <= c <= 0x39) \/ (0x61 <= c <= 0x66).

(** A code point that UTF-8 can encode: not a surrogate, at most U+10FFFF. *)
Definition is_scalar (c : N) : bool :=
  (c <? 0xD800) || ((0xDFFF <? c) && (c <? 0x110000)).

(** ["\n".join(parts)] *)
Fixpoint join_lines (parts : list str) : str :=
  match parts with
  | [] => []
  | [p] => p
  | p :: rest => p ++ 0x0A :: join_lines rest
  end.

(** The text that [pdf_text_from_url] builds, lines 86-89, from what
    [page.extract_text()] gives for each page. *)
Definition pdf_text_of_pages (pages : list (option str)) : str :=
  join_lines (map or_empty pages).

(** ** Notions used to state further properties of the store and the runs *)



(** Nothing that [w0] holds is lost in [w]: the rows of events and signals
    of [w0] are still there, at the same places, and every company and
    score key of [w0] is still a key. *)
Definition keeps (w0 w : world) : Prop :=
  events (store w0) `prefix_of` events (store w)
  /\ signals (store w0) `prefix_of` signals (store w)
  /\ dom (companies (store w0)) ⊆ dom (companies (store w))
  /\ dom (scores (store w0)) ⊆ dom (scores (store w))
  /\ (next_event_id (store w0) <= next_event_id (store w))%Z.

(** A score row as the aggregator writes it. *)
Definition score_row_ok (r : score_row) : Prop :=
  (0 <= score r <= 100)%Z /\ band r = band_of (score r).

(** The identities of the event rows are distinct and below the counter. *)
Definition ids_below (d : db) : Prop :=
  Forall (fun row => (row_event_id row < next_event_id d)%Z) (events d)
  /\ NoDup (map row_event_id (events d)).


(* ===================================================================== *)
(** * Properties of the text helpers *)
(* ===================================================================== *)

Section TextFacts.

Lemma lstrip_snoc a c :
  lstrip (a ++ [c]) =
  match lstrip a with
  | [] => if isspace c then [] else [c]
  | r => r ++ [c]
  end.
Proof.
  induction a as [|x a IH]; simpl.
  - destruct (isspace c); reflexivity.
  - destruct (isspace x); [exact IH | reflexivity].
Qed.

Lemma rstrip_cons c s :
  rstrip (c :: s) =
  match rstrip s with
  | [] => if isspace c then [] else [c]
  | r => c :: r
  end.
Proof.
  unfold rstrip. simpl rev at 2. rewrite lstrip_snoc.
  destruct (lstrip (rev s)) as [|x r] eqn:E; simpl.
  - destruct (isspace c); reflexivity.
  - rewrite rev_app_distr. simpl.
    destruct (rev r ++ [x]) eqn:E'; [|reflexivity].
    destruct (rev r); discriminate.
Qed.

Lemma starts_ws_lstrip s : starts_ws (lstrip s) = false.
Proof.
  induction s as [|c s IH]; simpl; [reflexivity|].
  destruct (isspace c) eqn:E; [exact IH | simpl; exact E].
Qed.

Lemma ends_ws_rstrip s : ends_ws (rstrip s) = false.
Proof.
  induction s as [|c s IH]; [reflexivity|].
  rewrite rstrip_cons. destruct (rstrip s) as [|x r].
  - destruct (isspace c) eqn:E; simpl; [reflexivity | exact E].
  - exact IH.
Qed.

Lemma starts_ws_rstrip s : starts_ws s = false -> starts_ws (rstrip s) = false.
Proof.
  destruct s as [|c s]; [reflexivity|]. simpl. intros E.
  rewrite rstrip_cons. destruct (rstrip s); [rewrite E|]; simpl; exact E.
Qed.

Lemma starts_ws_strip s : starts_ws (strip s) = false.
Proof. apply starts_ws_rstrip, starts_ws_lstrip. Qed.

Lemma ends_ws_strip s : ends_ws (strip s) = false.
Proof. apply ends_ws_rstrip. Qed.

Lemma words_lstrip s : words (lstrip s) = words s.
Proof.
  induction s as [|c s IH]; [reflexivity|]. simpl.
  destruct (isspace c) eqn:E; [|reflexivity].
  rewrite IH. unfold words. simpl. rewrite E.
  now destruct (word_rest s).
Qed.

Lemma word_rest_rstrip s : word_rest (rstrip s) = word_rest s.
Proof.
  induction s as [|c s IH]; [reflexivity|].
  rewrite rstrip_cons. destruct (rstrip s) as [|x r] eqn:E.
  - simpl in IH. simpl. rewrite <- IH.
    destruct (isspace c) eqn:Ec; simpl; [reflexivity | now rewrite Ec].
  - change (word_rest (c :: x :: r)) with
      (let '(w, ws) := word_rest (x :: r) in
       if isspace c then ([], cons_nonempty w ws) else (c :: w, ws)).
    now rewrite IH.
Qed.

Lemma words_strip s : words (strip s) = words s.
Proof.
  unfold strip. rewrite <- (words_lstrip s).
  unfold words. now rewrite word_rest_rstrip.
Qed.

Lemma words_not_nil t : t <> [] -> ends_ws t = false -> words t <> [].
Proof.
  induction t as [|c t IH]; [congruence|]. intros _ E.
  unfold words. simpl.
  destruct t as [|c' t'].
  - simpl in *. rewrite E. discriminate.
  - assert (Hw : words (c' :: t') <> []) by (apply IH; [discriminate | exact E]).
    unfold words in Hw.
    destruct (word_rest (c' :: t')) as [w ws].
    destruct (isspace c); simpl; [exact Hw | discriminate].
Qed.

Lemma word_rest_starts_ws t :
  starts_ws t = true -> fst (word_rest t) = [].
Proof.
  destruct t as [|c t]; [discriminate|]. simpl. intros ->.
  now destruct (word_rest t).
Qed.

Lemma word_rest_starts_nonws t :
  t <> [] -> starts_ws t = false -> fst (word_rest t) <> [].
Proof.
  destruct t as [|c t]; [congruence|]. simpl. intros _ ->.
  now destruct (word_rest t).
Qed.

Lemma unwords_cons_word c w ws :
  w <> [] -> unwords ((c :: w) :: ws) = c :: unwords (w :: ws).
Proof. destruct ws; reflexivity. Qed.

(** On a text without trailing whitespace the scan of [sub_ws] writes the
    words of the text, one space between two of them. *)
Lemma sub_ws_from_words t :
  ends_ws t = false ->
  sub_ws_from true t = unwords (words t) /\
  sub_ws_from false t =
    (if starts_ws t then 0x20 :: unwords (words t) else unwords (words t)).
Proof.
  induction t as [|c t IH]; [intros; split; reflexivity|].
  intros E.
  destruct t as [|c' t'].
  - simpl in E. unfold words. simpl. rewrite E. split; reflexivity.
  - specialize (IH E). destruct IH as [IHt IHf].
    assert (Hne : words (c' :: t') <> []) by (apply words_not_nil; [discriminate | exact E]).
    change (sub_ws_from true (c :: c' :: t')) with
      (if isspace c then sub_ws_from true (c' :: t')
       else c :: sub_ws_from false (c' :: t')).
    change (sub_ws_from false (c :: c' :: t')) with
      (if isspace c then 0x20 :: sub_ws_from true (c' :: t')
       else c :: sub_ws_from false (c' :: t')).
    change (starts_ws (c :: c' :: t')) with (isspace c).
    assert (Hw : words (c :: c' :: t') =
                 if isspace c then words (c' :: t')
                 else (c :: fst (word_rest (c' :: t'))) :: snd (word_rest (c' :: t'))).
    { unfold words. change (word_rest (c :: c' :: t')) with
        (let '(w, ws) := word_rest (c' :: t') in
         if isspace c then ([], cons_nonempty w ws) else (c :: w, ws)).
      destruct (word_rest (c' :: t')) as [w ws]. now destruct (isspace c). }
    rewrite Hw. destruct (isspace c) eqn:Ec.
    + rewrite IHt. split; reflexivity.
    + rewrite IHf.
      assert (Hgoal : c :: (if starts_ws (c' :: t')
                            then 0x20 :: unwords (words (c' :: t'))
                            else unwords (words (c' :: t'))) =
              unwords ((c :: fst (word_rest (c' :: t'))) :: snd (word_rest (c' :: t')))).
      { destruct (starts_ws (c' :: t')) eqn:Es.
        - pose proof (word_rest_starts_ws _ Es) as H0.
          unfold words in *. destruct (word_rest (c' :: t')) as [w ws].
          simpl in H0. subst w. simpl in *.
          destruct ws; [congruence | reflexivity].
        - assert (H0 : fst (word_rest (c' :: t')) <> [])
            by (apply word_rest_starts_nonws; [discriminate | exact Es]).
          unfold words in *. destruct (word_rest (c' :: t')) as [w ws].
          simpl in H0. simpl fst. simpl snd.
          rewrite unwords_cons_word by exact H0.
          destruct w; [congruence | reflexivity]. }
      split; exact Hgoal.
Qed.

Lemma cons_nonempty_is_word w ws :
  forallb (fun c => negb (isspace c)) w = true ->
  Forall is_word ws -> Forall is_word (cons_nonempty w ws).
Proof.
  intros Hw Hws. destruct w as [|c w]; [exact Hws|].
  constructor; [split; [discriminate | exact Hw] | exact Hws].
Qed.

Lemma word_rest_is_word s :
  forallb (fun c => negb (isspace c)) (fst (word_rest s)) = true /\
  Forall is_word (snd (word_rest s)).
Proof.
  induction s as [|c s [IHw IHws]]; [split; [reflexivity | constructor]|].
  simpl. destruct (word_rest s) as [w ws]. simpl in *.
  destruct (isspace c) eqn:E; simpl.
  - split; [reflexivity | now apply cons_nonempty_is_word].
  - rewrite E. simpl. split; assumption.
Qed.

Lemma words_is_word s : Forall is_word (words s).
Proof.
  unfold words. pose proof (word_rest_is_word s) as [Hw Hws].
  destruct (word_rest s). now apply cons_nonempty_is_word.
Qed.

Lemma word_rest_app w rest :
  forallb (fun c => negb (isspace c)) w = true ->
  word_rest (w ++ rest) = (w ++ fst (word_rest rest), snd (word_rest rest)).
Proof.
  induction w as [|c w IH]; simpl.
  - intros _. now destruct (word_rest rest).
  - rewrite andb_true_iff, negb_true_iff. intros [Ec Hw].
    rewrite (IH Hw), Ec. reflexivity.
Qed.

Lemma word_rest_unwords l :
  Forall is_word l ->
  word_rest (unwords l) =
  match l with [] => ([], []) | w :: l' => (w, l') end.
Proof.
  induction 1 as [|w l [Hne Hw] Hl IH]; [reflexivity|].
  destruct l as [|w' l'].
  - simpl. rewrite <- (app_nil_r w) at 1. rewrite (word_rest_app _ _ Hw).
    simpl. now rewrite app_nil_r.
  - change (unwords (w :: w' :: l')) with (w ++ 0x20 :: unwords (w' :: l')).
    rewrite (word_rest_app _ _ Hw).
    change (word_rest (0x20 :: unwords (w' :: l'))) with
      (let '(x, xs) := word_rest (unwords (w' :: l')) in
       ([] : str, cons_nonempty x xs)).
    rewrite IH. simpl. rewrite app_nil_r.
    inversion Hl as [|? ? [Hne' _] _]; subst.
    destruct w'; [congruence | reflexivity].
Qed.

Lemma words_unwords l : Forall is_word l -> words (unwords l) = l.
Proof.
  intros Hl. unfold words. rewrite (word_rest_unwords _ Hl).
  destruct Hl as [|w l [Hne _] _]; [reflexivity|].
  destruct w; [congruence | reflexivity].
Qed.

Lemma sub_ws_from_idem b s :
  sub_ws_from b (sub_ws_from b s) = sub_ws_from b s.
Proof.
  revert b. induction s as [|c s IH]; intros b; [reflexivity|].
  simpl. destruct (isspace c) eqn:E.
  - destruct b; [apply IH|]. simpl. now rewrite IH.
  - simpl. rewrite E. now rewrite IH.
Qed.

Lemma lstrip_id s : starts_ws s = false -> lstrip s = s.
Proof. destruct s; simpl; [reflexivity | now intros ->]. Qed.

Lemma rstrip_id s : ends_ws s = false -> rstrip s = s.
Proof.
  induction s as [|c s IH]; [reflexivity|]. intros E.
  rewrite rstrip_cons. destruct s as [|c' s'].
  - simpl in *. now rewrite E.
  - now rewrite (IH E).
Qed.

Lemma is_word_starts w : is_word w -> starts_ws w = false.
Proof.
  intros [Hne Hw]. destruct w as [|c w]; [congruence|].
  simpl in *. apply andb_true_iff in Hw as [Hc _].
  now apply negb_true_iff.
Qed.

Lemma ends_ws_app a b : b <> [] -> ends_ws (a ++ b) = ends_ws b.
Proof.
  intros Hb. induction a as [|c a IH]; [reflexivity|].
  simpl. destruct (a ++ b) eqn:E; [|exact IH].
  destruct a, b; simpl in E; congruence.
Qed.

Lemma is_word_ends w : is_word w -> ends_ws w = false.
Proof.
  intros [Hne Hw]. induction w as [|c w IH]; [congruence|].
  simpl in Hw. apply andb_true_iff in Hw as [Hc Hw].
  destruct w as [|c' w'].
  - simpl. now apply negb_true_iff.
  - apply IH; [discriminate | exact Hw].
Qed.

Lemma unwords_edges l :
  Forall is_word l ->
  starts_ws (unwords l) = false /\ ends_ws (unwords l) = false.
Proof.
  induction 1 as [|w l Hw Hl [IHs IHe]]; [split; reflexivity|].
  destruct l as [|w' l'].
  - split; [now apply is_word_starts | now apply is_word_ends].
  - change (unwords (w :: w' :: l')) with (w ++ 0x20 :: unwords (w' :: l')).
    split.
    + pose proof (is_word_starts _ Hw) as Hs. destruct Hw as [Hne _].
      destruct w; [congruence | exact Hs].
    + rewrite ends_ws_app by discriminate.
      change (ends_ws (0x20 :: unwords (w' :: l'))) with
        (match unwords (w' :: l') with
         | [] => isspace 0x20
         | _ => ends_ws (unwords (w' :: l'))
         end).
      destruct (unwords (w' :: l')) eqn:E; [|exact IHe].
      inversion Hl as [|? ? [Hne _] _]; subst.
      destruct w', l'; simpl in E; congruence.
Qed.

(** *** Lower-casing *)

Lemma isspace_cases c :
  isspace c = true ->
  In c [0x09; 0x0A; 0x0B; 0x0C; 0x0D; 0x1C; 0x1D; 0x1E; 0x1F; 0x20; 0x85;
        0xA0; 0x1680; 0x2000; 0x2001; 0x2002; 0x2003; 0x2004; 0x2005;
        0x2006; 0x2007; 0x2008; 0x2009; 0x200A; 0x2028; 0x2029; 0x202F;
        0x205F; 0x3000].
Proof.
  unfold isspace.
  rewrite !orb_true_iff, !andb_true_iff, !N.leb_le, !N.eqb_eq.
  cbn [In]. lia.
Qed.

(** A whitespace code point is its own lower case, and it is neither
    cased nor case-ignorable: it ends the context of a capital sigma. *)
Lemma space_facts c :
  isspace c = true ->
  (forall a e, lower_one a e c = [c])
  /\ case_ignorable c = false /\ cased c = false /\ is_lowered c = true.
Proof.
  intros H. apply isspace_cases in H. cbn [In] in H.
  repeat (destruct H as [<-|H];
          [split; [intros a e|]; vm_compute; repeat split; reflexivity|]).
  destruct H.
Qed.

Lemma assoc_In c l d : assoc c l = Some d -> In (c, d) l.
Proof.
  induction l as [|[k v] l IH]; simpl; [discriminate|].
  destruct (c <? k); [discriminate|].
  destruct (N.eqb_spec c k) as [->|_].
  - intros [= ->]. now left.
  - intros H. right. now apply IH.
Qed.

Lemma to_lower_cases c : to_lower c = c \/ In (c, to_lower c) LOWER_PAIRS.
Proof.
  unfold to_lower. destruct (assoc c LOWER_PAIRS) as [d|] eqn:E.
  - right. now apply assoc_In.
  - now left.
Qed.

(** Every lower-case mapping of the table goes from a code point that is
    not whitespace to one that is not whitespace and that [lower] leaves
    as it is. *)
Lemma lower_pairs_checked :
  forallb (fun p => negb (isspace (fst p)) && negb (isspace (snd p))
                    && is_lowered (snd p)) LOWER_PAIRS = true.
Proof. vm_compute. reflexivity. Qed.

Lemma lower_pair_facts c d :
  In (c, d) LOWER_PAIRS ->
  isspace c = false /\ isspace d = false /\ is_lowered d = true.
Proof.
  intros H. pose proof lower_pairs_checked as K.
  rewrite forallb_forall in K. specialize (K _ H). cbn [fst snd] in K.
  apply andb_true_iff in K as [K K3]. apply andb_true_iff in K as [K1 K2].
  apply negb_true_iff in K1, K2. auto.
Qed.

Lemma to_lower_nonspace c : isspace c = false -> isspace (to_lower c) = false.
Proof.
  intros H. destruct (to_lower_cases c) as [->|K]; [exact H|].
  now apply lower_pair_facts in K.
Qed.

Lemma to_lower_lowered c :
  c <> 0x3A3 -> c <> 0x130 -> is_lowered (to_lower c) = true.
Proof.
  intros H1 H2. destruct (to_lower_cases c) as [E|K].
  - unfold is_lowered. rewrite !E.
    apply N.eqb_neq in H1, H2. rewrite H1, H2, N.eqb_refl. reflexivity.
  - now apply lower_pair_facts in K.
Qed.

Lemma lower_one_nonspace a e c :
  isspace c = false ->
  lower_one a e c <> []
  /\ forallb (fun x => negb (isspace x)) (lower_one a e c) = true.
Proof.
  intros H. unfold lower_one, to_lower_full.
  destruct (c =? 0x3A3); [destruct (a && e); (split; [discriminate | reflexivity])|].
  destruct (c =? 0x130); [split; [discriminate | reflexivity]|].
  split; [discriminate|]. simpl. now rewrite to_lower_nonspace.
Qed.

Lemma lower_one_lowered a e c :
  forallb is_lowered (lower_one a e c) = true.
Proof.
  unfold lower_one, to_lower_full.
  destruct (N.eqb_spec c 0x3A3) as [_|H1]; [destruct (a && e); reflexivity|].
  destruct (N.eqb_spec c 0x130) as [_|H2]; [reflexivity|].
  simpl. now rewrite to_lower_lowered.
Qed.

Lemma lower_one_fixed a e c : is_lowered c = true -> lower_one a e c = [c].
Proof.
  unfold is_lowered, lower_one, to_lower_full.
  rewrite !andb_true_iff, !negb_true_iff, N.eqb_eq.
  intros [[-> ->] ->]. reflexivity.
Qed.

Lemma lower_from_cons a c s :
  lower_from a (c :: s) =
  lower_one a (sigma_end s) c
  ++ lower_from (if case_ignorable c then a else cased c) s.
Proof. reflexivity. Qed.

Lemma lower_from_space a c s :
  isspace c = true -> lower_from a (c :: s) = c :: lower_from false s.
Proof.
  intros H. destruct (space_facts c H) as (H1 & H2 & H3 & _).
  now rewrite lower_from_cons, H1, H2, H3.
Qed.

Lemma lower_from_nil a s : lower_from a s = [] <-> s = [].
Proof.
  split; [|now intros ->]. destruct s as [|c s]; [reflexivity|].
  rewrite lower_from_cons. intros H. apply app_eq_nil in H as [H _].
  exfalso. unfold lower_one, to_lower_full in H.
  destruct (c =? 0x3A3); [discriminate|]. destruct (c =? 0x130); discriminate.
Qed.

(** [lower] leaves a lower-cased text as it is, and gives one. *)
Lemma lower_from_fixed a s :
  forallb is_lowered s = true -> lower_from a s = s.
Proof.
  revert a. induction s as [|c s IH]; intros a; [reflexivity|].
  simpl forallb. rewrite andb_true_iff. intros [Hc Hs].
  now rewrite lower_from_cons, (lower_one_fixed _ _ _ Hc), IH.
Qed.

Lemma lower_from_lowered a s : forallb is_lowered (lower_from a s) = true.
Proof.
  revert a. induction s as [|c s IH]; intros a; [reflexivity|].
  now rewrite lower_from_cons, forallb_app, lower_one_lowered, IH.
Qed.

Lemma lower_idem s : lower (lower s) = lower s.
Proof. apply lower_from_fixed, lower_from_lowered. Qed.

Lemma starts_ws_app_nonws o t :
  o <> [] -> forallb (fun x => negb (isspace x)) o = true ->
  starts_ws (o ++ t) = false.
Proof.
  destruct o as [|x o]; [congruence|]. intros _. simpl.
  rewrite andb_true_iff, negb_true_iff. tauto.
Qed.

Lemma starts_ws_lower_from a s : starts_ws (lower_from a s) = starts_ws s.
Proof.
  destruct s as [|c s]; [reflexivity|]. destruct (isspace c) eqn:E.
  - rewrite (lower_from_space _ _ _ E). simpl. now rewrite E.
  - rewrite lower_from_cons. simpl starts_ws at 2. rewrite E.
    now apply starts_ws_app_nonws; apply lower_one_nonspace.
Qed.

Lemma starts_ws_lower s : starts_ws (lower s) = starts_ws s.
Proof. apply starts_ws_lower_from. Qed.

Lemma ends_ws_nonws o :
  o <> [] -> forallb (fun x => negb (isspace x)) o = true -> ends_ws o = false.
Proof.
  induction o as [|x o IH]; [congruence|]. intros _. simpl forallb.
  rewrite andb_true_iff, negb_true_iff. intros [Hx Ho].
  destruct o as [|y o]; [exact Hx|]. apply IH; [discriminate | exact Ho].
Qed.

Lemma ends_ws_lower_from a s : ends_ws (lower_from a s) = ends_ws s.
Proof.
  revert a. induction s as [|c s IH]; intros a; [reflexivity|].
  destruct s as [|c' s'].
  - destruct (isspace c) eqn:E.
    + rewrite (lower_from_space _ _ _ E). simpl. now rewrite E.
    + rewrite lower_from_cons. simpl lower_from. rewrite app_nil_r.
      simpl ends_ws at 2. rewrite E.
      now apply ends_ws_nonws; apply lower_one_nonspace.
  - rewrite lower_from_cons.
    rewrite ends_ws_app by (intros H; apply lower_from_nil in H; discriminate).
    rewrite IH. reflexivity.
Qed.

Lemma ends_ws_lower s : ends_ws (lower s) = ends_ws s.
Proof. apply ends_ws_lower_from. Qed.

(** The context of a capital sigma does not reach beyond its word. *)
Lemma sigma_end_word s : sigma_end s = sigma_end (fst (word_rest s)).
Proof.
  induction s as [|c s IH]; [reflexivity|].
  simpl word_rest. destruct (word_rest s) as [w ws]. simpl in IH.
  destruct (isspace c) eqn:E.
  - destruct (space_facts c E) as (_ & H2 & H3 & _).
    simpl. now rewrite H2, H3.
  - simpl. now rewrite IH.
Qed.

Lemma cons_nonempty_lower w ws :
  cons_nonempty (lower w) (map lower ws) = map lower (cons_nonempty w ws).
Proof.
  destruct w as [|c w]; [reflexivity|].
  destruct (lower (c :: w)) eqn:E; [|cbn [cons_nonempty map]; now rewrite E].
  apply lower_from_nil in E. discriminate.
Qed.

Lemma word_rest_lower_from s : forall a,
  word_rest (lower_from a s) =
  (lower_from a (fst (word_rest s)), map lower (snd (word_rest s))).
Proof.
  induction s as [|c s IH]; intros a; [reflexivity|].
  destruct (isspace c) eqn:E.
  - rewrite (lower_from_space _ _ _ E). simpl word_rest. rewrite E.
    rewrite (IH false). destruct (word_rest s) as [w ws]. cbn [fst snd].
    fold (lower w). now rewrite cons_nonempty_lower.
  - rewrite lower_from_cons.
    destruct (lower_one_nonspace a (sigma_end s) c E) as [_ Ho].
    rewrite (word_rest_app _ _ Ho), IH.
    pose proof (sigma_end_word s) as Hs.
    simpl word_rest. rewrite E. destruct (word_rest s) as [w ws].
    cbn [fst snd] in *. rewrite lower_from_cons, Hs. reflexivity.
Qed.

Lemma words_lower s : words (lower s) = map lower (words s).
Proof.
  unfold words, lower. rewrite word_rest_lower_from.
  destruct (word_rest s) as [w ws]. cbn [fst snd]. apply cons_nonempty_lower.
Qed.

Lemma forallb_nonws_lower_from w : forall a,
  forallb (fun c => negb (isspace c)) w = true ->
  forallb (fun c => negb (isspace c)) (lower_from a w) = true.
Proof.
  induction w as [|c w IH]; intros a H; [reflexivity|].
  simpl in H. apply andb_true_iff in H as [Hc Hw]. apply negb_true_iff in Hc.
  rewrite lower_from_cons, forallb_app, IH by exact Hw.
  now rewrite (proj2 (lower_one_nonspace _ _ _ Hc)).
Qed.

Lemma is_word_lower w : is_word w -> is_word (lower w).
Proof.
  intros [Hne Hall]. split.
  - intros H. apply lower_from_nil in H. contradiction.
  - now apply forallb_nonws_lower_from.
Qed.

Lemma sub_ws_from_lowered b s :
  forallb is_lowered s = true -> forallb is_lowered (sub_ws_from b s) = true.
Proof.
  revert b. induction s as [|c s IH]; intros b; [reflexivity|].
  simpl forallb. rewrite andb_true_iff. intros [Hc Hs]. simpl.
  destruct (isspace c); [destruct b|]; simpl; rewrite ?Hc, IH; auto.
Qed.

Lemma norm_text_lowered x : forallb is_lowered (norm_text x) = true.
Proof. apply sub_ws_from_lowered, lower_from_lowered. Qed.

(** [norm_text] writes the lower-cased words of its input, separated by
    single spaces. *)
Lemma norm_text_words s :
  norm_text (Some s) = unwords (map lower (words s)).
Proof.
  unfold norm_text, sub_ws, or_empty.
  destruct (sub_ws_from_words (lower (strip s))) as [_ H].
  { rewrite ends_ws_lower. apply ends_ws_strip. }
  rewrite H, starts_ws_lower, starts_ws_strip, words_lower, words_strip.
  reflexivity.
Qed.

Lemma norm_text_or_empty x : norm_text x = norm_text (Some (or_empty x)).
Proof. destruct x; reflexivity. Qed.

Lemma norm_text_is_words x :
  exists l, Forall is_word l /\ norm_text x = unwords l
            /\ l = map lower (words (or_empty x)).
Proof.
  exists (map lower (words (or_empty x))). split; [|split; [|reflexivity]].
  - pose proof (words_is_word (or_empty x)) as H.
    induction H; constructor; auto using is_word_lower.
  - rewrite norm_text_or_empty. apply norm_text_words.
Qed.

Lemma norm_text_idem x : norm_text (Some (norm_text x)) = norm_text x.
Proof.
  destruct (norm_text_is_words x) as (l & Hl & Hx & El).
  rewrite norm_text_words, Hx, (words_unwords _ Hl), El, map_map.
  f_equal. apply map_ext. intros w. apply lower_idem.
Qed.

End TextFacts.

(** ** C9: the normalizer *)

(** C9. For every input string, [norm_text] trims leading and trailing
    whitespace, lower-cases, and collapses every run of whitespace to a
    single space: its result is the lower-cased words of the input joined
    by single spaces; every code point of it is one that lower-casing
    leaves as it is; and stripping, lower-casing or collapsing it again
    changes nothing.  It is idempotent, and it maps the empty string and
    [None] to the empty string (as a total function, it raises nothing).
    The examples show the three steps on ASCII and accented letters, on
    letters outside Latin-1 (of which U+0130 lower-cases to two code
    points and the capital sigma to its final form at the end of a word),
    and on whitespace other than the space. *)
Theorem norm_text_normalizes :
  (forall s : str, norm_text (Some s) = unwords (map lower (words s)))
  /\ (forall x : option str,
        strip (norm_text x) = norm_text x
        /\ lower (norm_text x) = norm_text x
        /\ sub_ws (norm_text x) = norm_text x
        /\ forallb is_lowered (norm_text x) = true)
  /\ (forall x : option str, norm_text (Some (norm_text x)) = norm_text x)
  /\ norm_text (Some []) = []
  /\ norm_text None = []
  /\ map (fun s => norm_text (Some (U s)))
       ["  Bar   PEPE "; "CESIÓN de Empresa"; "Castilla y LEÓN";
        "ÀÉÎÕÜ Ç Ñ Þ"; "ΣΑΣ ΟΔΟΣ"; "ĀŸǄ"]%string
     = map U ["bar pepe"; "cesión de empresa"; "castilla y león";
              "àéîõü ç ñ þ"; "σας οδος"; "āÿǆ"]%string
  /\ norm_text (Some [0x130; 0x212A]) = [0x69; 0x307; 0x6B]
  /\ norm_text (Some ([0xA0; 0x09] ++ U "JUNTA" ++ [0x0D; 0x0A; 0x2003]
                      ++ U "General" ++ [0x3000; 0x85]))
     = U "junta general".
Proof.
  split; [exact norm_text_words|].
  split; [|split; [|split; [|split; [|repeat split; vm_compute; reflexivity]]]];
    try reflexivity.
  - intros x. destruct (norm_text_is_words x) as (l & Hl & Hx & El).
    split; [|split; [|split]].
    + rewrite Hx. destruct (unwords_edges _ Hl) as [Hs He].
      unfold strip. rewrite (lstrip_id _ Hs). now apply rstrip_id.
    + apply lower_from_fixed, norm_text_lowered.
    + unfold norm_text, sub_ws. apply sub_ws_from_idem.
    + apply norm_text_lowered.
  - intros x. destruct (norm_text_is_words x) as (l & Hl & Hx & El).
    rewrite norm_text_words, Hx, (words_unwords _ Hl), El, map_map.
    f_equal. apply map_ext. intros w. apply lower_idem.
Qed.

(* ===================================================================== *)
(** * Properties of the pattern matcher and of the detector *)
(* ===================================================================== *)

Section ReFacts.
Import Re.

Lemma left_of_cons prev x pre : left_of prev (x :: pre) = left_of (Some x) pre.
Proof.
  unfold left_of. destruct pre as [|y pre]; [reflexivity|].
  change (last (x :: y :: pre)) with (last (y :: pre)).
  destruct (last (y :: pre)) eqn:E; [reflexivity|].
  apply last_None in E. discriminate.
Qed.

Lemma existsb_eqb_In x cs : existsb (N.eqb x) cs = true <-> In x cs.
Proof.
  rewrite existsb_exists. split.
  - intros (y & Hy & E). apply N.eqb_eq in E. now subst.
  - intros H. exists x. split; [exact H | apply N.eqb_refl].
Qed.

Lemma match_here_sound p : forall prev s,
  match_here p prev s = true ->
  exists mid post, s = mid ++ post /\ matches p prev mid post.
Proof.
  induction p as [|a p IH]; intros prev s H.
  - exists [], s. split; [reflexivity | constructor].
  - destruct a as [c|cs|]; simpl in H.
    + destruct s as [|x s']; [discriminate|].
      apply andb_true_iff in H as [Hx Hp]. apply N.eqb_eq in Hx. subst x.
      destruct (IH _ _ Hp) as (mid & post & -> & Hm).
      exists (c :: mid), post. split; [reflexivity | now constructor].
    + destruct s as [|x s']; [discriminate|].
      apply andb_true_iff in H as [Hx Hp]. apply existsb_eqb_In in Hx.
      destruct (IH _ _ Hp) as (mid & post & -> & Hm).
      exists (x :: mid), post. split; [reflexivity | now constructor].
    + apply andb_true_iff in H as [Hb Hp].
      destruct (IH _ _ Hp) as (mid & post & -> & Hm).
      exists mid, post. split; [reflexivity | now constructor].
Qed.

Lemma match_here_complete p prev mid post :
  matches p prev mid post -> match_here p prev (mid ++ post) = true.
Proof.
  induction 1 as [| c p prev mid post _ IH | cs x p prev mid post Hin _ IH
                  | p prev mid post Hb _ IH]; simpl.
  - reflexivity.
  - now rewrite N.eqb_refl, IH.
  - apply andb_true_iff. split; [now apply existsb_eqb_In | exact IH].
  - now rewrite Hb, IH.
Qed.

Lemma search_from_sound p : forall s prev,
  search_from p prev s = true ->
  exists pre mid post,
    s = pre ++ mid ++ post /\ matches p (left_of prev pre) mid post.
Proof.
  induction s as [|x s IH]; intros prev H; simpl in H;
    apply orb_true_iff in H as [H|H].
  - destruct (match_here_sound _ _ _ H) as (mid & post & E & Hm).
    exists [], mid, post. split; [exact E | exact Hm].
  - discriminate.
  - destruct (match_here_sound _ _ _ H) as (mid & post & E & Hm).
    exists [], mid, post. split; [exact E | exact Hm].
  - destruct (IH _ H) as (pre & mid & post & -> & Hm).
    exists (x :: pre), mid, post. split; [reflexivity|].
    now rewrite left_of_cons.
Qed.

Lemma search_from_complete p pre : forall prev mid post,
  matches p (left_of prev pre) mid post ->
  search_from p prev (pre ++ mid ++ post) = true.
Proof.
  induction pre as [|x pre IH]; intros prev mid post Hm.
  - simpl app. assert (H : match_here p prev (mid ++ post) = true)
      by now apply match_here_complete.
    destruct (mid ++ post); simpl; now rewrite H.
  - rewrite left_of_cons in Hm. simpl.
    rewrite (IH _ _ _ Hm). apply orb_true_r.
Qed.

(** The matcher decides the declarative meaning of [re.search]. *)
Lemma search_occurs p t : search p t = true <-> occurs p t.
Proof.
  unfold search, occurs. split.
  - intros H. destruct (search_from_sound _ _ _ H) as (pre & mid & post & E & Hm).
    exists pre, mid, post. split; [exact E|].
    unfold left_of in Hm. now destruct (last pre).
  - intros (pre & mid & post & -> & Hm).
    apply search_from_complete. unfold left_of. now destruct (last pre).
Qed.

Lemma any_search_occurs ps t :
  existsb (fun p => search p t) ps = true <->
  exists p, In p ps /\ occurs p t.
Proof.
  rewrite existsb_exists. split; intros (p & Hin & H); exists p;
    (split; [exact Hin | now apply search_occurs]).
Qed.

End ReFacts.

Section Spellings.
Import Re.

Lemma left_of_nonempty prev k : k <> [] -> left_of prev k = last k.
Proof.
  intros H. unfold left_of. destruct (last k) eqn:E; [reflexivity|].
  apply last_None in E. contradiction.
Qed.

Lemma search_from_iff p s prev :
  search_from p prev s = true <->
  exists pre rest,
    s = pre ++ rest /\ match_here p (left_of prev pre) rest = true.
Proof.
  split.
  - intros H.
    destruct (search_from_sound _ _ _ H) as (pre & mid & post & -> & Hm).
    exists pre, (mid ++ post). split; [reflexivity|].
    now apply match_here_complete.
  - intros (pre & rest & -> & H).
    destruct (match_here_sound _ _ _ H) as (mid & post & -> & Hm).
    now apply search_from_complete.
Qed.

(** A pattern without assertion matches at a position exactly when one
    of its spellings stands there. *)
Lemma match_here_body body :
  ~ In WordB body -> forall q prev s,
  match_here (body ++ q) prev s = true <->
  exists k rest,
    In k (spellings body) /\ s = k ++ rest
    /\ match_here q (left_of prev k) rest = true.
Proof.
  induction body as [|a body IH]; intros Hb q prev s.
  - simpl. split.
    + intros H. exists [], s. repeat split; [now left | exact H].
    + intros (k & rest & [<-|[]] & -> & H). exact H.
  - assert (Hb' : ~ In WordB body) by (intros H; apply Hb; now right).
    destruct a as [c|cs|]; [| |exfalso; apply Hb; now left].
    + cbn [app match_here spellings]. destruct s as [|x s].
      * split; [discriminate|].
        intros (k & rest & Hk & E & _). apply in_map_iff in Hk as (k' & <- & _).
        discriminate.
      * rewrite andb_true_iff, N.eqb_eq, (IH Hb'). split.
        -- intros (-> & k & rest & Hk & -> & H).
           exists (c :: k), rest. split; [now apply in_map|].
           split; [reflexivity | now rewrite left_of_cons].
        -- intros (k & rest & Hk & E & H).
           apply in_map_iff in Hk as (k' & <- & Hk').
           injection E as -> ->. split; [reflexivity|].
           exists k', rest. rewrite left_of_cons in H. auto.
    + cbn [app match_here spellings]. destruct s as [|x s].
      * split; [discriminate|].
        intros (k & rest & Hk & E & _).
        apply in_flat_map in Hk as (y & _ & Hk).
        apply in_map_iff in Hk as (k' & <- & _). discriminate.
      * rewrite andb_true_iff, existsb_eqb_In, (IH Hb'). split.
        -- intros (Hx & k & rest & Hk & -> & H).
           exists (x :: k), rest. split.
           ++ apply in_flat_map. exists x. split; [exact Hx | now apply in_map].
           ++ split; [reflexivity | now rewrite left_of_cons].
        -- intros (k & rest & Hk & E & H).
           apply in_flat_map in Hk as (y & Hy & Hk).
           apply in_map_iff in Hk as (k' & <- & Hk').
           injection E as -> ->. split; [exact Hy|].
           exists k', rest. rewrite left_of_cons in H. auto.
Qed.

Lemma word_ends_nonempty k :
  isword_opt (head k) && isword_opt (last k) = true ->
  k <> [] /\ isword_opt (head k) = true /\ isword_opt (last k) = true.
Proof.
  rewrite andb_true_iff. intros [H1 H2].
  split; [|split; assumption]. intros ->. discriminate.
Qed.

Lemma head_app_nonempty (k rest : str) : k <> [] -> head (k ++ rest) = head k.
Proof. destruct k; [congruence | reflexivity]. Qed.

Lemma left_of_None pre : left_of None pre = last pre.
Proof. unfold left_of. now destruct (last pre). Qed.

(** A pattern between two [\b], whose spellings begin and end with word
    characters, finds its spellings as whole words. *)
Lemma search_whole_word body t :
  ~ In WordB body ->
  forallb (fun k => isword_opt (head k) && isword_opt (last k))
    (spellings body) = true ->
  search (WordB :: body ++ [WordB]) t = true <->
  exists k, In k (spellings body) /\ whole_word k t.
Proof.
  intros Hb Hw. rewrite forallb_forall in Hw.
  unfold search. rewrite search_from_iff. split.
  - intros (pre & rest & -> & H). rewrite left_of_None in H.
    cbn [match_here] in H. apply andb_true_iff in H as [H1 H2].
    apply (match_here_body body Hb) in H2 as (k & rest' & Hk & -> & H2).
    destruct (word_ends_nonempty k (Hw k Hk)) as (Hne & Hh & Hl).
    rewrite (head_app_nonempty _ _ Hne) in H1.
    rewrite (left_of_nonempty _ _ Hne) in H2.
    cbn [match_here] in H2. rewrite andb_true_r in H2.
    unfold at_boundary in H1, H2. rewrite Hh in H1. rewrite Hl in H2.
    exists k. split; [exact Hk|]. exists pre, rest'.
    split; [reflexivity|].
    split; [now destruct (isword_opt (last pre))
           | now destruct (isword_opt (head rest'))].
  - intros (k & Hk & pre & post & -> & Hpre & Hpost).
    destruct (word_ends_nonempty k (Hw k Hk)) as (Hne & Hh & Hl).
    exists pre, (k ++ post). split; [reflexivity|].
    rewrite left_of_None. cbn [match_here].
    rewrite (head_app_nonempty _ _ Hne). unfold at_boundary at 1.
    rewrite Hpre, Hh. cbn [xorb andb].
    apply (match_here_body body Hb). exists k, post.
    split; [exact Hk|]. split; [reflexivity|].
    rewrite (left_of_nonempty _ _ Hne). cbn [match_here].
    unfold at_boundary. now rewrite Hl, Hpost.
Qed.

(** A pattern after one [\b] finds its spellings at the start of a
    word. *)
Lemma search_word_start body t :
  ~ In WordB body ->
  forallb (fun k => isword_opt (head k)) (spellings body) = true ->
  search (WordB :: body) t = true <->
  exists k, In k (spellings body) /\ word_start k t.
Proof.
  intros Hb Hw. rewrite forallb_forall in Hw.
  replace (WordB :: body) with (WordB :: body ++ [])
    by now rewrite app_nil_r.
  unfold search. rewrite search_from_iff. split.
  - intros (pre & rest & -> & H). rewrite left_of_None in H.
    cbn [match_here] in H. apply andb_true_iff in H as [H1 H2].
    apply (match_here_body body Hb) in H2 as (k & rest' & Hk & -> & _).
    pose proof (Hw k Hk) as Hh.
    assert (Hne : k <> []) by (intros ->; discriminate).
    rewrite (head_app_nonempty _ _ Hne) in H1.
    unfold at_boundary in H1. rewrite Hh in H1.
    exists k. split; [exact Hk|]. exists pre, rest'.
    split; [reflexivity | now destruct (isword_opt (last pre))].
  - intros (k & Hk & pre & post & -> & Hpre).
    pose proof (Hw k Hk) as Hh.
    assert (Hne : k <> []) by (intros ->; discriminate).
    exists pre, (k ++ post). split; [reflexivity|].
    rewrite left_of_None. cbn [match_here].
    rewrite (head_app_nonempty _ _ Hne). unfold at_boundary.
    rewrite Hpre, Hh. cbn [xorb andb].
    apply (match_here_body body Hb). exists k, post.
    split; [exact Hk|]. split; reflexivity.
Qed.

(** The same for a list of patterns between two [\b]. *)
Lemma any_search_whole_word bodies t :
  Forall (fun body => ~ In WordB body) bodies ->
  forallb (fun k => isword_opt (head k) && isword_opt (last k))
    (flat_map spellings bodies) = true ->
  existsb (fun p => search p t)
    (map (fun body => WordB :: body ++ [WordB]) bodies) = true <->
  exists k, In k (flat_map spellings bodies) /\ whole_word k t.
Proof.
  induction 1 as [|body bodies Hb _ IH]; intros Hw.
  - simpl. split; [discriminate | intros (k & [] & _)].
  - cbn [flat_map] in Hw. rewrite forallb_app in Hw.
    apply andb_true_iff in Hw as [Hw1 Hw2].
    cbn [map existsb flat_map].
    rewrite orb_true_iff, (search_whole_word body t Hb Hw1), (IH Hw2).
    split.
    + intros [(k & Hk & H)|(k & Hk & H)]; exists k;
        (split; [apply in_or_app; auto | exact H]).
    + intros (k & Hk & H). apply in_app_or in Hk as [Hk|Hk]; eauto.
Qed.

Lemma no_wordb_by_forallb bodies :
  forallb (forallb (fun a => match a with WordB => false | _ => true end))
    bodies = true ->
  Forall (fun body => ~ In WordB body) bodies.
Proof.
  intros H. rewrite forallb_forall in H. apply List.Forall_forall. intros body Hin.
  specialize (H body Hin). rewrite forallb_forall in H.
  intros Hw. now specialize (H _ Hw).
Qed.

End Spellings.

(** C8. For every input text, each of the three flags of [detect_signals]
    is true if and only if at least one pattern of the corresponding
    keyword class matches somewhere in the normalized text: the flag says
    that one of the terms of the class, in its accented or unaccented
    spelling, stands in the normalized text as whole words (for
    "insolvenc", at the start of a word).  On empty (or missing) text the
    three flags are false; a text with only a negative-class term gives
    (false, false, true); a text with a positive-class and a
    governance-class term gives (true, true, false).  A term inside a
    longer word is not found, whatever the script of the neighbouring
    letter or digit; a term next to punctuation is. *)
Theorem detect_signals_spec :
  (forall text : option str,
      (pos (detect_signals text) = true <->
         exists k,
           In k (map U ["cesion"; "cesión"; "cesion de empresa";
                        "cesión de empresa"; "traspaso"; "transmision";
                        "transmisión"; "jubilacion"; "jubilación";
                        "relevo generacional"; "unidad productiva"]%string)
           /\ whole_word k (norm_text text))
      /\ (gov (detect_signals text) = true <->
         exists k,
           In k (map U ["convocatoria de junta"; "junta general";
                        "cambio accionario"]%string)
           /\ whole_word k (norm_text text))
      /\ (neg (detect_signals text) = true <->
         (exists k,
            In k (map U ["disolucion"; "disolución"; "liquidacion";
                         "liquidación"; "concurso"]%string)
            /\ whole_word k (norm_text text))
         \/ word_start (U "insolvenc") (norm_text text)))
  /\ (forall text : option str,
      (pos (detect_signals text) = true <->
         exists p, In p KEYWORDS_POS /\ Re.occurs p (norm_text text))
      /\ (gov (detect_signals text) = true <->
         exists p, In p KEYWORDS_GOV /\ Re.occurs p (norm_text text))
      /\ (neg (detect_signals text) = true <->
         exists p, In p KEYWORDS_NEG /\ Re.occurs p (norm_text text)))
  /\ detect_signals (Some []) = mkSigs false false false
  /\ detect_signals None = mkSigs false false false
  /\ map (fun w => detect_signals (Some (U w)))
       ["cesion"; "cesión"; "CESIÓN"; "transmision"; "Transmisión";
        "jubilacion"; "jubilación"; "cesión."; "(Traspaso)"; "¡CESIÓN!";
        "cesión—"; "cesión-bar"; "cesión de empresas"]%string
     = repeat (mkSigs true false false) 13
  /\ map (fun w => detect_signals (Some (U w)))
       ["disolucion"; "disolución"; "liquidacion"; "LIQUIDACIÓN";
        "insolvencia"; "INSOLVENCIAS"]%string
     = repeat (mkSigs false false true) 6
  /\ detect_signals (Some (U "Declarada en  CONCURSO de acreedores"))
     = mkSigs false false true
  /\ detect_signals (Some (U "Traspaso del negocio; convocatoria de Junta General"))
     = mkSigs true true false
  /\ map (fun w => detect_signals (Some (U w)))
       ["concesión"; "Concesion administrativa"; "sucesión"; "traspasos";
        "preinsolvencia"; "concursos"; "juntas generales"; "cesión_";
        "ācesión"; "cesiónē"; "cesión٣"; "Σcesión"]%string
     = repeat (mkSigs false false false) 12.
Proof.
  split; [|split; [|repeat split; vm_compute; reflexivity]];
    intros text;
    change (pos (detect_signals text)) with
      (existsb (fun p => Re.search p (norm_text text)) KEYWORDS_POS);
    change (gov (detect_signals text)) with
      (existsb (fun p => Re.search p (norm_text text)) KEYWORDS_GOV);
    change (neg (detect_signals text)) with
      (existsb (fun p => Re.search p (norm_text text)) KEYWORDS_NEG);
    [|split; [|split]; apply any_search_occurs].
  split; [|split].
  - change KEYWORDS_POS with
      (map (fun body => Re.WordB :: body ++ [Re.WordB])
         (map Re.compile
            ["cesi[oó]n"; "cesi[oó]n de empresa"; "traspaso";
             "transmisi[oó]n"; "jubilaci[oó]n"; "relevo generacional";
             "unidad productiva"]%string)).
    apply any_search_whole_word;
      [apply no_wordb_by_forallb|]; vm_compute; reflexivity.
  - change KEYWORDS_GOV with
      (map (fun body => Re.WordB :: body ++ [Re.WordB])
         (map Re.compile
            ["convocatoria de junta"; "junta general";
             "cambio accionario"]%string)).
    apply any_search_whole_word;
      [apply no_wordb_by_forallb|]; vm_compute; reflexivity.
  - change KEYWORDS_NEG with
      (map (fun body => Re.WordB :: body ++ [Re.WordB])
         (map Re.compile
            ["disoluci[oó]n"; "liquidaci[oó]n"; "concurso"]%string)
       ++ [Re.WordB :: Re.compile "insolvenc"]).
    rewrite existsb_app, orb_true_iff. cbn [existsb]. rewrite orb_false_r.
    rewrite any_search_whole_word;
      [|apply no_wordb_by_forallb; vm_compute; reflexivity
       |vm_compute; reflexivity].
    rewrite search_word_start;
      [|vm_compute; intros [H|H]; [discriminate|];
        repeat (destruct H as [H|H]; [discriminate|]); destruct H
       |vm_compute; reflexivity].
    split; (intros [H|H]; [left; exact H | right]).
    + destruct H as (k & [<-|[]] & H). exact H.
    + exists (U "insolvenc"). split; [now left | exact H].
Qed.

(* ===================================================================== *)
(** * The entity key *)
(* ===================================================================== *)

(** RFC 1321, appendix A.5: the embedded digest agrees with the test
    suite of the algorithm. *)
Example md5_test_suite :
  map (fun m => MD5.hexdigest (bytes_of m))
    [""; "a"; "abc"; "message digest"; "abcdefghijklmnopqrstuvwxyz";
     "12345678901234567890123456789012345678901234567890123456789012345678901234567890"]%string
  = map U
    ["d41d8cd98f00b204e9800998ecf8427e"; "0cc175b9c0f1b6a831c399e269772661";
     "900150983cd24fb0d6963f7d28e17f72"; "f96b697d7cb7938d525a2f31aaf161d0";
     "c3fcd3d76192e4007dfb496cca67e13b";
     "57edf4a22be3c955ac49da2e2107b67a"]%string.
Proof. vm_compute. reflexivity. Qed.

Lemma sep_free_cons c s : sep_free (c :: s) -> c <> SEP /\ sep_free s.
Proof.
  unfold sep_free. simpl. rewrite andb_true_iff, negb_true_iff, N.eqb_neq.
  tauto.
Qed.

Lemma split_at_sep a a' x x' :
  sep_free a -> sep_free a' ->
  a ++ SEP :: x = a' ++ SEP :: x' -> a = a' /\ x = x'.
Proof.
  revert a'. induction a as [|c a IH]; intros [|c' a'] Ha Ha' E; simpl in E.
  - inversion E. split; reflexivity.
  - inversion E; subst. apply sep_free_cons in Ha' as [Hc _]. congruence.
  - inversion E; subst. apply sep_free_cons in Ha as [Hc _]. congruence.
  - inversion E; subst.
    apply sep_free_cons in Ha as [_ Ha]. apply sep_free_cons in Ha' as [_ Ha'].
    destruct (IH a' Ha Ha') as [-> ->]; [assumption | split; reflexivity].
Qed.

Lemma key_base_inj n p c n' p' c' :
  sep_free (norm_text n) -> sep_free (norm_text p) ->
  sep_free (norm_text n') -> sep_free (norm_text p') ->
  key_base n p c = key_base n' p' c' ->
  norm_text n = norm_text n' /\ norm_text p = norm_text p'
  /\ norm_text c = norm_text c'.
Proof.
  intros Hn Hp Hn' Hp' E. unfold key_base in E.
  change (U "|") with [SEP] in E. simpl app in E.
  apply split_at_sep in E as [En E]; try assumption.
  apply split_at_sep in E as [Ep Ec]; try assumption.
  auto.
Qed.

Section Utf8Facts.

Local Ltac Zify.zify_post_hook ::= Z.to_euclidean_division_equations.

Lemma utf8_char_cases c bs :
  utf8_char c = Some bs ->
  (c < 0x80 /\ bs = [c])
  \/ (0x80 <= c < 0x800 /\ bs = [0xC0 + c / 64; 0x80 + c mod 64])
  \/ (0x800 <= c < 0x10000 /\
      bs = [0xE0 + c / 4096; 0x80 + (c / 64) mod 64; 0x80 + c mod 64])
  \/ (0x10000 <= c < 0x110000 /\
      bs = [0xF0 + c / 262144; 0x80 + (c / 4096) mod 64;
            0x80 + (c / 64) mod 64; 0x80 + c mod 64]).
Proof.
  unfold utf8_char. intros H.
  repeat match type of H with
  | context [?a <? ?b] => destruct (N.ltb_spec a b)
  | context [?a <=? ?b] => destruct (N.leb_spec a b)
  end; simpl in H; try discriminate; injection H as <-;
  first [ left; split; [lia | reflexivity]
        | right; left; split; [lia | reflexivity]
        | right; right; left; split; [lia | reflexivity]
        | right; right; right; split; [lia | reflexivity] ].
Qed.

(** The first byte tells the length of the sequence. *)
Lemma utf8_char_lead c bs :
  utf8_char c = Some bs ->
  exists b rest, bs = b :: rest /\
    ((b < 0x80 /\ length rest = 0%nat)
     \/ (0xC0 <= b < 0xE0 /\ length rest = 1%nat)
     \/ (0xE0 <= b < 0xF0 /\ length rest = 2%nat)
     \/ (0xF0 <= b /\ length rest = 3%nat)).
Proof.
  intros H. apply utf8_char_cases in H as [[H ->]|[[H ->]|[[H ->]|[H ->]]]];
    eexists; eexists; (split; [reflexivity|]).
  - left. split; [lia | reflexivity].
  - right; left. split; [lia | reflexivity].
  - right; right; left. split; [lia | reflexivity].
  - right; right; right. split; [lia | reflexivity].
Qed.

Lemma utf8_char_inj c c' bs bs' r r' :
  utf8_char c = Some bs -> utf8_char c' = Some bs' ->
  bs ++ r = bs' ++ r' -> c = c' /\ r = r'.
Proof.
  intros H H' E.
  destruct (utf8_char_lead _ _ H) as (b & rest & Eb & Hb).
  destruct (utf8_char_lead _ _ H') as (b' & rest' & Eb' & Hb').
  assert (Hlen : length rest = length rest').
  { subst bs bs'. simpl in E. injection E as <- _.
    destruct Hb as [[? ->]|[[? ->]|[[? ->]|[? ->]]]];
    destruct Hb' as [[? ->]|[[? ->]|[[? ->]|[? ->]]]]; first [reflexivity | lia]. }
  clear Hb Hb'.
  apply utf8_char_cases in H as [[H ->]|[[H ->]|[[H ->]|[H ->]]]];
  apply utf8_char_cases in H' as [[H' ->]|[[H' ->]|[[H' ->]|[H' ->]]]];
  injection Eb as <- <-; injection Eb' as <- <-; try discriminate Hlen;
  simpl in E; injection E; intros; subst; (split; [lia | reflexivity]).
Qed.
Lemma utf8_encode_inj s : forall s' bs,
  utf8_encode s = Some bs -> utf8_encode s' = Some bs -> s = s'.
Proof.
  induction s as [|c s IH]; intros [|c' s'] bs H H'; simpl in *.
  - reflexivity.
  - exfalso. injection H as <-.
    destruct (utf8_char c') as [b|] eqn:Ec; [|discriminate].
    destruct (utf8_encode s'); [|discriminate]. injection H' as H'.
    unfold utf8_char in Ec.
    repeat match type of Ec with
    | context [if ?b then _ else _] => destruct b
    end; try discriminate; injection Ec as <-; discriminate.
  - exfalso. injection H' as <-.
    destruct (utf8_char c) as [b|] eqn:Ec; [|discriminate].
    destruct (utf8_encode s); [|discriminate]. injection H as H.
    unfold utf8_char in Ec.
    repeat match type of Ec with
    | context [if ?b then _ else _] => destruct b
    end; try discriminate; injection Ec as <-; discriminate.
  - destruct (utf8_char c) as [b|] eqn:Ec; [|discriminate].
    destruct (utf8_encode s) as [r|] eqn:Es; [|discriminate].
    destruct (utf8_char c') as [b'|] eqn:Ec'; [|discriminate].
    destruct (utf8_encode s') as [r'|] eqn:Es'; [|discriminate].
    injection H as <-. injection H' as E.
    destruct (utf8_char_inj _ _ _ _ _ _ Ec' Ec E) as [-> ->].
    f_equal. eapply IH; [reflexivity | exact Es'].
Qed.

End Utf8Facts.

Lemma Ok_inj {A} (a b : A) : Ok a = Ok b -> a = b.
Proof. intros H. now injection H. Qed.

(** ** C6: the entity key *)

(** C6, as the code has it.  [make_company_key] is a function of its three
    arguments only; two triples whose fields normalize to the same strings
    get the same key, and so do a triple and its normal forms.  When the
    normalized names and provinces contain no separator [|], the hashed
    string determines the three normalized fields, so that two triples
    that differ in a normalized field are hashed from different strings:
    their keys differ, unless both strings cannot be encoded or MD5 gives
    two different byte strings the same digest. *)
Theorem make_company_key_stable (n p c n' p' c' : option str) :
  (norm_text n = norm_text n' /\ norm_text p = norm_text p'
     /\ norm_text c = norm_text c' ->
   make_company_key n p c = make_company_key n' p' c')
  /\ make_company_key (Some (norm_text n)) (Some (norm_text p))
       (Some (norm_text c))
     = make_company_key n p c
  /\ (sep_free (norm_text n) -> sep_free (norm_text p) ->
      sep_free (norm_text n') -> sep_free (norm_text p') ->
      (key_base n p c = key_base n' p' c' <->
       norm_text n = norm_text n' /\ norm_text p = norm_text p'
       /\ norm_text c = norm_text c')
      /\ (make_company_key n p c = make_company_key n' p' c' ->
          (norm_text n = norm_text n' /\ norm_text p = norm_text p'
           /\ norm_text c = norm_text c')
          \/ (make_company_key n p c = Raise UnicodeEncodeError
              /\ make_company_key n' p' c' = Raise UnicodeEncodeError)
          \/ (exists b b',
                utf8_encode (key_base n p c) = Some b
                /\ utf8_encode (key_base n' p' c') = Some b'
                /\ b <> b' /\ MD5.hexdigest b = MD5.hexdigest b'))).
Proof.
  assert (Hsame : forall a b d a' b' d',
            norm_text a = norm_text a' /\ norm_text b = norm_text b'
            /\ norm_text d = norm_text d' ->
            make_company_key a b d = make_company_key a' b' d').
  { intros a b d a' b' d' (E1 & E2 & E3).
    unfold make_company_key, key_base. now rewrite E1, E2, E3. }
  split; [apply Hsame|]. split.
  { apply Hsame. rewrite !norm_text_idem. repeat split. }
  intros Hn Hp Hn' Hp'. split.
  - split; [now apply key_base_inj|].
    intros (E1 & E2 & E3). unfold key_base. now rewrite E1, E2, E3.
  - unfold make_company_key.
    destruct (utf8_encode (key_base n p c)) as [b|] eqn:Eb;
      destruct (utf8_encode (key_base n' p' c')) as [b'|] eqn:Eb';
      intros E; try discriminate.
    + destruct (decide (b = b')) as [->|Hne].
      * left. apply key_base_inj; try assumption.
        eapply utf8_encode_inj; eassumption.
      * right; right. exists b, b'.
        split; [reflexivity|]. split; [reflexivity|]. split; [exact Hne|].
        exact (Ok_inj _ _ E).
    + right; left. split; reflexivity.
Qed.

Lemma make_company_key_stable_witness :
  (sep_free (norm_text (Some (U "  Bar   PEPE ")))
   /\ sep_free (norm_text (Some (U "Huesca")))
   /\ sep_free (norm_text (Some (U "bar pepe")))
   /\ sep_free (norm_text (Some (U " huesca"))))
  /\ make_company_key (Some (U "  Bar   PEPE ")) (Some (U "Huesca"))
       (Some (U "ARAGÓN"))
     = make_company_key (Some (U "bar pepe")) (Some (U " huesca"))
         (Some (U "aragón"))
  /\ make_company_key (Some (U "bar pepe")) (Some (U " huesca"))
       (Some (U "aragón"))
     = Ok (U "55ef183d9a9b4e75167a03aac0944c4b")
  /\ (key_base (Some (U "  Bar   PEPE ")) (Some (U "Huesca"))
        (Some (U "ARAGÓN"))
      = key_base (Some (U "bar pepe")) (Some (U " huesca"))
          (Some (U "aragón")))
  /\ make_company_key (Some (U "Ā")) (Some []) (Some [])
     = Ok (U "55eba885457fd16da5a398b5dd3d3121").
Proof.
  destruct (make_company_key_stable
              (Some (U "  Bar   PEPE ")) (Some (U "Huesca")) (Some (U "ARAGÓN"))
              (Some (U "bar pepe")) (Some (U " huesca")) (Some (U "aragón")))
    as (Hsame & _ & Hinj).
  assert (S1 : sep_free (norm_text (Some (U "  Bar   PEPE "))))
    by (vm_compute; reflexivity).
  assert (S2 : sep_free (norm_text (Some (U "Huesca"))))
    by (vm_compute; reflexivity).
  assert (S3 : sep_free (norm_text (Some (U "bar pepe"))))
    by (vm_compute; reflexivity).
  assert (S4 : sep_free (norm_text (Some (U " huesca"))))
    by (vm_compute; reflexivity).
  assert (E : norm_text (Some (U "  Bar   PEPE ")) = norm_text (Some (U "bar pepe"))
              /\ norm_text (Some (U "Huesca")) = norm_text (Some (U " huesca"))
              /\ norm_text (Some (U "ARAGÓN")) = norm_text (Some (U "aragón")))
    by (repeat split; vm_compute; reflexivity).
  split; [repeat split; assumption|].
  split; [exact (Hsame E)|].
  split; [vm_compute; reflexivity|].
  split; [|vm_compute; reflexivity].
  destruct (Hinj S1 S2 S3 S4) as [Hbase _]. apply Hbase. exact E.
Defined.

(** C6, as it is stated, fails where a field contains the separator: these
    two triples differ in their normalized name and in their normalized
    region, and get the same key. *)
Lemma make_company_key_separator_collision :
  norm_text (Some (U "bar pepe|")) <> norm_text (Some (U "bar pepe"))
  /\ norm_text (Some (U "aragón")) <> norm_text (Some (U "|aragón"))
  /\ make_company_key (Some (U "bar pepe|")) (Some []) (Some (U "aragón"))
     = Ok (U "3884594f61d71f81d8b9165024002233")
  /\ make_company_key (Some (U "bar pepe")) (Some []) (Some (U "|aragón"))
     = Ok (U "3884594f61d71f81d8b9165024002233").
Proof.
  repeat split; try (vm_compute; reflexivity); vm_compute; discriminate.
Qed.

(* ===================================================================== *)
(** * The aggregator *)
(* ===================================================================== *)

Section AggregatorFacts.

Lemma raw_score_not_owned k sigs :
  owns_signal k sigs = false -> raw_score k sigs = 0%Z.
Proof.
  induction sigs as [|s r IH]; [reflexivity|]. simpl.
  destruct (bool_decide (sig_company_key s = k)); [discriminate | exact IH].
Qed.

Lemma agg_lookup sigs k :
  agg sigs !! k =
  if owns_signal k sigs then Some (raw_score k sigs) else None.
Proof.
  induction sigs as [|s r IH]; [apply lookup_empty|].
  simpl. destruct (bool_decide_reflect (sig_company_key s = k)) as [->|Hne].
  - rewrite lookup_insert_eq. simpl. rewrite IH.
    destruct (owns_signal k r) eqn:E; [reflexivity|].
    simpl. now rewrite (raw_score_not_owned _ _ E).
  - rewrite lookup_insert_ne by exact Hne. simpl. exact IH.
Qed.

Lemma banded_lookup version sigs k :
  banded version sigs !! k =
  if owns_signal k sigs
  then Some (let sc := norm_score (raw_score k sigs) in
             mkScore sc (band_of sc) version)
  else None.
Proof.
  unfold banded. rewrite lookup_fmap, agg_lookup.
  destruct (owns_signal k sigs); reflexivity.
Qed.

Lemma recompute_scores_lookup version d k :
  scores (recompute_scores_db version d) !! k =
  if owns_signal k (signals d)
  then Some (let sc := norm_score (raw_score k (signals d)) in
             mkScore sc (band_of sc) version)
  else scores d !! k.
Proof.
  unfold recompute_scores_db, merge_scores. simpl.
  rewrite lookup_merge, banded_lookup.
  destruct (owns_signal k (signals d)); simpl; [reflexivity|].
  destruct (scores d !! k); reflexivity.
Qed.

Lemma norm_score_range raw : (0 <= norm_score raw <= 100)%Z.
Proof.
  unfold norm_score.
  destruct (Z.ltb_spec raw 0); [lia|].
  destruct (Z.gtb_spec raw 100); lia.
Qed.

Lemma owns_signal_app k l1 l2 :
  owns_signal k (l1 ++ l2) = owns_signal k l1 || owns_signal k l2.
Proof. apply existsb_app. Qed.

Lemma scores_owned_step st d :
  scores_owned d -> scores_owned (run_statement st d).
Proof.
  intros H. destruct st as [ckey nm pr cc|e|s|version]; intros k;
    cbn [run_statement].
  - simpl. apply H.
  - simpl. apply H.
  - simpl. intros Hk. rewrite owns_signal_app, (H k Hk). reflexivity.
  - rewrite recompute_scores_lookup.
    change (signals (recompute_scores_db version d)) with (signals d).
    destruct (owns_signal k (signals d)) eqn:E; [reflexivity|].
    intros Hk. rewrite <- E. now apply H.
Qed.

Lemma reachable_scores_owned d : reachable d -> scores_owned d.
Proof.
  induction 1 as [|st d _ IH].
  - intros k [r Hr]. simpl in Hr. rewrite lookup_empty in Hr. discriminate.
  - now apply scores_owned_step.
Qed.

End AggregatorFacts.

(** ** C4 and C7: scores *)

(** C4. For every company that owns at least one signal,
    [recompute_scores] writes the score row made of the sum of all the
    weights of the company's signals clamped to [0, 100] (a negative sum
    gives 0, a sum above 100 gives 100, any other sum is kept), of the
    band of the clamped score, taken highest first (75 and more "Hot", 60
    and more "Warm", 45 and more "Watchlist", "Cold" otherwise), and of
    the version tag.  Sums of -10, 50 and 130 give the scores 0, 50, 100
    and the bands "Cold", "Watchlist", "Hot". *)
Theorem recompute_scores_spec (version : str) (d : db) (k : str)
    (Hk : owns_signal k (signals d) = true) :
  let raw := raw_score k (signals d) in
  let sc := norm_score raw in
  agg (signals d) !! k = Some raw
  /\ scores (recompute_scores_db version d) !! k
     = Some (mkScore sc (band_of sc) version)
  /\ (0 <= sc <= 100)%Z
  /\ ((raw < 0)%Z -> sc = 0%Z)
  /\ ((raw > 100)%Z -> sc = 100%Z)
  /\ ((0 <= raw <= 100)%Z -> sc = raw)
  /\ ((75 <= sc)%Z -> band_of sc = U "Hot")
  /\ ((60 <= sc < 75)%Z -> band_of sc = U "Warm")
  /\ ((45 <= sc < 60)%Z -> band_of sc = U "Watchlist")
  /\ ((sc < 45)%Z -> band_of sc = U "Cold")
  /\ map norm_score [-10; 50; 130]%Z = [0; 50; 100]%Z
  /\ map (fun raw => band_of (norm_score raw)) [-10; 50; 130]%Z
     = [U "Cold"; U "Watchlist"; U "Hot"].
Proof.
  intros raw sc.
  split; [rewrite agg_lookup, Hk; reflexivity|].
  split; [rewrite recompute_scores_lookup, Hk; reflexivity|].
  split; [apply norm_score_range|].
  assert (Hb : forall x : Z,
    band_of x = if (x >=? 75)%Z then U "Hot"
                else if (x >=? 60)%Z then U "Warm"
                else if (x >=? 45)%Z then U "Watchlist" else U "Cold")
    by reflexivity.
  unfold sc, norm_score.
  repeat split; try reflexivity; intros H; rewrite ?Hb;
    repeat match goal with
    | |- context [(?a <? ?b)%Z] => destruct (Z.ltb_spec a b)
    | |- context [(?a >? ?b)%Z] => destruct (Z.gtb_spec a b)
    | |- context [(?a >=? ?b)%Z] => destruct (Z.geb_spec a b)
    | H : context [(?a <? ?b)%Z] |- _ => destruct (Z.ltb_spec a b)
    | H : context [(?a >? ?b)%Z] |- _ => destruct (Z.gtb_spec a b)
    end; try reflexivity; lia.
Qed.

(* ===================================================================== *)
(** * Reasoning about the pipelines *)
(* ===================================================================== *)

Section Triples.

Variable db_raises : nat -> bool.

Lemma triple_ret {A} (P : world -> Prop) (a : A) Q :
  (forall w, P w -> Q (Ok a) w) -> triple P (ret a) Q.
Proof. intros H w Hw. apply H, Hw. Qed.

Lemma triple_lift {A} (P : world -> Prop) (r : result A) Q :
  (forall w, P w -> Q r w) -> triple P (lift r) Q.
Proof. intros H w Hw. apply H, Hw. Qed.

Lemma triple_bind {A B} (P : world -> Prop) (m : M A) (k : A -> M B)
    (Q1 : result A -> world -> Prop) (Q : result B -> world -> Prop) :
  triple P m Q1 ->
  (forall e w, Q1 (Raise e) w -> Q (Raise e) w) ->
  (forall a, triple (Q1 (Ok a)) (k a) Q) ->
  triple P (bind m k) Q.
Proof.
  intros Hm He Hk w Hw. specialize (Hm w Hw). unfold bind.
  destruct (m w) as [[a|e] w']; simpl in *.
  - apply (Hk a), Hm.
  - apply He, Hm.
Qed.

Lemma triple_execute {A} (P : world -> Prop) (stmt : db -> A * db) Q :
  (forall w, P w -> db_raises (clock w) = true -> Q (Raise DbError) (tick w)) ->
  (forall w, P w -> db_raises (clock w) = false ->
     Q (Ok (fst (stmt (store w)))) (tick (set_store (snd (stmt (store w))) w))) ->
  triple P (execute db_raises stmt) Q.
Proof.
  intros Hr Ho w Hw. unfold execute.
  destruct (db_raises (clock w)) eqn:E.
  - apply Hr; assumption.
  - specialize (Ho w Hw E). destruct (stmt (store w)). exact Ho.
Qed.

Lemma triple_when (P : world -> Prop) (b : bool) (m : M unit) Q :
  (b = true -> triple P m Q) ->
  (b = false -> forall w, P w -> Q (Ok tt) w) ->
  triple P (when b m) Q.
Proof.
  intros Hm Hn. destruct b; simpl.
  - now apply Hm.
  - intros w Hw. now apply Hn.
Qed.

Lemma execute_ok {A} (stmt : db -> A * db) w :
  db_raises (clock w) = false ->
  execute db_raises stmt w =
  (Ok (fst (stmt (store w))), tick (set_store (snd (stmt (store w))) w)).
Proof. intros E. unfold execute. rewrite E. now destruct (stmt (store w)). Qed.


End Triples.

Section BormeFacts.

Variable pdf_text_from_url : nat -> str -> result str.
Variable db_raises : nat -> bool.
Variable strptime_date : str -> result date.

Local Abbreviation borme_record' :=
  (borme_record pdf_text_from_url db_raises strptime_date).
Local Abbreviation borme_loop' :=
  (borme_loop pdf_text_from_url db_raises strptime_date).

Lemma borme_record_skip run_date it url text w :
  url_pdf it = Some url ->
  pdf_text_from_url (clock w) url = Ok text ->
  detect_signals (Some text) = mkSigs false false false ->
  borme_record' run_date it w = (Ok Skipped, tick w).
Proof.
  intros Hu Hf Hs. unfold borme_record, bind, fetch_pdf.
  rewrite Hu, Hf, Hs. reflexivity.
Qed.

Lemma no_keyword_no_signal text :
  (forall p, In p ALL_KEYWORDS -> ~ Re.occurs p (norm_text (Some text))) ->
  detect_signals (Some text) = mkSigs false false false.
Proof.
  intros H.
  assert (Hno : forall ps, (forall p, In p ps -> In p ALL_KEYWORDS) ->
            existsb (fun p => Re.search p (norm_text (Some text))) ps = false).
  { intros ps Hps. apply not_true_is_false. intros E.
    apply any_search_occurs in E as (p & Hin & Ho).
    exact (H p (Hps p Hin) Ho). }
  unfold detect_signals. cbv zeta. f_equal; apply Hno; intros p Hp;
    unfold ALL_KEYWORDS; rewrite !in_app_iff; tauto.
Qed.

(** Decision of the premise above, for the examples. *)
Lemma no_keyword_by_search text :
  existsb (fun p => Re.search p (norm_text (Some text))) ALL_KEYWORDS = false ->
  forall p, In p ALL_KEYWORDS -> ~ Re.occurs p (norm_text (Some text)).
Proof.
  intros E p Hin Ho.
  assert (T : existsb (fun p => Re.search p (norm_text (Some text))) ALL_KEYWORDS = true)
    by (apply any_search_occurs; eauto).
  congruence.
Qed.

(** C2. Processing a document whose extracted text matches none of the
    three keyword classes ends at the noise filter: no company is
    upserted and no event is inserted, the tables are left as they
    were. *)
Theorem borme_noise_leaves_store (run_date : str) (it : borme_item)
    (url text : str) (w : world)
    (Hurl : url_pdf it = Some url)
    (Hfetch : pdf_text_from_url (clock w) url = Ok text)
    (Hnone : forall p, In p ALL_KEYWORDS ->
               ~ Re.occurs p (norm_text (Some text))) :
  fst (borme_record' run_date it w) = Ok Skipped
  /\ store (snd (borme_record' run_date it w)) = store w
  /\ companies (store (snd (borme_record' run_date it w))) = companies (store w)
  /\ events (store (snd (borme_record' run_date it w))) = events (store w).
Proof.
  rewrite (borme_record_skip run_date it url text w Hurl Hfetch
             (no_keyword_no_signal _ Hnone)).
  repeat split.
Qed.

(** C1, as the code has it.  When the detector finds the three flags
    false on the text of a document, the record is dropped at the noise
    filter: no event row and no signal row is inserted for it, no company
    is upserted, and the record is not counted as processed. *)
Theorem borme_all_false_skips_record (run_date : str) (it : borme_item)
    (url text : str) (w : world) (rest : list borme_item) (processed : nat)
    (Hurl : url_pdf it = Some url)
    (Hfetch : pdf_text_from_url (clock w) url = Ok text)
    (Hflags : detect_signals (Some text) = mkSigs false false false) :
  borme_record' run_date it w = (Ok Skipped, tick w)
  /\ events (store (tick w)) = events (store w)
  /\ signals (store (tick w)) = signals (store w)
  /\ companies (store (tick w)) = companies (store w)
  /\ borme_loop' run_date (it :: rest) processed w
     = borme_loop' run_date rest processed (tick w).
Proof.
  pose proof (borme_record_skip run_date it url text w Hurl Hfetch Hflags) as E.
  repeat split; try exact E. simpl. now rewrite E.
Qed.

End BormeFacts.

Lemma borme_noise_leaves_store_witness :
  fst (borme_record (serve_text text_noise) no_faults parse_20260203
         (U "20260203") item_acme world0) = Ok Skipped
  /\ store (snd (borme_record (serve_text text_noise) no_faults parse_20260203
                   (U "20260203") item_acme world0)) = empty_db.
Proof.
  destruct (borme_noise_leaves_store (serve_text text_noise) no_faults
              parse_20260203 (U "20260203") item_acme
              (U "https://www.boe.es/borme/dias/2026/02/03/pdfs/BORME-A-2026-23-08.pdf")
              text_noise world0 eq_refl eq_refl
              (no_keyword_by_search text_noise eq_refl))
    as (H1 & H2 & _).
  split; [exact H1 | exact H2].
Defined.

Lemma borme_all_false_skips_record_witness :
  borme_loop (serve_text text_noise) no_faults parse_20260203
    (U "20260203") [item_acme] 0 world0 = (0%nat, tick world0).
Proof.
  destruct (borme_all_false_skips_record (serve_text text_noise) no_faults
              parse_20260203 (U "20260203") item_acme
              (U "https://www.boe.es/borme/dias/2026/02/03/pdfs/BORME-A-2026-23-08.pdf")
              text_noise world0 [] 0%nat eq_refl eq_refl eq_refl)
    as (_ & _ & _ & _ & H).
  exact H.
Defined.

(** C1, as it is stated, fails: this document has the three flags false,
    and after it is processed the table of events is still empty. *)
Lemma borme_all_false_inserts_no_event :
  detect_signals (Some text_noise) = mkSigs false false false
  /\ fst (borme_record (serve_text text_noise) no_faults parse_20260203
           (U "20260203") item_acme world0) = Ok Skipped
  /\ events (store (snd (borme_record (serve_text text_noise) no_faults
                           parse_20260203 (U "20260203") item_acme world0)))
     = [].
Proof. repeat split; vm_compute; reflexivity. Qed.

Section RegionalFacts.

Variable scrape_listings_basic : nat -> str -> nat -> result (list listing).
Variable db_raises : nat -> bool.
Variable today : date.

Local Abbreviation regional_record' := (regional_record db_raises today).
Local Abbreviation regional_listings' := (regional_listings db_raises today).
Local Abbreviation regional_loop' :=
  (regional_loop scrape_listings_basic db_raises today).


End RegionalFacts.

(** ** Signals and the event of their record *)

Section RecordEffect.

Variable pdf_text_from_url : nat -> str -> result str.
Variable db_raises : nat -> bool.
Variable strptime_date : str -> result date.
Variable today : date.

Lemma triple_fetch (P : world -> Prop) url_pdf Q :
  (forall w r, P w -> Q r (tick w)) ->
  (forall w, P w -> Q (Raise FetchError) w) ->
  triple P (fetch_pdf pdf_text_from_url url_pdf) Q.
Proof.
  intros Ht Hn w Hw. unfold fetch_pdf. destruct url_pdf; simpl.
  - now apply Ht.
  - now apply Hn.
Qed.

Lemma no_event_yet_tick w0 w : no_event_yet w0 w -> no_event_yet w0 (tick w).
Proof. exact (fun H => H). Qed.

Lemma triple_upsert w0 ckey nm pr cc :
  triple (no_event_yet w0) (upsert_company db_raises ckey nm pr cc)
    (fun _ => no_event_yet w0).
Proof. apply triple_execute; intros w H _; exact H. Qed.

Lemma triple_insert_event w0 e :
  triple (no_event_yet w0) (insert_event db_raises e)
    (fun r w => match r with
                | Ok id => event_inserted w0 (mkEventRow id e) w
                | Raise _ => no_event_yet w0 w
                end).
Proof.
  apply triple_execute; intros w (He & Hs & Hn) _.
  - repeat split; assumption.
  - simpl. split; [exact Hn|]. split; [now rewrite He|].
    exists []. split; [now rewrite app_nil_r | constructor].
Qed.

Lemma triple_insert_signal w0 row s (b : bool) :
  consistent row s ->
  triple (event_inserted w0 row) (when b (insert_signal db_raises s))
    (fun _ => event_inserted w0 row).
Proof.
  intros Hc. apply triple_when; intros _; [|intros w H; exact H].
  apply triple_execute; intros w (Hid & He & sigs & Hs & Hall) _.
  - split; [exact Hid|]. split; [exact He|]. now exists sigs.
  - split; [exact Hid|]. split; [exact He|].
    exists (sigs ++ [s]). simpl. split.
    + now rewrite Hs, app_assoc.
    + apply Forall_app. split; [exact Hall|].
      constructor; [exact Hc | constructor].
Qed.

Lemma borme_record_effect run_date it w0 :
  triple (no_event_yet w0)
    (borme_record pdf_text_from_url db_raises strptime_date run_date it)
    (fun _ => record_effect w0).
Proof.
  unfold borme_record. cbv zeta.
  eapply triple_bind with (Q1 := fun _ => no_event_yet w0).
  { apply triple_fetch; intros; assumption. }
  { intros e w H. now left. }
  intros text.
  destruct (negb _).
  { apply triple_ret. intros w H. now left. }
  eapply triple_bind with (Q1 := fun _ => no_event_yet w0).
  { apply triple_lift. intros; assumption. }
  { intros e w H. now left. }
  intros ckey.
  eapply triple_bind; [apply triple_upsert | intros e w H; now left |].
  intros ?.
  eapply triple_bind with (Q1 := fun _ => no_event_yet w0).
  { apply triple_lift. intros; assumption. }
  { intros e w H. now left. }
  intros d.
  eapply triple_bind; [apply triple_insert_event | intros e w H; now left |].
  intros id. cbv beta iota.
  eapply triple_bind;
    [apply triple_insert_signal; repeat split
    | intros e w H; right; eexists; exact H |].
  intros ?.
  eapply triple_bind;
    [apply triple_insert_signal; repeat split
    | intros e w H; right; eexists; exact H |].
  intros ?.
  eapply triple_bind;
    [apply triple_insert_signal; repeat split
    | intros e w H; right; eexists; exact H |].
  intros ?.
  apply triple_ret. intros w H. right. eexists. exact H.
Qed.

Lemma regional_record_effect source ccaa li w0 :
  triple (no_event_yet w0) (regional_record db_raises today source ccaa li)
    (fun _ => record_effect w0).
Proof.
  unfold regional_record. cbv zeta.
  eapply triple_bind with (Q1 := fun _ => no_event_yet w0).
  { apply triple_lift. intros; assumption. }
  { intros e w H. now left. }
  intros ckey.
  eapply triple_bind; [apply triple_upsert | intros e w H; now left |].
  intros ?.
  eapply triple_bind; [apply triple_insert_event | intros e w H; now left |].
  intros id. cbv beta iota.
  pose proof (triple_insert_signal w0
    (mkEventRow id
       {| ev_source := source; source_ref := None; event_date := today;
          event_type := U "listing";
          title := take 500 (str_or (li_title li) (U "Negocio en traspaso"));
          url := li_url li;
          raw_excerpt := U "Listing detectado (heurístico) en " ++ source
                         ++ U " (" ++ ccaa ++ U ").";
          ev_company_key := ckey |})
    {| sig_company_key := ckey; signal_date := today;
       signal_kind := U "explicit_listing"; weight := 40;
       sig_source := source; event_id := Some id;
       notes := U "Señal explícita: listing/bolsa (heurístico)." |}
    true) as T.
  intros w Hw. right. eexists. apply (T ltac:(repeat split) w Hw).
Qed.

End RecordEffect.

(** C10. In both pipelines, the signal rows inserted while one record is
    processed all belong to the event row inserted for that record: they
    carry its company key, their date is its event date, and their
    [event_id] is the identity its insert returned.  (This holds for every
    ending of the record, an exception included; at most one event row is
    inserted per record, and no signal before it.) *)
Theorem signals_belong_to_their_event
    (pdf_text_from_url : nat -> str -> result str) (db_raises : nat -> bool)
    (strptime_date : str -> result date) (today : date) (w : world) :
  (forall run_date it,
      record_effect w
        (snd (borme_record pdf_text_from_url db_raises strptime_date
                run_date it w)))
  /\ (forall source ccaa li,
      record_effect w (snd (regional_record db_raises today source ccaa li w))).
Proof.
  split.
  - intros run_date it.
    apply (borme_record_effect pdf_text_from_url db_raises strptime_date
             run_date it w w).
    repeat split.
  - intros source ccaa li.
    apply (regional_record_effect db_raises today source ccaa li w w).
    repeat split.
Qed.

(** ** Properties kept by everything a run does *)

Section Stable.

Variable pdf_text_from_url : nat -> str -> result str.
Variable scrape_listings_basic : nat -> str -> nat -> result (list listing).
Variable db_raises : nat -> bool.
Variable strptime_date : str -> result date.
Variable utc_today_yyyymmdd : str.
Variable today : date.
Variable http_get_json : nat -> str -> result sumario.
Variable environ : str -> option str.
Variable connect_raises : nat -> str -> bool.

Variable I : world -> Prop.
Hypothesis I_stable : stable I.

Lemma stable_statement {A} (a : A) (st : statement) :
  triple I (execute db_raises (fun d => (a, run_statement st d)))
    (fun _ => I).
Proof.
  destruct I_stable as (Ht & _ & Hs).
  apply triple_execute; intros w Hw _; [now apply Ht|].
  simpl. apply Ht. now apply Hs.
Qed.

Lemma stable_upsert ckey nm pr cc :
  triple I (upsert_company db_raises ckey nm pr cc) (fun _ => I).
Proof. exact (stable_statement tt (UpsertCompany ckey nm pr cc)). Qed.

Lemma stable_insert_signal s (b : bool) :
  triple I (when b (insert_signal db_raises s)) (fun _ => I).
Proof.
  apply triple_when; intros _; [|intros w Hw; exact Hw].
  exact (stable_statement tt (InsertSignal s)).
Qed.

Lemma stable_insert_event e :
  triple I (insert_event db_raises e) (fun _ => I).
Proof.
  destruct I_stable as (Ht & _ & Hs).
  apply triple_execute; intros w Hw _; [now apply Ht|].
  apply Ht. exact (Hs w (InsertEvent e) Hw).
Qed.

Lemma stable_recompute version :
  triple I (recompute_scores db_raises version) (fun _ => I).
Proof. exact (stable_statement tt (RecomputeScores version)). Qed.

Lemma stable_lift {A} (r : result A) : triple I (lift r) (fun _ => I).
Proof. apply triple_lift. intros; assumption. Qed.

Lemma stable_fetch url_pdf :
  triple I (fetch_pdf pdf_text_from_url url_pdf) (fun _ => I).
Proof.
  destruct I_stable as (Ht & _). apply triple_fetch; intros; auto.
Qed.

Lemma stable_bind {A B} (m : M A) (k : A -> M B) :
  triple I m (fun _ => I) -> (forall a, triple I (k a) (fun _ => I)) ->
  triple I (bind m k) (fun _ => I).
Proof.
  intros Hm Hk. eapply triple_bind; [exact Hm | intros; assumption | exact Hk].
Qed.

Lemma stable_borme_record run_date it :
  triple I (borme_record pdf_text_from_url db_raises strptime_date run_date it)
    (fun _ => I).
Proof.
  unfold borme_record. cbv zeta.
  apply stable_bind; [apply stable_fetch|]. intros text.
  destruct (negb _); [apply triple_ret; intros; assumption|].
  repeat (apply stable_bind;
          [first [ apply stable_lift | apply stable_upsert
                 | apply stable_insert_event | apply stable_insert_signal ]
          | intros ?]).
  apply triple_ret; intros; assumption.
Qed.

Lemma stable_regional_record source ccaa li :
  triple I (regional_record db_raises today source ccaa li) (fun _ => I).
Proof.
  unfold regional_record. cbv zeta.
  repeat (apply stable_bind;
          [first [ apply stable_lift | apply stable_upsert
                 | apply stable_insert_event ]
          | intros ?]).
  exact (stable_insert_signal _ true).
Qed.

Lemma stable_borme_loop run_date items : forall processed w,
  I w ->
  I (snd (borme_loop pdf_text_from_url db_raises strptime_date run_date
            items processed w)).
Proof.
  destruct I_stable as (_ & Hp & _).
  induction items as [|it rest IH]; intros processed w Hw; [exact Hw|].
  simpl. pose proof (stable_borme_record run_date it w Hw) as H.
  destruct (borme_record _ _ _ _ _ _) as [[[|]|e] w']; simpl in H;
    apply IH; auto.
Qed.

Lemma stable_regional_listings source ccaa listings : forall inserted w,
  I w ->
  I (snd (regional_listings db_raises today source ccaa listings inserted w)).
Proof.
  induction listings as [|li rest IH]; intros inserted w Hw; [exact Hw|].
  simpl. pose proof (stable_regional_record source ccaa li w Hw) as H.
  destruct (regional_record _ _ _ _ _ _) as [[[]|e] w']; simpl in H.
  - now apply IH.
  - exact H.
Qed.

Lemma stable_regional_loop srcs : forall inserted w,
  I w ->
  I (snd (regional_loop scrape_listings_basic db_raises today srcs inserted w)).
Proof.
  destruct I_stable as (Ht & Hp & _).
  induction srcs as [|src rest IH]; intros inserted w Hw; [exact Hw|].
  simpl. destruct (scrape_listings_basic _ _ _) as [listings|e].
  - pose proof (stable_regional_listings (src_source src) (src_ccaa src)
                  listings inserted
                  (print (LogRegSource (src_source src) (src_ccaa src)
                            (length listings)) (tick w))
                  (Hp _ _ (Ht _ Hw))) as H.
    destruct (regional_listings _ _ _ _ _ _ _) as [[[[]|e] n] w']; simpl in H;
      apply IH; auto.
  - apply IH; auto.
Qed.

Lemma stable_driver_call : triple I (driver_call db_raises) (fun _ => I).
Proof.
  destruct I_stable as (Ht & _ & _).
  apply triple_execute; intros w Hw _; [now apply Ht|].
  destruct w. exact (Ht _ Hw).
Qed.

Lemma stable_say l : triple I (say l) (fun _ => I).
Proof. destruct I_stable as (_ & Hp & _). intros w Hw. now apply Hp. Qed.

Lemma stable_ensure_schema : triple I (ensure_schema db_raises) (fun _ => I).
Proof.
  unfold ensure_schema.
  repeat (apply stable_bind; [apply stable_driver_call | intros ?]).
  apply stable_driver_call.
Qed.

Lemma stable_sql_conn :
  triple I (sql_conn environ connect_raises) (fun _ => I).
Proof.
  destruct I_stable as (Ht & _ & _). unfold sql_conn.
  repeat (apply stable_bind; [apply stable_lift | intros ?]).
  intros w Hw. destruct (connect_raises _ _); now apply Ht.
Qed.

Lemma stable_open_store :
  triple I (open_store db_raises environ connect_raises) (fun _ => I).
Proof.
  unfold open_store.
  apply stable_bind; [apply stable_sql_conn | intros ?].
  apply stable_bind; [apply stable_driver_call | intros ?].
  apply stable_ensure_schema.
Qed.

Lemma stable_close_store : triple I (close_store db_raises) (fun _ => I).
Proof.
  unfold close_store.
  apply stable_bind; [apply stable_recompute | intros ?].
  apply stable_bind; [apply stable_driver_call | intros ?].
  apply stable_driver_call.
Qed.

Lemma stable_fetch_borme_sumario yyyymmdd :
  triple I (fetch_borme_sumario http_get_json yyyymmdd) (fun _ => I).
Proof. destruct I_stable as (Ht & _ & _). intros w Hw. now apply Ht. Qed.

Lemma stable_etl_borme run_date cap w :
  I w ->
  I (snd (etl_borme pdf_text_from_url db_raises strptime_date
            utc_today_yyyymmdd http_get_json environ connect_raises
            run_date cap w)).
Proof.
  revert w. change (triple I
    (etl_borme pdf_text_from_url db_raises strptime_date utc_today_yyyymmdd
       http_get_json environ connect_raises run_date cap) (fun _ => I)).
  unfold etl_borme. cbv zeta.
  apply stable_bind; [apply stable_fetch_borme_sumario | intros sumario].
  apply stable_bind; [apply stable_lift | intros items].
  apply stable_bind; [apply stable_lift | intros pdf_items].
  apply stable_bind; [apply stable_say | intros ?].
  apply stable_bind; [apply stable_open_store | intros ?].
  apply stable_bind; [|intros processed].
  { intros w Hw. pose proof (stable_borme_loop
      (str_or run_date utc_today_yyyymmdd) (slice_to cap pdf_items) 0%nat w Hw) as H.
    destruct (borme_loop _ _ _ _ _ _ _) as [n w']. exact H. }
  apply stable_bind; [apply stable_close_store | intros ?].
  apply stable_say.
Qed.

Lemma stable_etl_regional w :
  I w ->
  I (snd (etl_regional scrape_listings_basic db_raises today environ
            connect_raises w)).
Proof.
  revert w. change (triple I
    (etl_regional scrape_listings_basic db_raises today environ
       connect_raises) (fun _ => I)).
  unfold etl_regional.
  apply stable_bind; [apply stable_open_store | intros ?].
  apply stable_bind; [|intros inserted].
  { intros w Hw. pose proof (stable_regional_loop REGIONAL_SOURCES 0%nat w Hw) as H.
    destruct (regional_loop _ _ _ _ _ _) as [n w']. exact H. }
  apply stable_bind; [apply stable_close_store | intros ?].
  apply stable_say.
Qed.

End Stable.


Lemma stable_reachable : stable (fun w => reachable (store w)).
Proof.
  split; [|split].
  - intros w H. exact H.
  - intros w l H. exact H.
  - intros w st H. simpl. now constructor.
Qed.

Section Isolation.

Variable pdf_text_from_url : nat -> str -> result str.
Variable scrape_listings_basic : nat -> str -> nat -> result (list listing).
Variable db_raises : nat -> bool.
Variable strptime_date : str -> result date.
Variable today : date.

Local Abbreviation borme_record' :=
  (borme_record pdf_text_from_url db_raises strptime_date).
Local Abbreviation borme_loop' :=
  (borme_loop pdf_text_from_url db_raises strptime_date).
Local Abbreviation regional_record' := (regional_record db_raises today).
Local Abbreviation regional_listings' := (regional_listings db_raises today).
Local Abbreviation regional_loop' :=
  (regional_loop scrape_listings_basic db_raises today).






End Isolation.

(** ** C7 *)

(** C7. After the aggregator has run on tables that the program filled
    (from the empty schema, by its own statements), the table of scores
    has a row for a company key exactly when the company owns at least
    one signal; a company without signals has no score row.  Both runs
    keep this: after them every score row belongs to a company that owns
    a signal. *)
Theorem scores_only_for_signal_owners (d : db) (Hd : reachable d)
    (version k : str) :
  (is_Some (scores (recompute_scores_db version d) !! k)
   <-> owns_signal k (signals d) = true)
  /\ (owns_signal k (signals d) = false ->
      scores (recompute_scores_db version d) !! k = None)
  /\ (forall pdf_text_from_url db_raises strptime_date utc_today_yyyymmdd
        http_get_json environ connect_raises run_date cap w,
        store w = d ->
        scores_owned
          (store (snd (etl_borme pdf_text_from_url db_raises strptime_date
                         utc_today_yyyymmdd http_get_json environ
                         connect_raises run_date cap w))))
  /\ (forall scrape_listings_basic db_raises today environ connect_raises w,
        store w = d ->
        scores_owned
          (store (snd (etl_regional scrape_listings_basic db_raises today
                         environ connect_raises w)))).
Proof.
  pose proof (reachable_scores_owned d Hd) as Ho.
  split; [|split; [|split]].
  - rewrite recompute_scores_lookup. split.
    + destruct (owns_signal k (signals d)) eqn:E; [reflexivity|].
      intros H. rewrite <- E. now apply Ho.
    + intros ->. eexists. reflexivity.
  - intros E. rewrite recompute_scores_lookup, E.
    destruct (scores d !! k) eqn:Es; [|reflexivity].
    rewrite (Ho k) in E by (rewrite Es; eexists; reflexivity). discriminate.
  - intros pdf db_raises strp utc http env conn run_date cap w <-.
    apply reachable_scores_owned.
    apply (stable_etl_borme pdf db_raises strp utc http env conn _
             stable_reachable).
    exact Hd.
  - intros scrape db_raises today env conn w <-.
    apply reachable_scores_owned.
    apply (stable_etl_regional scrape db_raises today env conn _
             stable_reachable).
    exact Hd.
Qed.

Lemma fold_left_reachable sts : forall d,
  reachable d -> reachable (fold_left (fun d st => run_statement st d) sts d).
Proof.
  induction sts as [|st sts IH]; intros d H; [exact H|].
  simpl. apply IH. now constructor.
Qed.

Lemma recompute_scores_spec_witness :
  owns_signal (U "k1") (signals db_three_companies) = true
  /\ scores (recompute_scores_db DEFAULT_VERSION db_three_companies) !! U "k1"
     = Some (mkScore 0 (U "Cold") DEFAULT_VERSION)
  /\ scores (recompute_scores_db DEFAULT_VERSION db_three_companies) !! U "k2"
     = Some (mkScore 50 (U "Watchlist") DEFAULT_VERSION)
  /\ scores (recompute_scores_db DEFAULT_VERSION db_three_companies) !! U "k3"
     = Some (mkScore 100 (U "Hot") DEFAULT_VERSION).
Proof.
  split; [vm_compute; reflexivity|].
  split; [|split].
  - destruct (recompute_scores_spec DEFAULT_VERSION db_three_companies (U "k1"))
      as (_ & H & _); [vm_compute; reflexivity|].
    etransitivity; [exact H | vm_compute; reflexivity].
  - destruct (recompute_scores_spec DEFAULT_VERSION db_three_companies (U "k2"))
      as (_ & H & _); [vm_compute; reflexivity|].
    etransitivity; [exact H | vm_compute; reflexivity].
  - destruct (recompute_scores_spec DEFAULT_VERSION db_three_companies (U "k3"))
      as (_ & H & _); [vm_compute; reflexivity|].
    etransitivity; [exact H | vm_compute; reflexivity].
Defined.

Lemma scores_only_for_signal_owners_witness :
  reachable db_three_companies
  /\ is_Some (companies db_three_companies !! U "k0")
  /\ owns_signal (U "k0") (signals db_three_companies) = false
  /\ scores (recompute_scores_db DEFAULT_VERSION db_three_companies) !! U "k0"
     = None.
Proof.
  assert (R : reachable db_three_companies)
    by (apply fold_left_reachable; constructor).
  split; [exact R|].
  split; [vm_compute; eexists; reflexivity|].
  split; [vm_compute; reflexivity|].
  destruct (scores_only_for_signal_owners db_three_companies R
              DEFAULT_VERSION (U "k0")) as (_ & H & _).
  apply H. vm_compute. reflexivity.
Defined.




(* ===================================================================== *)
(** * Further properties of the code *)
(* ===================================================================== *)

Section ScraperFacts.

Lemma dedupe_loop_extends max_items links : forall seen out,
  exists ext, dedupe_loop max_items links seen out = out ++ ext
              /\ sublist ext links.
Proof.
  induction links as [|l rest IH]; intros seen out; simpl.
  - exists []. split; [now rewrite app_nil_r | constructor].
  - destruct (bool_decide (li_url l ∈ seen)).
    + destruct (IH seen out) as (ext & -> & Hs).
      exists ext. split; [reflexivity | now apply sublist_cons].
    + destruct (Z.of_nat (length (out ++ [l])) >=? max_items)%Z.
      * exists [l]. split; [reflexivity|].
        apply sublist_skip. apply sublist_nil_l.
      * destruct (IH (seen ∪ {[li_url l]}) (out ++ [l])) as (ext & -> & Hs).
        exists (l :: ext). split; [now rewrite <- app_assoc|].
        now apply sublist_skip.
Qed.

Lemma dedupe_loop_nodup max_items links : forall seen out,
  NoDup (map li_url out) ->
  (forall l, In l out -> li_url l ∈ seen) ->
  NoDup (map li_url (dedupe_loop max_items links seen out)).
Proof.
  induction links as [|l rest IH]; intros seen out Hnd Hseen; simpl.
  - exact Hnd.
  - destruct (bool_decide_reflect (li_url l ∈ seen)) as [Hin|Hnin].
    + now apply IH.
    + assert (Hnd' : NoDup (map li_url (out ++ [l]))).
      { rewrite map_app. simpl. apply NoDup_app. split; [exact Hnd|]. split.
        - intros u Hu Hl. apply list_elem_of_In in Hu.
          apply in_map_iff in Hu as (l' & <- & Hl').
          apply list_elem_of_singleton in Hl. apply Hnin. rewrite <- Hl.
          now apply Hseen.
        - apply NoDup_singleton. }
      destruct (Z.of_nat (length (out ++ [l])) >=? max_items)%Z;
        [exact Hnd'|].
      apply IH; [exact Hnd'|].
      intros l' Hl'. apply in_app_or in Hl' as [Hl'|[<-|[]]].
      * apply elem_of_union_l. now apply Hseen.
      * apply elem_of_union_r. now apply elem_of_singleton.
Qed.

Lemma dedupe_loop_length max_items links : forall seen out,
  (Z.of_nat (length (dedupe_loop max_items links seen out))
   <= Z.max max_items (Z.of_nat (length out) + 1))%Z.
Proof.
  induction links as [|l rest IH]; intros seen out; simpl; [lia|].
  destruct (bool_decide (li_url l ∈ seen)); [apply IH|].
  destruct (Z.geb_spec (Z.of_nat (length (out ++ [l]))) max_items) as [H|H].
  - rewrite length_app in *. simpl in *. lia.
  - specialize (IH (seen ∪ {[li_url l]}) (out ++ [l])).
    rewrite length_app in *. simpl in *. lia.
Qed.

Lemma dedupe_loop_covers max_items links : forall seen out,
  (forall u, u ∈ seen -> In u (map li_url out)) ->
  (Z.of_nat (length (dedupe_loop max_items links seen out)) < max_items)%Z ->
  forall l, In l links ->
    In (li_url l) (map li_url (dedupe_loop max_items links seen out)).
Proof.
  induction links as [|l rest IH]; intros seen out Hseen Hlen l0 Hl0;
    [destruct Hl0|].
  simpl in *.
  destruct (bool_decide_reflect (li_url l ∈ seen)) as [Hin|Hnin].
  - destruct Hl0 as [<-|Hl0]; [|now apply IH].
    destruct (dedupe_loop_extends max_items rest seen out) as (ext & -> & _).
    rewrite map_app. apply in_or_app. left. now apply Hseen.
  - destruct (Z.geb_spec (Z.of_nat (length (out ++ [l]))) max_items) as [H|H];
      [lia|].
    assert (Hseen' : forall u, u ∈ seen ∪ {[li_url l]} ->
                               In u (map li_url (out ++ [l]))).
    { intros u Hu. rewrite map_app. apply in_or_app.
      apply elem_of_union in Hu as [Hu|Hu]; [left; now apply Hseen|].
      right. apply elem_of_singleton in Hu. subst. now left. }
    destruct Hl0 as [<-|Hl0]; [|now apply IH].
    destruct (dedupe_loop_extends max_items rest (seen ∪ {[li_url l]})
                (out ++ [l])) as (ext & -> & _).
    rewrite !map_app. apply in_or_app. left. apply in_or_app. right. now left.
Qed.

Lemma dedupe_loop_first max_items all : forall links done seen out,
  all = done ++ links ->
  (forall u, u ∈ seen <-> In u (map li_url done)) ->
  Forall (first_with_url all) out ->
  Forall (first_with_url all) (dedupe_loop max_items links seen out).
Proof.
  induction links as [|l rest IH]; intros done seen out Hall Hseen Hout;
    [exact Hout|].
  assert (Hall' : all = (done ++ [l]) ++ rest)
    by (rewrite <- app_assoc; exact Hall).
  cbn [dedupe_loop].
  destruct (bool_decide_reflect (li_url l ∈ seen)) as [Hin|Hnin].
  - apply (IH (done ++ [l])); [exact Hall' | | exact Hout].
    intros u. rewrite map_app, in_app_iff, <- Hseen. simpl. split; [tauto|].
    intros [H|[<-|[]]]; assumption.
  - assert (Hout' : Forall (first_with_url all) (out ++ [l])).
    { apply Forall_app. split; [exact Hout|]. constructor; [|constructor].
      exists done, rest. split; [exact Hall|]. now rewrite <- Hseen. }
    destruct (Z.of_nat (length (out ++ [l])) >=? max_items)%Z; [exact Hout'|].
    apply (IH (done ++ [l])); [exact Hall' | | exact Hout'].
    intros u. rewrite map_app, in_app_iff, <- Hseen, elem_of_union,
      elem_of_singleton. simpl. intuition congruence.
Qed.

Lemma Forall_of_sublist {A} (P : A -> Prop) (l1 l2 : list A) :
  sublist l1 l2 -> Forall P l2 -> Forall P l1.
Proof.
  induction 1 as [|x l1 l2 _ IH|x l1 l2 _ IH]; intros H.
  - constructor.
  - inversion H; subst. constructor; auto.
  - inversion H; subst. auto.
Qed.

Lemma page_links_http url anchors :
  Forall (fun l => startswith (U "http") (li_url l) = true
                   /\ (length (li_title l) <= 300)%nat)
    (page_links url anchors).
Proof.
  unfold page_links. induction anchors as [|a rest IH]; [constructor|].
  cbn [flat_map]. apply Forall_app. split; [|exact IH]. cbv zeta.
  match goal with |- context [existsb ?f LISTING_WORDS] =>
    destruct (existsb f LISTING_WORDS) end; [|constructor].
  match goal with |- context [startswith (U "http") ?h] =>
    destruct (startswith (U "http") h) eqn:E end; [|constructor].
  constructor; [|constructor]. cbn [li_url li_title]. split; [exact E|].
  rewrite length_take. lia.
Qed.

End ScraperFacts.

(** X1. What [scrape_listings_basic] returns for a page: the selected
    links in page order, each address once, the link kept for an address
    being the first of the page that has it (with its title), every
    address starting with "http" and every title at most 300 code points
    long.  With [max_items >= 1] there are at most [max_items] of them, and
    when there are fewer than [max_items] every selected address of the
    page is among them.  The bound is tested after the append: with
    [max_items <= 0] a page with a selected link still gives one
    listing.  A page that cannot be fetched gives the exception. *)
Theorem scrape_listings_basic_spec (url : str) (anchors : list anchor)
    (max_items : Z) :
  let out := dedupe_loop max_items (page_links url anchors) ∅ [] in
  listings_of_page (Ok anchors) url max_items = Ok out
  /\ NoDup (map li_url out)
  /\ sublist out (page_links url anchors)
  /\ Forall (first_with_url (page_links url anchors)) out
  /\ Forall (fun l => startswith (U "http") (li_url l) = true
                      /\ (length (li_title l) <= 300)%nat) out
  /\ ((1 <= max_items)%Z -> (Z.of_nat (length out) <= max_items)%Z)
  /\ ((Z.of_nat (length out) < max_items)%Z ->
      forall l, In l (page_links url anchors) ->
                In (li_url l) (map li_url out))
  /\ ((max_items <= 0)%Z -> page_links url anchors <> [] ->
      length out = 1%nat)
  /\ (forall e, listings_of_page (Raise e) url max_items = Raise e)
  /\ listings_of_page (Ok page_aragon) (U "https://relevoaragon.com/") 25
     = Ok [li_jaca; li_bar].
Proof.
  intros out. subst out.
  destruct (dedupe_loop_extends max_items (page_links url anchors) ∅ [])
    as (ext & E & Hsub). simpl in E.
  split; [reflexivity|].
  split; [|split; [|split; [|split; [|split; [|split; [|split; [|split]]]]]]].
  - apply dedupe_loop_nodup; [constructor | intros l []].
  - now rewrite E.
  - apply (dedupe_loop_first _ _ _ []); [reflexivity | | constructor].
    intros u. simpl. split; [intros H; now apply not_elem_of_empty in H | tauto].
  - rewrite E. eapply Forall_of_sublist; [exact Hsub | apply page_links_http].
  - intros H.
    pose proof (dedupe_loop_length max_items (page_links url anchors) ∅ []).
    simpl in *. lia.
  - apply dedupe_loop_covers. intros u Hu. now apply not_elem_of_empty in Hu.
  - intros H Hne. destruct (page_links url anchors) as [|l rest];
      [congruence|].
    simpl. rewrite bool_decide_eq_false_2 by apply not_elem_of_empty.
    destruct (Z.geb_spec (Z.of_nat 1) max_items); [reflexivity | lia].
  - intros e. reflexivity.
  - vm_compute. reflexivity.
Qed.

Section BormeProcessed.

Variable pdf_text_from_url : nat -> str -> result str.
Variable db_raises : nat -> bool.
Variable strptime_date : str -> result date.

Lemma when_insert_signal_ok (b : bool) (s : signal) (w : world) :
  (forall c, db_raises c = false) ->
  when b (insert_signal db_raises s) w =
  (Ok tt, if b then tick (set_store (insert_signal_db s (store w)) w) else w).
Proof.
  intros Hdb. destruct b; [|reflexivity].
  unfold when, insert_signal. now rewrite (execute_ok db_raises _ _ (Hdb _)).
Qed.

(** X2. A document with at least one flag, processed without any failure
    (the download, the key, the date and every statement pass), gets its
    company upserted under the key of its title (province and region
    empty), one event row of type "borme_pdf" holding the first 1200 code
    points of the text, and one signal row per true flag, in the order
    positive (+40), governance (+15), negative (-50), all with the key,
    the date and the identity of that event; it is counted. *)
Theorem borme_record_processed (run_date : str) (it : borme_item)
    (url text ckey : str) (d : date) (w : world)
    (Hurl : url_pdf it = Some url)
    (Hfetch : pdf_text_from_url (clock w) url = Ok text)
    (Hflag : let s := detect_signals (Some text) in
             pos s || gov s || neg s = true)
    (Hkey : make_company_key (Some (borme_company_name it)) (Some [])
              (Some []) = Ok ckey)
    (Hdate : strptime_date run_date = Ok d)
    (Hdb : forall c, db_raises c = false) :
  let r := borme_record pdf_text_from_url db_raises strptime_date
             run_date it w in
  let id := next_event_id (store w) in
  fst r = Ok Processed
  /\ companies (store (snd r))
     = <[ckey := mkCompany (borme_company_name it) [] []]> (companies (store w))
  /\ events (store (snd r))
     = events (store w)
       ++ [ mkEventRow id
              {| ev_source := U "BORME";
                 source_ref := Some (or_empty (identificador it));
                 event_date := d;
                 event_type := U "borme_pdf";
                 title := take 500 (or_empty (titulo it));
                 url := url;
                 raw_excerpt := take 1200 text;
                 ev_company_key := ckey |} ]
  /\ signals (store (snd r))
     = signals (store w) ++ borme_signals (detect_signals (Some text)) ckey d id
  /\ (1 <= length (borme_signals (detect_signals (Some text)) ckey d id) <= 3)%nat.
Proof.
  intros r id. subst r.
  unfold borme_record, bind, fetch_pdf. rewrite Hurl, Hfetch.
  cbv beta iota zeta in *. unfold borme_signals.
  destruct (detect_signals (Some text)) as [p g n]. cbn [pos gov neg] in *.
  rewrite Hflag. cbn [negb].
  fold (borme_company_name it). unfold lift. rewrite Hkey, Hdate.
  cbv beta iota.
  unfold upsert_company, insert_event, ret.
  rewrite (execute_ok db_raises _ _ (Hdb _)). cbv beta iota.
  rewrite (execute_ok db_raises _ _ (Hdb _)). cbv beta iota.
  rewrite !when_insert_signal_ok by exact Hdb. cbv beta iota.
  assert (Ht : (if truthy (Some text) then take 1200 text else []) = take 1200 text)
    by (destruct text; reflexivity).
  rewrite Ht.
  destruct p, g, n; try discriminate Hflag;
    cbn [fst snd store set_store tick companies events signals
         upsert_company_db insert_event_db insert_signal_db next_event_id];
    (split; [reflexivity|]); (split; [reflexivity|]);
    (split; [reflexivity|]);
    (split; [rewrite <- ?app_assoc; reflexivity | cbn [length app]; lia]).
Qed.

End BormeProcessed.

Lemma borme_record_processed_witness :
  signals (store (snd (borme_record (serve_text text_cesion) no_faults
                         parse_20260203 (U "20260203") item_acme world0)))
  = [ {| sig_company_key := U "7c68ff4d06dbcacd6e871559e018e714";
         signal_date := date_20260203;
         signal_kind := U "explicit_or_text_relevo"; weight := 40;
         sig_source := U "BORME"; event_id := Some 1%Z;
         notes := U "Keywords positivas (traspaso/cesión/jubilación/relevo)." |} ].
Proof.
  assert (K : make_company_key (Some (borme_company_name item_acme)) (Some [])
                (Some []) = Ok (U "7c68ff4d06dbcacd6e871559e018e714"))
    by (vm_compute; reflexivity).
  assert (F : let s := detect_signals (Some text_cesion) in
              pos s || gov s || neg s = true)
    by (vm_compute; reflexivity).
  destruct (borme_record_processed (serve_text text_cesion) no_faults
              parse_20260203 (U "20260203") item_acme
              (U "https://www.boe.es/borme/dias/2026/02/03/pdfs/BORME-A-2026-23-08.pdf")
              text_cesion (U "7c68ff4d06dbcacd6e871559e018e714")
              date_20260203 world0 eq_refl eq_refl F K eq_refl
              (fun _ => eq_refl))
    as (_ & _ & _ & H & _).
  etransitivity; [exact H | vm_compute; reflexivity].
Defined.

Section RunSteps.

Variable db_raises : nat -> bool.
Variable environ : str -> option str.
Variable connect_raises : nat -> str -> bool.






End RunSteps.

Section BormeRun.

Variable pdf_text_from_url : nat -> str -> result str.
Variable db_raises : nat -> bool.
Variable strptime_date : str -> result date.
Variable utc_today_yyyymmdd : str.
Variable http_get_json : nat -> str -> result sumario.
Variable environ : str -> option str.
Variable connect_raises : nat -> str -> bool.

Local Abbreviation etl_borme' :=
  (etl_borme pdf_text_from_url db_raises strptime_date utc_today_yyyymmdd
     http_get_json environ connect_raises).




End BormeRun.



(** ** What the runs never undo *)

Lemma stable_keeps w0 : stable (keeps w0).
Proof.
  split; [|split].
  - intros w H. exact H.
  - intros w l H. exact H.
  - intros w st (He & Hs & Hc & Hsc & Hn).
    destruct st as [ckey nm pr cc|e|s|version]; unfold keeps; simpl.
    + repeat split; try assumption. rewrite dom_insert. set_solver.
    + repeat split; try assumption; [|lia].
      etransitivity; [exact He | now apply prefix_app_r].
    + repeat split; try assumption.
      etransitivity; [exact Hs | now apply prefix_app_r].
    + repeat split; try assumption.
      intros k Hk. apply Hsc in Hk.
      apply elem_of_dom. apply elem_of_dom in Hk.
      unfold merge_scores. rewrite lookup_merge.
      destruct (banded version (signals (store w)) !! k); simpl;
        [eexists; reflexivity|].
      destruct Hk as [r ->]. eexists; reflexivity.
Qed.

(** X4. Neither run deletes or rewrites what the store holds: after
    [etl_borme] and after [etl_regional], however the run ends, the event
    rows and the signal rows that were there are still there in the same
    order (new rows come after them), every company key and every score
    key is still present, and the identity counter has not gone back. *)
Theorem runs_are_append_only (w : world) :
  (forall pdf_text_from_url db_raises strptime_date utc_today_yyyymmdd
          http_get_json environ connect_raises run_date cap,
      keeps w (snd (etl_borme pdf_text_from_url db_raises strptime_date
                      utc_today_yyyymmdd http_get_json environ
                      connect_raises run_date cap w)))
  /\ (forall scrape_listings_basic db_raises today environ connect_raises,
      keeps w (snd (etl_regional scrape_listings_basic db_raises today
                      environ connect_raises w))).
Proof.
  assert (H0 : keeps w w) by (repeat split; reflexivity).
  split; intros.
  - now apply (stable_etl_borme _ _ _ _ _ _ _ _ (stable_keeps w)).
  - now apply (stable_etl_regional _ _ _ _ _ _ (stable_keeps w)).
Qed.

(** ** More on the store *)

Lemma band_of_cases (x : Z) :
  (band_of x = U "Hot" /\ (75 <= x)%Z)
  \/ (band_of x = U "Warm" /\ (60 <= x < 75)%Z)
  \/ (band_of x = U "Watchlist" /\ (45 <= x < 60)%Z)
  \/ (band_of x = U "Cold" /\ (x < 45)%Z).
Proof.
  assert (Hb : band_of x = if (x >=? 75)%Z then U "Hot"
                else if (x >=? 60)%Z then U "Warm"
                else if (x >=? 45)%Z then U "Watchlist" else U "Cold")
    by reflexivity.
  rewrite Hb.
  destruct (Z.geb_spec x 75); [left; split; [reflexivity | lia]|].
  destruct (Z.geb_spec x 60); [right; left; split; [reflexivity | lia]|].
  destruct (Z.geb_spec x 45);
    [right; right; left | right; right; right]; (split; [reflexivity | lia]).
Qed.

Lemma reachable_score_rows d :
  reachable d -> forall k r, scores d !! k = Some r -> score_row_ok r.
Proof.
  induction 1 as [|st d _ IH]; intros k r Hr.
  - simpl in Hr. rewrite lookup_empty in Hr. discriminate.
  - destruct st as [ckey nm pr cc|e|s|version]; cbn [run_statement] in Hr.
    + exact (IH k r Hr).
    + exact (IH k r Hr).
    + exact (IH k r Hr).
    + rewrite recompute_scores_lookup in Hr.
      destruct (owns_signal k (signals d)); [|exact (IH k r Hr)].
      injection Hr as <-. split; [apply norm_score_range | reflexivity].
Qed.

(** X5. In a store that the program filled, every score row is well
    formed: its score lies in [0, 100] and its band is the band of its
    score, one of the four labels, "Hot" exactly from 75 up and "Cold"
    exactly below 45. *)
Theorem score_rows_well_formed (d : db) (k : str) (r : score_row)
    (Hd : reachable d) (Hr : scores d !! k = Some r) :
  (0 <= score r <= 100)%Z
  /\ band r = band_of (score r)
  /\ In (band r) [U "Hot"; U "Warm"; U "Watchlist"; U "Cold"]
  /\ (band r = U "Hot" <-> (75 <= score r)%Z)
  /\ (band r = U "Cold" <-> (score r < 45)%Z).
Proof.
  destruct (reachable_score_rows d Hd k r Hr) as [Hs Hb].
  split; [exact Hs|]. split; [exact Hb|]. rewrite Hb.
  assert (Hne : U "Hot" <> U "Warm" /\ U "Hot" <> U "Watchlist"
                /\ U "Hot" <> U "Cold" /\ U "Cold" <> U "Warm"
                /\ U "Cold" <> U "Watchlist")
    by (repeat split; discriminate).
  destruct Hne as (N1 & N2 & N3 & N4 & N5).
  destruct (band_of_cases (score r)) as [[E H]|[[E H]|[[E H]|[E H]]]];
    rewrite E; (split; [simpl; tauto|]); split; split; intros X;
    try reflexivity; try lia; try congruence.
Qed.

Lemma score_rows_well_formed_witness :
  reachable (recompute_scores_db DEFAULT_VERSION db_three_companies)
  /\ exists r,
       scores (recompute_scores_db DEFAULT_VERSION db_three_companies) !! U "k2"
       = Some r
       /\ (0 <= score r <= 100)%Z /\ band r = U "Watchlist".
Proof.
  assert (R : reachable (recompute_scores_db DEFAULT_VERSION db_three_companies)).
  { apply (reachable_step (RecomputeScores DEFAULT_VERSION)).
    apply fold_left_reachable. constructor. }
  split; [exact R|].
  exists (mkScore 50 (U "Watchlist") DEFAULT_VERSION).
  assert (L : scores (recompute_scores_db DEFAULT_VERSION db_three_companies)
                !! U "k2" = Some (mkScore 50 (U "Watchlist") DEFAULT_VERSION))
    by (vm_compute; reflexivity).
  split; [exact L|].
  destruct (score_rows_well_formed _ _ _ R L) as (H & _).
  split; [exact H | reflexivity].
Defined.

(** X6. [recompute_scores] rewrites the row of every company that owns a
    signal and nothing else: the other tables are untouched, the rows of
    keys without signals are left as they are (none is deleted), and a
    second run overwrites the first entirely, so that running it twice
    with one version tag is the same as running it once. *)
Theorem recompute_scores_overwrites (v1 v2 : str) (d : db) :
  recompute_scores_db v2 (recompute_scores_db v1 d) = recompute_scores_db v2 d
  /\ recompute_scores_db v1 (recompute_scores_db v1 d) = recompute_scores_db v1 d
  /\ (forall k, owns_signal k (signals d) = false ->
        scores (recompute_scores_db v1 d) !! k = scores d !! k)
  /\ companies (recompute_scores_db v1 d) = companies d
  /\ events (recompute_scores_db v1 d) = events d
  /\ signals (recompute_scores_db v1 d) = signals d.
Proof.
  assert (H : forall a b,
    recompute_scores_db b (recompute_scores_db a d) = recompute_scores_db b d).
  { intros a b.
    assert (E : scores (recompute_scores_db b (recompute_scores_db a d))
                = scores (recompute_scores_db b d)).
    { apply map_eq. intros k. rewrite !recompute_scores_lookup.
      change (signals (recompute_scores_db a d)) with (signals d).
      destruct (owns_signal k (signals d)) eqn:Ek; reflexivity. }
    unfold recompute_scores_db at 1 3. f_equal. exact E. }
  split; [apply H|]. split; [apply H|]. split; [|repeat split].
  intros k Ek. now rewrite recompute_scores_lookup, Ek.
Qed.

Lemma reachable_ids_below d : reachable d -> ids_below d.
Proof.
  induction 1 as [|st d _ [IHf IHn]].
  - split; constructor.
  - destruct st as [ckey nm pr cc|e|s|version]; try (split; assumption).
    split; simpl.
    + apply Forall_app. split.
      * eapply Forall_impl; [exact IHf|]. simpl. intros; lia.
      * constructor; [simpl; lia | constructor].
    + rewrite map_app. simpl. apply NoDup_app. split; [exact IHn|].
      split; [|apply NoDup_singleton].
      intros x Hx Hx'. apply list_elem_of_singleton in Hx'. subst x.
      apply list_elem_of_In, in_map_iff in Hx as (row & Hid & Hin).
      rewrite Forall_forall in IHf. apply list_elem_of_In in Hin.
      specialize (IHf row Hin). lia.
Qed.

(** X13. In a store that the program filled, [insert_event] returns an
    identity that no event row has yet, and the identities of the event
    rows stay pairwise distinct: the [event_id] of a signal names one
    event row. *)
Theorem insert_event_id_fresh (d : db) (e : ev) (Hd : reachable d) :
  ~ In (fst (insert_event_db e d)) (map row_event_id (events d))
  /\ NoDup (map row_event_id (events (snd (insert_event_db e d))))
  /\ In (mkEventRow (fst (insert_event_db e d)) e)
       (events (snd (insert_event_db e d))).
Proof.
  destruct (reachable_ids_below d Hd) as [Hf Hn].
  split; [|split].
  - simpl. intros Hin. apply in_map_iff in Hin as (row & Hid & Hin).
    rewrite Forall_forall in Hf. apply list_elem_of_In in Hin.
    specialize (Hf row Hin). lia.
  - exact (proj2 (reachable_ids_below _ (reachable_step (InsertEvent e) d Hd))).
  - simpl. apply in_or_app. right. now left.
Qed.

(** ** More on the entity key *)

Section KeyFormat.

Lemma length_le_bytes n x : length (MD5.le_bytes n x) = n.
Proof. revert x. induction n; intros x; simpl; [reflexivity | now rewrite IHn]. Qed.

Lemma le_bytes_small n : forall x, Forall (fun b => b < 256) (MD5.le_bytes n x).
Proof.
  induction n; intros x; simpl; constructor.
  - apply N.mod_lt. discriminate.
  - apply IHn.
Qed.

Lemma digest_bytes msg :
  length (MD5.digest msg) = 16%nat /\ Forall (fun b => b < 256) (MD5.digest msg).
Proof.
  unfold MD5.digest. cbv zeta. split.
  - rewrite !length_app, !length_le_bytes. reflexivity.
  - repeat (apply Forall_app; split); apply le_bytes_small.
Qed.

Lemma hex_digit_is_hex n : n < 16 -> is_hex (MD5.hex_digit n).
Proof.
  intros H. unfold MD5.hex_digit, is_hex.
  destruct (N.ltb_spec n 10); lia.
Qed.

Lemma hexdigest_format msg :
  length (MD5.hexdigest msg) = 32%nat /\ Forall is_hex (MD5.hexdigest msg).
Proof.
  unfold MD5.hexdigest. destruct (digest_bytes msg) as [Hl Hb].
  revert Hl Hb. generalize (MD5.digest msg) as bs. intros bs Hl Hb.
  assert (H : forall l, Forall (fun b => b < 256) l ->
            length (flat_map (fun b => [MD5.hex_digit (b / 16);
                                        MD5.hex_digit (b mod 16)]) l)
            = (2 * length l)%nat
            /\ Forall is_hex
                 (flat_map (fun b => [MD5.hex_digit (b / 16);
                                      MD5.hex_digit (b mod 16)]) l)).
  { induction 1 as [|b l Hb' _ [IH1 IH2]]; [split; [reflexivity | constructor]|].
    cbn [flat_map app length]. split; [rewrite IH1; lia|].
    constructor; [|constructor; [|exact IH2]]; apply hex_digit_is_hex.
    - apply N.Div0.div_lt_upper_bound. lia.
    - apply N.mod_lt. discriminate. }
  destruct (H bs Hb) as [H1 H2]. split; [rewrite H1, Hl; reflexivity | exact H2].
Qed.

Lemma utf8_char_scalar c :
  utf8_char c = None <-> is_scalar c = false.
Proof.
  unfold utf8_char, is_scalar.
  repeat match goal with
  | |- context [?a <? ?b] => destruct (N.ltb_spec a b)
  | |- context [?a <=? ?b] => destruct (N.leb_spec a b)
  end; simpl; split; intros; try discriminate; try reflexivity; lia.
Qed.

Lemma utf8_encode_scalar s :
  (exists bs, utf8_encode s = Some bs) <-> forallb is_scalar s = true.
Proof.
  induction s as [|c s IH]; simpl.
  - split; [reflexivity | eexists; reflexivity].
  - pose proof (utf8_char_scalar c) as Hc.
    destruct (utf8_char c) as [b|].
    + destruct (is_scalar c); [|now destruct Hc as [_ Hc]; discriminate Hc].
      simpl. rewrite <- IH. destruct (utf8_encode s) as [r|].
      * split; intros; eexists; reflexivity.
      * split; intros [bs H]; discriminate.
    + rewrite (proj1 Hc eq_refl). simpl. split; [intros [bs H]|]; discriminate.
Qed.

End KeyFormat.

(** X8. [make_company_key] gives a key exactly when every code point of
    the hashed string can be encoded in UTF-8 (none is a lone surrogate);
    the key is then a string of exactly 32 lower-case hexadecimal digits,
    the width of the column [company_key].  Otherwise it raises
    [UnicodeEncodeError], and it raises nothing else. *)
Theorem make_company_key_format (n p c : option str) :
  if forallb is_scalar (key_base n p c)
  then exists k, make_company_key n p c = Ok k
                 /\ length k = 32%nat /\ Forall is_hex k
  else make_company_key n p c = Raise UnicodeEncodeError.
Proof.
  unfold make_company_key.
  pose proof (utf8_encode_scalar (key_base n p c)) as H.
  destruct (forallb is_scalar (key_base n p c)).
  - destruct (proj2 H eq_refl) as [bs ->].
    exists (MD5.hexdigest bs). split; [reflexivity | apply hexdigest_format].
  - destruct (utf8_encode (key_base n p c)) as [bs|]; [|reflexivity].
    destruct H as [H _]. discriminate H. now exists bs.
Qed.

(** ** More on the normalizer and the detector *)

Section NormShape.

Lemma length_lstrip s : (length (lstrip s) <= length s)%nat.
Proof.
  induction s as [|c s IH]; simpl; [lia|].
  destruct (isspace c); simpl; lia.
Qed.

Lemma length_strip s : (length (strip s) <= length s)%nat.
Proof.
  unfold strip, rstrip. rewrite length_rev.
  etransitivity; [apply length_lstrip|]. rewrite length_rev.
  apply length_lstrip.
Qed.

Lemma length_sub_ws_from b s : (length (sub_ws_from b s) <= length s)%nat.
Proof.
  revert b. induction s as [|c s IH]; intros b; simpl; [lia|].
  pose proof (IH true). pose proof (IH false).
  destruct (isspace c); [destruct b|]; simpl; lia.
Qed.

Lemma sub_ws_from_spaces b s :
  Forall (fun c => isspace c = true -> c = 0x20) (sub_ws_from b s).
Proof.
  revert b. induction s as [|c s IH]; intros b; simpl; [constructor|].
  destruct (isspace c) eqn:E; [destruct b|].
  - apply IH.
  - constructor; [reflexivity | apply IH].
  - constructor; [congruence | apply IH].
Qed.

Lemma lstrip_nil s : lstrip s = [] <-> forallb isspace s = true.
Proof.
  induction s as [|c s IH]; simpl; [tauto|].
  destruct (isspace c); simpl; [exact IH|]. split; discriminate.
Qed.

Lemma rstrip_nil s : rstrip s = [] <-> forallb isspace s = true.
Proof.
  induction s as [|c s IH]; [simpl; tauto|].
  rewrite rstrip_cons. simpl. destruct (rstrip s) as [|x r].
  - destruct (isspace c); simpl; [|split; discriminate].
    rewrite <- IH. tauto.
  - split; [discriminate|]. rewrite andb_true_iff. intros [_ H].
    apply IH in H. discriminate.
Qed.

Lemma strip_nil s : strip s = [] <-> forallb isspace s = true.
Proof.
  unfold strip. rewrite rstrip_nil. split.
  - intros H. apply lstrip_nil.
    pose proof (starts_ws_lstrip s) as Hs.
    destruct (lstrip s) as [|c r]; [reflexivity|].
    simpl in *. rewrite Hs in H. discriminate.
  - intros H. apply lstrip_nil in H. now rewrite H.
Qed.

Lemma In_lstrip c s : In c (lstrip s) -> In c s.
Proof.
  induction s as [|x s IH]; simpl; [tauto|].
  destruct (isspace x); simpl; tauto.
Qed.

Lemma In_strip c s : In c (strip s) -> In c s.
Proof.
  unfold strip, rstrip. intros H. apply in_rev, In_lstrip, in_rev in H.
  now apply In_lstrip.
Qed.

Lemma length_lower_one a e c :
  (length (lower_one a e c) <= 2)%nat
  /\ (c <> 0x130 -> length (lower_one a e c) = 1%nat).
Proof.
  unfold lower_one, to_lower_full.
  destruct (c =? 0x3A3); [split; [simpl; lia | reflexivity]|].
  destruct (N.eqb_spec c 0x130); split; simpl; try lia; congruence.
Qed.

Lemma length_lower_from s : forall a,
  (length (lower_from a s) <= 2 * length s)%nat
  /\ (~ In 0x130 s -> length (lower_from a s) = length s).
Proof.
  induction s as [|c s IH]; intros a; [split; reflexivity|].
  rewrite lower_from_cons, length_app.
  destruct (length_lower_one a (sigma_end s) c) as [H1 H2].
  destruct (IH (if case_ignorable c then a else cased c)) as [I1 I2].
  split; [simpl; lia|]. intros Hn. simpl in Hn.
  rewrite H2, I2 by tauto. reflexivity.
Qed.

Lemma sub_ws_nil s : sub_ws s = [] <-> s = [].
Proof.
  split; [|now intros ->]. destruct s as [|c s]; [reflexivity|].
  unfold sub_ws. simpl. destruct (isspace c); discriminate.
Qed.

End NormShape.

(** X9. The shape of a normal form.  The only whitespace left in it is
    the space U+0020, and it is empty exactly when the input is missing,
    empty or made of whitespace only.  It is never longer than its input
    when the input has no U+0130, the one code point whose lower case
    has two code points, and never more than twice as long. *)
Theorem norm_text_shape (x : option str) :
  (~ In 0x130 (or_empty x) ->
   (length (norm_text x) <= length (or_empty x))%nat)
  /\ (length (norm_text x) <= 2 * length (or_empty x))%nat
  /\ Forall (fun c => isspace c = true -> c = 0x20) (norm_text x)
  /\ (norm_text x = [] <-> forallb isspace (or_empty x) = true)
  /\ norm_text (Some [0x20; 0x130; 0x49]) = [0x69; 0x307; 0x69].
Proof.
  unfold norm_text, sub_ws. cbv zeta.
  pose proof (length_sub_ws_from false (lower (strip (or_empty x)))) as H1.
  destruct (length_lower_from (strip (or_empty x)) false) as [H2 H3].
  pose proof (length_strip (or_empty x)) as H4. fold (lower (strip (or_empty x))) in *.
  split; [|split; [|split; [|split]]].
  - intros Hn. rewrite H3 in H1; [lia|].
    intros Hin. apply Hn. now apply In_strip.
  - lia.
  - apply sub_ws_from_spaces.
  - rewrite <- strip_nil. fold (sub_ws (lower (strip (or_empty x)))).
    rewrite sub_ws_nil. apply lower_from_nil.
  - vm_compute. reflexivity.
Qed.

(** X10. The flags depend only on the lower-cased words of the text: two
    texts with the same words in the same order, however they are cased,
    spaced or broken into lines, get the same flags.  In particular a
    text and its normal form get the same flags. *)
Theorem detect_signals_reflow (s s' : str)
    (Hw : map lower (words s) = map lower (words s')) :
  detect_signals (Some s) = detect_signals (Some s')
  /\ detect_signals (Some (norm_text (Some s))) = detect_signals (Some s).
Proof.
  assert (H : norm_text (Some s) = norm_text (Some s'))
    by (rewrite !norm_text_words; now rewrite Hw).
  split.
  - unfold detect_signals. now rewrite H.
  - unfold detect_signals. now rewrite norm_text_idem.
Qed.

Section Subsumption.
Import Re.

Lemma match_here_tail p0 a r1 r2 :
  (forall s, match_here r1 (Some a) s = true ->
             match_here r2 (Some a) s = true) ->
  forall prev s,
    match_here (p0 ++ Chr a :: r1) prev s = true ->
    match_here (p0 ++ Chr a :: r2) prev s = true.
Proof.
  intros Hr. induction p0 as [|x p0 IH]; intros prev s H.
  - simpl in *. destruct s as [|y s]; [discriminate|].
    apply andb_true_iff in H as [Hy Hm]. rewrite Hy. simpl.
    apply N.eqb_eq in Hy. subst y. now apply Hr.
  - destruct x as [c|cs|]; simpl in *.
    + destruct s as [|y s]; [discriminate|].
      apply andb_true_iff in H as [Hy Hm]. rewrite Hy. simpl. now apply IH.
    + destruct s as [|y s]; [discriminate|].
      apply andb_true_iff in H as [Hy Hm]. rewrite Hy. simpl. now apply IH.
    + apply andb_true_iff in H as [Hb Hm]. rewrite Hb. simpl. now apply IH.
Qed.

Lemma search_from_weaken p q :
  (forall prev s, match_here p prev s = true -> match_here q prev s = true) ->
  forall s prev, search_from p prev s = true -> search_from q prev s = true.
Proof.
  intros Hpq. induction s as [|x s IH]; intros prev H; simpl in *;
    apply orb_true_iff in H as [H|H]; try discriminate.
  - now rewrite (Hpq _ _ H).
  - now rewrite (Hpq _ _ H).
  - rewrite (IH _ H). apply orb_true_r.
Qed.

Lemma cesion_de_empresa_subsumed t :
  search (compile "\bcesi[oó]n de empresa\b") t = true ->
  search (compile "\bcesi[oó]n\b") t = true.
Proof.
  unfold search. apply search_from_weaken. intros prev s.
  change (compile "\bcesi[oó]n de empresa\b") with
    ([WordB; Chr 99; Chr 101; Chr 115; Chr 105; Cls [111; 243]]
     ++ Chr 110 :: compile " de empresa\b").
  change (compile "\bcesi[oó]n\b") with
    ([WordB; Chr 99; Chr 101; Chr 115; Chr 105; Cls [111; 243]]
     ++ Chr 110 :: [WordB]).
  apply match_here_tail. intros s' H.
  destruct s' as [|y s']; [discriminate|].
  change (compile " de empresa\b") with (Chr 32 :: compile "de empresa\b") in H.
  simpl in H. apply andb_true_iff in H as [Hy _].
  apply N.eqb_eq in Hy. subst y. reflexivity.
Qed.

End Subsumption.

(** X11. The second pattern of [KEYWORDS_POS] never decides anything:
    wherever "cesión de empresa" matches, the first pattern, "cesión"
    between word boundaries, matches too, so the positive flag is the
    same with and without it. *)
Theorem keywords_pos_second_redundant (text : option str) :
  nth_error KEYWORDS_POS 0 = Some (Re.compile "\bcesi[oó]n\b")
  /\ nth_error KEYWORDS_POS 1 = Some (Re.compile "\bcesi[oó]n de empresa\b")
  /\ (Re.search (Re.compile "\bcesi[oó]n de empresa\b") (norm_text text) = true ->
      Re.search (Re.compile "\bcesi[oó]n\b") (norm_text text) = true)
  /\ pos (detect_signals text)
     = existsb (fun p => Re.search p (norm_text text))
         (take 1 KEYWORDS_POS ++ drop 2 KEYWORDS_POS).
Proof.
  split; [reflexivity|]. split; [reflexivity|].
  split; [apply cesion_de_empresa_subsumed|].
  change (pos (detect_signals text)) with
    (existsb (fun p => Re.search p (norm_text text)) KEYWORDS_POS).
  change KEYWORDS_POS with
    (Re.compile "\bcesi[oó]n\b" :: Re.compile "\bcesi[oó]n de empresa\b"
     :: drop 2 KEYWORDS_POS).
  cbn [take drop app existsb].
  pose proof (cesion_de_empresa_subsumed (norm_text text)) as H.
  destruct (Re.search (Re.compile "\bcesi[oó]n de empresa\b") (norm_text text));
    [rewrite (H eq_refl); reflexivity|].
  destruct (Re.search (Re.compile "\bcesi[oó]n\b") (norm_text text)); reflexivity.
Qed.

Section Pages.

Lemma cons_nonempty_app w ws l :
  cons_nonempty w (ws ++ l) = cons_nonempty w ws ++ l.
Proof. destruct w; reflexivity. Qed.

Lemma word_rest_newline a b :
  word_rest (a ++ 0x0A :: b)
  = (fst (word_rest a), snd (word_rest a) ++ words b).
Proof.
  induction a as [|c a IH].
  - simpl. unfold words. now destruct (word_rest b).
  - cbn [app word_rest]. rewrite IH. destruct (word_rest a) as [w ws].
    cbn [fst snd]. destruct (isspace c); cbn [fst snd]; [|reflexivity].
    now rewrite cons_nonempty_app.
Qed.

Lemma words_newline a b : words (a ++ 0x0A :: b) = words a ++ words b.
Proof.
  unfold words at 1 2. rewrite word_rest_newline.
  destruct (word_rest a) as [w ws]. apply cons_nonempty_app.
Qed.

Lemma words_join_lines parts :
  words (join_lines parts) = flat_map words parts.
Proof.
  induction parts as [|p [|q rest] IH]; [reflexivity | |].
  - simpl. now rewrite app_nil_r.
  - change (join_lines (p :: q :: rest)) with
      (p ++ 0x0A :: join_lines (q :: rest)).
    rewrite words_newline, IH. reflexivity.
Qed.

End Pages.

(** X12. [pdf_text_from_url] joins the texts of the pages with a line
    feed, a page without text counting as the empty string.  A page
    break therefore acts as whitespace: the words of the document are
    the words of its pages in order, and this is all that the normal
    form, and hence the detector, sees of it.  In the example a term is
    cut by a page without text and is still found. *)
Theorem pdf_text_words (pages : list (option str)) :
  words (pdf_text_of_pages pages)
  = flat_map (fun p => words (or_empty p)) pages
  /\ norm_text (Some (pdf_text_of_pages pages))
     = unwords (map lower (flat_map (fun p => words (or_empty p)) pages))
  /\ pdf_text_of_pages [] = []
  /\ (forall p, pdf_text_of_pages [p] = or_empty p)
  /\ pdf_text_of_pages [Some (U "ĀREA de  CESIÓN de"); None; Some (U "Empresa")]
     = U "ĀREA de  CESIÓN de" ++ [0x0A; 0x0A] ++ U "Empresa"
  /\ norm_text (Some (pdf_text_of_pages
                        [Some (U "ĀREA de  CESIÓN de"); None;
                         Some (U "Empresa")]))
     = U "ārea de cesión de empresa"
  /\ detect_signals (Some (pdf_text_of_pages
                             [Some (U "ĀREA de  CESIÓN de"); None;
                              Some (U "Empresa")]))
     = mkSigs true false false.
Proof.
  assert (H : words (pdf_text_of_pages pages)
              = flat_map (fun p => words (or_empty p)) pages).
  { unfold pdf_text_of_pages. rewrite words_join_lines.
    induction pages as [|p rest IH]; [reflexivity|].
    cbn [map flat_map]. now rewrite IH. }
  split; [exact H|]. split; [now rewrite norm_text_words, H|].
  split; [reflexivity|]. split; [intros p; reflexivity|].
  repeat split; vm_compute; reflexivity.
Qed.

(** ** Runs without failure *)

Section RegionalRuns.

Variable db_raises : nat -> bool.
Variable today : date.
Hypothesis no_fault : forall c, db_raises c = false.

Lemma regional_record_run source ccaa li w ckey :
  make_company_key (Some (listing_name li)) (Some []) (Some ccaa) = Ok ckey ->
  regional_record db_raises today source ccaa li w
  = (Ok tt,
     tick (tick (tick (set_store
       (db_after_listing today source ccaa li ckey (store w)) w)))).
Proof.
  intros Hkey. unfold regional_record, bind, lift.
  fold (listing_name li). rewrite Hkey. cbv beta iota.
  unfold upsert_company, insert_event, insert_signal.
  rewrite (execute_ok db_raises _ _ (no_fault _)). cbv beta iota.
  rewrite (execute_ok db_raises _ _ (no_fault _)). cbv beta iota.
  rewrite (execute_ok db_raises _ _ (no_fault _)).
  reflexivity.
Qed.

Lemma raw_score_app k l1 l2 :
  raw_score k (l1 ++ l2) = (raw_score k l1 + raw_score k l2)%Z.
Proof.
  induction l1 as [|s l1 IH]; simpl; [reflexivity|].
  destruct (bool_decide (sig_company_key s = k)); lia.
Qed.

Lemma key_encodable n p c :
  forallb is_scalar (key_base n p c) = true ->
  exists ckey, make_company_key n p c = Ok ckey.
Proof.
  intros H. apply utf8_encode_scalar in H as [bs Hbs].
  unfold make_company_key. rewrite Hbs. eexists. reflexivity.
Qed.

(** X14. The listings of one source, when nothing fails (every key can be
    computed and no statement is rejected): the inner loop of
    [etl_regional] ends normally, the count grows by the number of
    listings, and so do the table of events and the table of signals;
    every new signal is an "explicit_listing" of weight 40, and the key
    of every listing is a company afterwards. *)
Theorem regional_listings_all_inserted (source ccaa : str)
    (listings : list listing) (inserted : nat) (w : world)
    (Henc : Forall (fun li =>
              forallb is_scalar
                (key_base (Some (listing_name li)) (Some []) (Some ccaa))
              = true) listings) :
  let r := regional_listings db_raises today source ccaa listings inserted w in
  fst (fst r) = Ok tt
  /\ snd (fst r) = (inserted + length listings)%nat
  /\ (exists evs, events (store (snd r)) = events (store w) ++ evs
                  /\ length evs = length listings
                  /\ Forall (fun row => event_type (row_ev row) = U "listing")
                       evs)
  /\ (exists sigs, signals (store (snd r)) = signals (store w) ++ sigs
                   /\ length sigs = length listings
                   /\ Forall (fun s => weight s = 40%Z
                                       /\ signal_kind s = U "explicit_listing")
                        sigs)
  /\ Forall (fun li => exists ckey,
               make_company_key (Some (listing_name li)) (Some []) (Some ccaa)
               = Ok ckey
               /\ is_Some (companies (store (snd r)) !! ckey)) listings.
Proof.
  revert inserted w. induction Henc as [|li rest Hli _ IH]; intros inserted w.
  - simpl. split; [reflexivity|]. split; [lia|].
    split; [exists []; rewrite app_nil_r; repeat split; constructor|].
    split; [exists []; rewrite app_nil_r; repeat split; constructor|].
    constructor.
  - destruct (key_encodable _ _ _ Hli) as [ckey Hkey].
    cbn [regional_listings]. rewrite (regional_record_run _ _ _ _ _ Hkey).
    set (w1 := tick (tick (tick (set_store
                 (db_after_listing today source ccaa li ckey (store w)) w)))).
    specialize (IH (Datatypes.S inserted) w1).
    cbv zeta in IH. destruct IH as (H1 & H2 & (evs & He & Hel & Hef)
                                    & (sigs & Hs & Hsl & Hsf) & Hc).
    split; [exact H1|]. split; [rewrite H2; simpl; lia|].
    split; [|split; [|constructor; [|exact Hc]]].
    + exists (mkEventRow (next_event_id (store w))
                (listing_event today source ccaa li ckey) :: evs).
      split; [rewrite He; simpl; now rewrite <- app_assoc|].
      split; [simpl; now rewrite Hel|]. constructor; [reflexivity | exact Hef].
    + exists (listing_signal today source ckey (next_event_id (store w)) :: sigs).
      split; [rewrite Hs; simpl; now rewrite <- app_assoc|].
      split; [simpl; now rewrite Hsl|].
      constructor; [split; reflexivity | exact Hsf].
    + exists ckey. split; [exact Hkey|].
      pose proof (stable_regional_listings db_raises today _
                    (stable_keeps w1) source ccaa rest (Datatypes.S inserted)
                    w1) as K.
      destruct K as (_ & _ & Kc & _); [repeat split; reflexivity|].
      apply elem_of_dom, Kc, elem_of_dom. simpl.
      rewrite lookup_insert_eq. eexists; reflexivity.
Qed.

(** X7. A listing seen in two runs (nothing failing) has one company row,
    two event rows and two signals, and its weights add up: for a
    company without other signals the aggregator gives 40, "Cold", after
    the first sighting and 80, "Hot", after the second. *)
Theorem listing_seen_twice (source ccaa : str) (li : listing) (w : world)
    (ckey version : str)
    (Hkey : make_company_key (Some (listing_name li)) (Some []) (Some ccaa)
            = Ok ckey)
    (Hnew : owns_signal ckey (signals (store w)) = false) :
  let w1 := snd (regional_record db_raises today source ccaa li w) in
  let w2 := snd (regional_record db_raises today source ccaa li w1) in
  companies (store w2) = companies (store w1)
  /\ length (events (store w2)) = (length (events (store w)) + 2)%nat
  /\ length (signals (store w2)) = (length (signals (store w)) + 2)%nat
  /\ scores (recompute_scores_db version (store w1)) !! ckey
     = Some (mkScore 40 (U "Cold") version)
  /\ scores (recompute_scores_db version (store w2)) !! ckey
     = Some (mkScore 80 (U "Hot") version).
Proof.
  intros w1 w2. subst w2 w1.
  rewrite !(regional_record_run _ _ _ _ _ Hkey). cbn [snd].
  assert (Hraw : raw_score ckey (signals (store w)) = 0%Z)
    by now apply raw_score_not_owned.
  split; [|split; [|split; [|split]]].
  - simpl. apply insert_insert_eq.
  - simpl. rewrite !length_app. simpl. lia.
  - simpl. rewrite !length_app. simpl. lia.
  - rewrite recompute_scores_lookup. simpl signals.
    rewrite owns_signal_app, raw_score_app, Hraw, Hnew. simpl.
    rewrite !bool_decide_eq_true_2 by reflexivity. reflexivity.
  - rewrite recompute_scores_lookup. simpl signals.
    rewrite !owns_signal_app, !raw_score_app, Hraw, Hnew. simpl.
    rewrite !bool_decide_eq_true_2 by reflexivity. reflexivity.
Qed.

End RegionalRuns.

Section BormePartial.

Variable pdf_text_from_url : nat -> str -> result str.
Variable db_raises : nat -> bool.
Variable strptime_date : str -> result date.


End BormePartial.


Lemma regional_listings_all_inserted_witness :
  regional_listings no_faults date_20260203 (U "RelevoAragon") (U "Aragón")
    [li_jaca; li_bar] 0 world_listed
  = (Ok tt, 2%nat,
     snd (regional_listings no_faults date_20260203 (U "RelevoAragon")
            (U "Aragón") [li_jaca; li_bar] 0 world_listed))
  /\ length (events (store (snd (regional_listings no_faults date_20260203
                                   (U "RelevoAragon") (U "Aragón")
                                   [li_jaca; li_bar] 0 world_listed))))
     = 2%nat.
Proof.
  assert (Henc : Forall (fun li =>
            forallb is_scalar
              (key_base (Some (listing_name li)) (Some []) (Some (U "Aragón")))
            = true) [li_jaca; li_bar])
    by (repeat constructor).
  destruct (regional_listings_all_inserted no_faults date_20260203
              (fun _ => eq_refl) (U "RelevoAragon") (U "Aragón")
              [li_jaca; li_bar] 0%nat world_listed Henc)
    as (H1 & H2 & (evs & He & Hel & _) & _).
  split.
  - destruct (regional_listings _ _ _ _ _ _ _) as [[r n] w'].
    simpl in *. now subst.
  - rewrite He, length_app, Hel. reflexivity.
Defined.

Lemma listing_seen_twice_witness :
  scores (recompute_scores_db DEFAULT_VERSION
            (store (snd (regional_record no_faults date_20260203
                           (U "RelevoAragon") (U "Aragón") li_jaca
                           (snd (regional_record no_faults date_20260203
                                   (U "RelevoAragon") (U "Aragón") li_jaca
                                   world0))))))
    !! U "c41d6c595540d294e8c6d62528f3747d"
  = Some (mkScore 80 (U "Hot") DEFAULT_VERSION).
Proof.
  assert (K : make_company_key (Some (listing_name li_jaca)) (Some [])
                (Some (U "Aragón")) = Ok (U "c41d6c595540d294e8c6d62528f3747d"))
    by (vm_compute; reflexivity).
  destruct (listing_seen_twice no_faults date_20260203 (fun _ => eq_refl)
              (U "RelevoAragon") (U "Aragón") li_jaca world0
              (U "c41d6c595540d294e8c6d62528f3747d") DEFAULT_VERSION K eq_refl)
    as (_ & _ & _ & _ & H).
  exact H.
Defined.

Lemma detect_signals_reflow_witness :
  map lower (words (U "ĀREA:  Convocatoria  de" ++ [0x0A; 0x09]
                      ++ U "  JUNTA general"))
  = map U ["ārea:"; "convocatoria"; "de"; "junta"; "general"]%string
  /\ detect_signals (Some (U "ĀREA:  Convocatoria  de" ++ [0x0A; 0x09]
                             ++ U "  JUNTA general"))
     = detect_signals (Some (U "ārea: convocatoria de junta general"))
  /\ detect_signals (Some (U "ārea: convocatoria de junta general"))
     = mkSigs false true false.
Proof.
  assert (W : map lower (words (U "ĀREA:  Convocatoria  de" ++ [0x0A; 0x09]
                                  ++ U "  JUNTA general"))
              = map U ["ārea:"; "convocatoria"; "de"; "junta"; "general"]%string)
    by (vm_compute; reflexivity).
  split; [exact W|].
  destruct (detect_signals_reflow
              (U "ĀREA:  Convocatoria  de" ++ [0x0A; 0x09]
                 ++ U "  JUNTA general")
              (U "ārea: convocatoria de junta general")) as (H & _).
  - rewrite W. vm_compute. reflexivity.
  - split; [exact H | vm_compute; reflexivity].
Defined.

Lemma insert_event_id_fresh_witness :
  reachable (snd (insert_event_db
                    (listing_event date_20260203 (U "RelevoAragon")
                       (U "Aragón") li_jaca [])
                    empty_db))
  /\ fst (insert_event_db
            (listing_event date_20260203 (U "RelevoAragon") (U "Aragón")
               li_bar [])
            (snd (insert_event_db
                    (listing_event date_20260203 (U "RelevoAragon")
                       (U "Aragón") li_jaca [])
                    empty_db)))
     <> 1%Z.
Proof.
  assert (R : reachable (snd (insert_event_db
                    (listing_event date_20260203 (U "RelevoAragon")
                       (U "Aragón") li_jaca [])
                    empty_db)))
    by (apply (reachable_step (InsertEvent _)); constructor).
  split; [exact R|].
  destruct (insert_event_id_fresh _
              (listing_event date_20260203 (U "RelevoAragon") (U "Aragón")
                 li_bar []) R) as (H & _).
  intros E. apply H. rewrite E. simpl. now left.
Defined.

Section RegionalCount.

Variable scrape_listings_basic : nat -> str -> nat -> result (list listing).
Variable db_raises : nat -> bool.
Variable today : date.







Variable environ : str -> option str.
Variable connect_raises : nat -> str -> bool.


End RegionalCount.



(** X17. The company of a document is named after the first 220 code
    points of its title, stripped: two documents whose titles agree on
    these get the same name and the same key.  A document without title
    is named "Empresa (BORME)"; a title that begins with 220 whitespace
    code points, or is shorter and all whitespace, gives the empty
    name. *)
Theorem borme_company_name_spec (it it' : borme_item) :
  (take 220 (or_empty (titulo it)) = take 220 (or_empty (titulo it')) ->
   borme_company_name it = borme_company_name it'
   /\ make_company_key (Some (borme_company_name it)) (Some []) (Some [])
      = make_company_key (Some (borme_company_name it')) (Some []) (Some []))
  /\ (or_empty (titulo it) = [] -> borme_company_name it = U "Empresa (BORME)")
  /\ (or_empty (titulo it) <> [] ->
      forallb isspace (take 220 (or_empty (titulo it))) = true ->
      borme_company_name it = [])
  /\ (length (borme_company_name it) <= 220)%nat.
Proof.
  unfold borme_company_name. split; [|split; [|split]].
  - intros E. rewrite E. split; reflexivity.
  - intros ->. reflexivity.
  - intros Hne Hws.
    destruct (or_empty (titulo it)) as [|c t] eqn:Et; [congruence|].
    change (str_or (take 220 (c :: t)) (U "Empresa (BORME)"))
      with (take 220 (c :: t)).
    now apply strip_nil.
  - etransitivity; [apply length_strip|].
    destruct (take 220 (or_empty (titulo it))) as [|c t] eqn:Et.
    + apply Nat.leb_le. vm_compute. reflexivity.
    + change (str_or (c :: t) (U "Empresa (BORME)")) with (c :: t).
      rewrite <- Et. rewrite length_take. lia.
Qed.

(** X18. What the scraper returns goes through [etl_regional]
    untruncated: the title of a scraped listing has at most 300 code
    points, so the title of its event row, cut at 500, is the whole name
    of its company. *)
Theorem scraped_title_not_truncated (url : str) (anchors : list anchor)
    (max_items : Z) (today : date) (source ccaa ckey : str) :
  Forall (fun li =>
            title (listing_event today source ccaa li ckey) = listing_name li
            /\ (length (listing_name li) <= 300)%nat)
    (dedupe_loop max_items (page_links url anchors) ∅ []).
Proof.
  destruct (dedupe_loop_extends max_items (page_links url anchors) ∅ [])
    as (ext & -> & Hsub). simpl.
  eapply Forall_of_sublist; [exact Hsub|].
  eapply Forall_impl; [apply page_links_http|].
  intros li [_ Hlen]. cbn [title listing_event].
  assert (H : (length (listing_name li) <= 300)%nat).
  { unfold listing_name. destruct (li_title li);
      [apply Nat.leb_le; vm_compute; reflexivity | exact Hlen]. }
  split; [|exact H]. apply take_ge. lia.
Qed.
